(** * object-encoder: the encode/decode engine of [src/lib/index.ts]

    A shallow embedding of [createObjectEncoder] and of the fragment of
    JavaScript it runs on, followed by the properties of the engine.

    What is modelled:
    - strings as [string], one [ascii] standing for one UTF-16 code unit,
      with [length], [slice] and indexing as the source uses them;
    - values: [undefined], [null], booleans, numbers ([NaN] and the
      integers, which is all [===] needs here), strings, and references to
      heap objects;
    - heap objects: the array flag ([Array.isArray]), the prototype link,
      the own enumerable string-keyed data properties in the order
      [Object.entries] lists them (array indices ascending, then the other
      keys in creation order), and the [length] of an array;
    - the heap itself, threaded through every operation, so that reference
      identity, allocation and mutation are visible.

    A call that throws is answered with [None]: the engine throws when it
    assigns to the [length] of an array a value that is no array length.
    The conversion of a string or of an object to a number is left open,
    as a parameter ([LengthConversion]): every statement holds for every
    such conversion.

    What is not modelled: non-enumerable properties other than the
    [length] of an array, accessor properties other than
    [Object.prototype.__proto__], symbols, proxies, function values, and
    exceptions raised by the caller's converters. *)

From Stdlib Require Import ZArith String Ascii List Bool Lia.
From Stdlib Require Import DecimalString DecimalNat DecimalFacts.
From stdpp Require Import base list strings.

Local Open Scope string_scope.
Local Open Scope list_scope.
Local Open Scope Z_scope.

(** ** Strings *)

Module JsString.

(** [str.length] *)
Definition len (s : string) : Z := Z.of_nat (String.length s).

(** [str.slice(start)]: a negative [start] counts from the end; the
    start position is clamped to [0 .. length]. *)
Definition slice (start : Z) (s : string) : string :=
  let from :=
    if start <? 0 then Z.max (len s + start) 0 else Z.min start (len s) in
  String.substring (Z.to_nat from) (Z.to_nat (len s - from)) s.

(** [str[i]]: the one-character string at [i], [None] for [undefined]. *)
Definition at_index (s : string) (i : nat) : option string :=
  match String.get i s with
  | Some c => Some (String c EmptyString)
  | None => None
  end.

(** [str[i] !== other] for a string [other]. *)
Definition at_index_differs (s : string) (i : nat) (other : string) : bool :=
  match at_index s i with
  | Some c => negb (String.eqb c other)
  | None => true
  end.

End JsString.

(** ** Values, objects and the heap *)

Definition loc := nat.

Inductive number :=
| NaN
| Int (z : Z).

Inductive val :=
| VUndefined
| VNull
| VBool (b : bool)
| VNumber (n : number)
| VString (s : string)
| VObject (l : loc).

(** [a === b] *)
Definition strict_eq (a b : val) : bool :=
  match a, b with
  | VUndefined, VUndefined => true
  | VNull, VNull => true
  | VBool x, VBool y => Bool.eqb x y
  | VNumber (Int x), VNumber (Int y) => Z.eqb x y
  | VString x, VString y => String.eqb x y
  | VObject x, VObject y => Nat.eqb x y
  | _, _ => false
  end.

(** [Object(arg) === arg]: true of objects, false of primitives. *)
Definition is_object (v : val) : bool :=
  match v with
  | VObject _ => true
  | _ => false
  end.

(** The [[Prototype]] slot: one of the built-in prototypes
    ([Object.prototype], or [Array.prototype] above it), [null], or an
    object of the heap. *)
Inductive proto :=
| PBuiltin
| PNull
| PObj (l : loc).

(** [array_length] is the own, non-enumerable [length] of an array; it is
    [0] and stands for nothing in any other object. *)
Record obj := mkObj {
  is_array : bool;
  prototype : proto;
  props : list (string * val);
  array_length : N
}.

Abbreviation heap := (list obj).

(** ** Property lists

    The own enumerable properties of an object, in enumeration order. *)

Definition digit_of (c : ascii) : option N :=
  let n := N_of_ascii c in
  if ((48 <=? n) && (n <=? 57))%N then Some (n - 48)%N else None.

Fixpoint parse_digits (s : string) (acc : N) : option N :=
  match s with
  | EmptyString => Some acc
  | String c r =>
      match digit_of c with
      | Some d => parse_digits r (10 * acc + d)%N
      | None => None
      end
  end.

(** An array index is the canonical decimal form of an integer below
    [2^32 - 1]: such keys are enumerated first, in ascending order. *)
Definition array_index (s : string) : option N :=
  match s with
  | EmptyString => None
  | String c r =>
      if Ascii.eqb c "0"%char && negb (String.eqb r EmptyString) then None
      else match parse_digits s 0 with
           | Some n => if (n <? 4294967295)%N then Some n else None
           | None => None
           end
  end.

(** The key of index [i], as in [String(i)]. *)
Definition index_key (i : nat) : string :=
  NilZero.string_of_uint (Nat.to_uint i).

Fixpoint lookup_prop (k : string) (ps : list (string * val)) : option val :=
  match ps with
  | [] => None
  | (k', v) :: r => if String.eqb k' k then Some v else lookup_prop k r
  end.

Definition has_key (k : string) (ps : list (string * val)) : bool :=
  match lookup_prop k ps with
  | Some _ => true
  | None => false
  end.

Fixpoint update_prop (k : string) (v : val) (ps : list (string * val))
  : list (string * val) :=
  match ps with
  | [] => []
  | (k', v') :: r =>
      if String.eqb k' k then (k, v) :: r else (k', v') :: update_prop k v r
  end.

(** Does a new key [k] go before the existing key [k']? *)
Definition goes_before (k k' : string) : bool :=
  match array_index k, array_index k' with
  | Some i, Some j => (i <? j)%N
  | Some _, None => true
  | None, _ => false
  end.

Fixpoint insert_prop (k : string) (v : val) (ps : list (string * val))
  : list (string * val) :=
  match ps with
  | [] => [(k, v)]
  | (k', v') :: r =>
      if goes_before k k' then (k, v) :: ps else (k', v') :: insert_prop k v r
  end.

(** Creating or overwriting an own data property: an existing key keeps
    its place, a new one takes its place in the enumeration order. *)
Definition define_prop (k : string) (v : val) (ps : list (string * val))
  : list (string * val) :=
  if has_key k ps then update_prop k v ps else insert_prop k v ps.

(** Defining the entries [es] one after the other, from left to right. *)
Definition define_all (es ps : list (string * val)) : list (string * val) :=
  fold_left (fun ps e => define_prop (fst e) (snd e) ps) es ps.

(** The keys of a property list, in order. *)
Definition keys (ps : list (string * val)) : list string := map fst ps.

(** [delete o[k]] on the property list. *)
Fixpoint delete_prop (k : string) (ps : list (string * val))
  : list (string * val) :=
  match ps with
  | [] => []
  | (k', v') :: r =>
      if String.eqb k' k then delete_prop k r else (k', v') :: delete_prop k r
  end.

(** ** Heap operations *)

Definition with_props (o : obj) (ps : list (string * val)) : obj :=
  mkObj (is_array o) (prototype o) ps (array_length o).

Definition with_prototype (o : obj) (p : proto) : obj :=
  mkObj (is_array o) p (props o) (array_length o).

Definition with_length (o : obj) (n : N) : obj :=
  mkObj (is_array o) (prototype o) (props o) n.

(** The own enumerable properties. The [length] of an array is not one of
    them: it is [array_length], and an entry of that name in the property
    list of an array stands for no property and is passed over. *)
Definition own_entries (o : obj) : list (string * val) :=
  if is_array o
  then List.filter (fun e => negb (String.eqb (fst e) "length")) (props o)
  else props o.

(** Allocation: the new object gets the next free location. *)
Definition alloc (o : obj) (h : heap) : loc * heap :=
  (List.length h, h ++ [o]).

(** [Array.isArray(arg)] *)
Definition isArray (h : heap) (arg : val) : bool :=
  match arg with
  | VObject l =>
      match h !! l with
      | Some o => is_array o
      | None => false
      end
  | _ => false
  end.

(** [Object.entries(arg)] for an object [arg]. *)
Definition entries (h : heap) (arg : val) : list (string * val) :=
  match arg with
  | VObject l =>
      match h !! l with
      | Some o => own_entries o
      | None => []
      end
  | _ => []
  end.

(** The property lookup [l[k]] walks the prototype chain; [fuel] bounds
    the walk, and the length of the heap is enough for any chain without
    a cycle. The properties of the built-in prototypes are functions and
    accessors, none of which is a value of the model or is ever strictly
    equal to a string, a number or [null]: the walk ends in [undefined]
    there, which compares with a tag value as they do. An array answers
    [length] with its own length. *)
Fixpoint get_from (h : heap) (fuel : nat) (l : loc) (k : string) : val :=
  match fuel with
  | O => VUndefined
  | S fuel' =>
      match h !! l with
      | None => VUndefined
      | Some o =>
          if is_array o && String.eqb k "length"
          then VNumber (Int (Z.of_N (array_length o)))
          else
            match lookup_prop k (props o) with
            | Some v => v
            | None =>
                match prototype o with
                | PObj p => get_from h fuel' p k
                | PBuiltin | PNull => VUndefined
                end
            end
      end
  end.

(** [arg[k]] for an object [arg]. *)
Definition js_get (h : heap) (arg : val) (k : string) : val :=
  match arg with
  | VObject l => get_from h (S (List.length h)) l k
  | _ => VUndefined
  end.

(** Does an assignment to [__proto__] that starts its walk at [l] end at
    the setter of [Object.prototype]? Not when an object on the way has a
    data property of that name, nor when the chain ends in [null]. *)
Fixpoint reaches_proto_setter (h : heap) (fuel : nat) (l : loc) : bool :=
  match fuel with
  | O => false
  | S fuel' =>
      match h !! l with
      | None => false
      | Some o =>
          if has_key "__proto__" (props o) then false
          else match prototype o with
               | PBuiltin => true
               | PNull => false
               | PObj p => reaches_proto_setter h fuel' p
               end
      end
  end.

(** An array grows with the definition of an element at or after its
    length. *)
Definition grow_length (k : string) (o : obj) : obj :=
  if is_array o then
    match array_index k with
    | Some i => with_length o (N.max (array_length o) (i + 1))
    | None => o
    end
  else o.

(** The object [o] after the assignment [o[k] = v], for every assignment
    but the one to the [length] of an array. Every property of the model
    is a writable data property, so the assignment creates or overwrites
    an own property, and an array grows with it; except that, for
    [__proto__], when the setter is reached, the setter changes the
    prototype for an object or [null], does nothing for any other value,
    and creates no own property. *)
Definition assigned (h : heap) (o : obj) (k : string) (v : val) : obj :=
  let setter :=
    String.eqb k "__proto__" &&
    negb (has_key "__proto__" (props o)) &&
    match prototype o with
    | PBuiltin => true
    | PNull => false
    | PObj p => reaches_proto_setter h (S (List.length h)) p
    end in
  if setter then
    match v with
    | VObject p => with_prototype o (PObj p)
    | VNull => with_prototype o PNull
    | _ => o
    end
  else grow_length k (with_props o (define_prop k v (props o))).

(** The conversion of a string or of an object to an array length:
    [Some n] when [ToNumber] of the value is the integer [n] below
    [2^32], [None] when it is any other number, or when the object
    cannot be converted. [ToNumber] parses a string, rounding it to a
    number in a way that the language leaves open in part, and calls
    [valueOf] and [toString] on an object. *)
Class LengthConversion := length_of : heap -> val -> option N.

(** The value assigned to the [length] of an array, as an array length:
    [ToUint32(v)] when it is the same number as [ToNumber(v)], [None]
    when the assignment throws. *)
Definition to_array_length `{LengthConversion} (h : heap) (v : val)
  : option N :=
  match v with
  | VUndefined => None
  | VNull => Some 0%N
  | VBool b => Some (if b then 1%N else 0%N)
  | VNumber NaN => None
  | VNumber (Int z) =>
      if (0 <=? z) && (z <? 4294967296) then Some (Z.to_N z) else None
  | VString _ | VObject _ => length_of h v
  end.

(** The properties that remain when the length of an array becomes [n]:
    the elements from the index [n] on are removed. *)
Definition truncate (n : N) (ps : list (string * val))
  : list (string * val) :=
  List.filter (fun e => match array_index (fst e) with
                        | Some i => (i <? n)%N
                        | None => true
                        end) ps.

(** The array [o] after its length is set to [n]. *)
Definition set_length (o : obj) (n : N) : obj :=
  if (array_length o <=? n)%N then with_length o n
  else mkObj (is_array o) (prototype o) (truncate n (props o)) n.

(** [o[k] = v] on an object [o] that is not yet reachable from the heap
    (the clone under construction). The assignment to the [length] of an
    array converts the value to a number and sets the length, removing
    the elements from that index on, or throws a [RangeError] when the
    number is no array length. *)
Definition set_prop `{LengthConversion} (h : heap) (o : obj) (k : string)
    (v : val) : option obj :=
  if is_array o && String.eqb k "length" then
    match to_array_length h v with
    | Some n => Some (set_length o n)
    | None => None
    end
  else Some (assigned h o k v).

(** The characters of a string as index-keyed entries, from index [i]. *)
Fixpoint string_entries (i : nat) (s : string) : list (string * val) :=
  match s with
  | EmptyString => []
  | String c r => (index_key i, VString (String c EmptyString)) :: string_entries (S i) r
  end.

(** The own enumerable properties that a spread [...v] copies: those of
    an object, the characters of a string, none for the other primitives. *)
Definition spread_entries (h : heap) (v : val) : list (string * val) :=
  match v with
  | VObject _ => entries h v
  | VString s => string_entries 0 s
  | _ => []
  end.

(** An object literal [{ k1: v1, ..., ...rest }]: the properties are
    defined from left to right, a later one overwriting an earlier one of
    the same key. *)
Definition object_literal (es : list (string * val)) : obj :=
  mkObj false PBuiltin (define_all es []) 0.

(** [delete l[k]] *)
Definition heap_delete (l : loc) (k : string) (h : heap) : heap :=
  alter (fun o => with_props o (delete_prop k (props o))) l h.

(** ** The encoder: [createObjectEncoder] *)

(** [typeTag.value : string | number | null] *)
Inductive tag_value :=
| TagString (s : string)
| TagNumber (n : number)
| TagNull.

Definition val_of_tag (t : tag_value) : val :=
  match t with
  | TagString s => VString s
  | TagNumber n => VNumber n
  | TagNull => VNull
  end.

Record TypeTag := mkTypeTag {
  key : string;
  value : tag_value;
  escapeCharacter : string
}.

(** The caller's functions run on the heap: [isSource] reads it, the two
    converters may also allocate in it. *)
Record EncoderOptions := mkEncoderOptions {
  typeTag : TypeTag;
  isSource : heap -> val -> bool;
  toPlainObject : val -> heap -> val * heap;
  fromPlainObject : val -> heap -> val * heap
}.

Section Encoder.

Context {js : LengthConversion}.
Context (options : EncoderOptions).

Let key := key (typeTag options).
Let value := val_of_tag (value (typeTag options)).
Let escapeCharacter := escapeCharacter (typeTag options).

(** The loop of [getEscapeCharCount], from index [i] for [n] more rounds:
    [false] when it returns [-1] early, [true] when it runs to its end. *)
Fixpoint escape_loop (str : string) (i : nat) (n : nat) : bool :=
  match n with
  | O => true
  | S n' =>
      if JsString.at_index_differs str i escapeCharacter then false
      else escape_loop str (S i) n'
  end.

Definition getEscapeCharCount (str : string) : Z :=
  let count := JsString.len str - JsString.len key in
  if 0 <=? count then
    if String.eqb (JsString.slice (- JsString.len key) str) key then
      if escape_loop str 0 (Z.to_nat count) then count else -1
    else -1
  else -1.

Definition prependEscapeChar (str : string) : string :=
  if getEscapeCharCount str =? -1 then str
  else String.append escapeCharacter str.

Definition removePrependedEscapeChar (str : string) : string :=
  if 0 <? getEscapeCharCount str then JsString.slice 1 str else str.

(** The body of the [for ... of Object.entries(arg)] loop, over the
    entries that remain; the state is the clone and [containsEscapedKey].
    [None] when an assignment throws. *)
Fixpoint replace_loop (h : heap) (replaceKey : string -> string)
    (es : list (string * val)) (clone : obj) (containsEscapedKey : bool)
  : option (obj * bool) :=
  match es with
  | [] => Some (clone, containsEscapedKey)
  | (k, v) :: es' =>
      let escapedKey := replaceKey k in
      match set_prop h clone escapedKey v with
      | None => None
      | Some clone' =>
          replace_loop h replaceKey es' clone'
            (if negb (String.eqb escapedKey k) then true
             else containsEscapedKey)
      end
  end.

(** The clone is reachable from nowhere until it is returned: it is built
    as a local object and enters the heap when [replaceObjectKey] returns
    it. *)
Definition replaceObjectKey (arg : val) (replaceKey : string -> string)
    (h : heap) : option (val * heap) :=
  if negb (is_object arg) then Some (arg, h)
  else
    let clone := mkObj (isArray h arg) PBuiltin [] 0 in
    match replace_loop h replaceKey (entries h arg) clone false with
    | None => None
    | Some (clone', containsEscapedKey) =>
        if containsEscapedKey then
          let '(l, h') := alloc clone' h in Some (VObject l, h')
        else Some (arg, h)
    end.

Definition encode (arg : val) (h : heap) : option (val * heap) :=
  let isSourceType := isSource options h arg in
  let '(converted, h1) :=
    if isSourceType then toPlainObject options arg h else (arg, h) in
  match replaceObjectKey converted prependEscapeChar h1 with
  | None => None
  | Some (escaped, h2) =>
      if isSourceType then
        let '(l, h3) :=
          alloc (object_literal ((key, value) :: spread_entries h2 escaped))
                h2 in
        Some (VObject l, h3)
      else Some (escaped, h2)
  end.

Definition decode (arg : val) (h : heap) : option (val * heap) :=
  if negb (is_object arg) then Some (arg, h)
  else
    let isTargetType := strict_eq (js_get h arg key) value in
    let '(arg1, h1) :=
      if isTargetType then
        let '(l, h') := alloc (object_literal (spread_entries h arg)) h in
        (VObject l, heap_delete l key h')
      else (arg, h) in
    match replaceObjectKey arg1 removePrependedEscapeChar h1 with
    | None => None
    | Some (unescaped, h2) =>
        if isTargetType then Some (fromPlainObject options unescaped h2)
        else Some (unescaped, h2)
    end.

(** The encoder that [createObjectEncoder] returns: its two functions. *)
Definition createObjectEncoder
  : (val -> heap -> option (val * heap))
    * (val -> heap -> option (val * heap)) :=
  (encode, decode).

End Encoder.

(** ** The tag shape, in the words of the specification

    A key [k] is tag-shaped when [n = k.length - key.length] is not
    negative, the trailing substring of [k] of length [key.length] is
    [key], and each of the [n] characters before it is [escapeChar]. *)

Definition trailing (n : nat) (k : string) : string :=
  String.substring (String.length k - n) n k.

Definition is_escape_at (esc k : string) (i : nat) : bool :=
  match JsString.at_index k i with
  | Some c => String.eqb c esc
  | None => false
  end.

Definition shape_count (key k : string) : Z :=
  JsString.len k - JsString.len key.

Definition tag_shaped (key esc k : string) : bool :=
  (0 <=? shape_count key k)
  && String.eqb (trailing (String.length key) k) key
  && forallb (is_escape_at esc k) (seq 0 (Z.to_nat (shape_count key k))).

(** The shape that unescaping looks for: the same with [n > 0]. *)
Definition escaped_shaped (key esc k : string) : bool :=
  (0 <? shape_count key k) && tag_shaped key esc k.


(** ** Configurations used in the examples *)

(** An encoder with no source values: [isSource] rejects everything and
    the converters are never called. *)
Definition plainOptions (t : TypeTag) : EncoderOptions :=
  mkEncoderOptions t (fun _ _ => false) (fun v h => (v, h)) (fun v h => (v, h)).

(** The tag of the demonstration script. *)
Definition demoTag : TypeTag := mkTypeTag "$type" (TagString "Error") "_".

(** A tag whose key is the empty string. *)
Definition emptyKeyTag : TypeTag := mkTypeTag "" (TagString "Error") "_".

(** [v instanceof C], for a class [C] whose prototype object is at [cls]
    and that has no subclass. *)
Definition instanceOf (cls : loc) (h : heap) (v : val) : bool :=
  match v with
  | VObject l =>
      match h !! l with
      | Some o =>
          match prototype o with
          | PObj p => Nat.eqb p cls
          | PBuiltin | PNull => false
          end
      | None => false
      end
  | _ => false
  end.

(** An encoder for a class [Box] with the fields [w] and [h], in the
    manner of the demonstration script:
    [toPlainObject(b) = { w: b.w, h: b.h }] and
    [fromPlainObject(p) = new Box(p.w, p.h)]. The prototype object of the
    class is at location [0]. *)
Definition boxToPlain (b : val) (h : heap) : val * heap :=
  let '(l, h') :=
    alloc (object_literal [("w", js_get h b "w"); ("h", js_get h b "h")]) h in
  (VObject l, h').

Definition boxFromPlain (p : val) (h : heap) : val * heap :=
  let '(l, h') :=
    alloc (mkObj false (PObj 0%nat)
             (define_all [("w", js_get h p "w"); ("h", js_get h p "h")] [])
             0)
          h in
  (VObject l, h').

Definition boxOptions : EncoderOptions :=
  mkEncoderOptions demoTag (instanceOf 0%nat) boxToPlain boxFromPlain.

(** A heap with the prototype object of [Box] and one box. *)
Definition boxHeap : heap :=
  [ mkObj false PBuiltin [] 0;
    mkObj false (PObj 0%nat)
      [("w", VNumber (Int 3)); ("h", VNumber (Int 4))] 0 ].

(** A conversion that makes no string and no object an array length. *)
Definition no_length : LengthConversion := fun _ _ => None.

(** A plain object holding the given properties. *)
Definition plain (ps : list (string * val)) : obj :=
  mkObj false PBuiltin ps 0.

(** ** Vocabulary of the statements *)

(** The clone after the loop of [replaceObjectKey] over the entries [es],
    when no assignment is to the [length] of an array. *)
Fixpoint loop_clone (h : heap) (f : string -> string)
    (es : list (string * val)) (clone : obj) : obj :=
  match es with
  | [] => clone
  | (k, v) :: es' => loop_clone h f es' (assigned h clone (f k) v)
  end.

(** Is a key of [es] renamed to [length]? *)
Definition to_length (f : string -> string) (es : list (string * val)) : bool :=
  existsb (fun e => String.eqb (f (fst e)) "length") es.

(** The length of an array of length [n] after the definition of the
    entries [es]. *)
Definition grown_length (n : N) (es : list (string * val)) : N :=
  fold_left (fun n e => match array_index (fst e) with
                        | Some i => N.max n (i + 1)
                        | None => n
                        end) es n.

(** The entries [es] under renamed keys. *)
Definition renamed (f : string -> string) (es : list (string * val))
  : list (string * val) :=
  map (fun e => (f (fst e), snd e)) es.

(** Does [f] change one of the keys of [es]? *)
Definition changes (f : string -> string) (es : list (string * val)) : bool :=
  existsb (fun e => negb (String.eqb (f (fst e)) (fst e))) es.

(** [h'] is [h] with new objects after it: every object of [h] is where
    it was and what it was. *)
Definition extends (h h' : heap) : Prop := exists ext, h' = h ++ ext.

(** The same fields: each key reads the same in both property lists. *)
Definition same_fields (ps qs : list (string * val)) : Prop :=
  forall k, lookup_prop k ps = lookup_prop k qs.

(** A converter of the caller that leaves the objects of the heap as they
    are: it may read them and allocate new ones. *)
Definition allocates_only (f : val -> heap -> val * heap) : Prop :=
  forall v h, extends h (snd (f v h)).

(** A converter of the caller that returns an object it has allocated. *)
Definition returns_fresh (f : val -> heap -> val * heap) : Prop :=
  forall v h, exists l,
    fst (f v h) = VObject l
    /\ (List.length h <= l < List.length (snd (f v h)))%nat.

(** [v] is an object allocated after [h], in [h']. *)
Definition fresh_in (h h' : heap) (v : val) : Prop :=
  exists l, v = VObject l /\ (List.length h <= l < List.length h')%nat.

(** The tag test of [decode]: [arg[key] === value]. *)
Definition is_tagged (options : EncoderOptions) (h : heap) (arg : val) : bool :=
  strict_eq (js_get h arg (key (typeTag options)))
            (val_of_tag (value (typeTag options))).

(** The own property [k] of an object; an array has its [length]. *)
Definition own_get (o : obj) (k : string) : option val :=
  if is_array o && String.eqb k "length"
  then Some (VNumber (Int (Z.of_N (array_length o))))
  else lookup_prop k (props o).

(** The property lookup in the words of the language: on the prototype
    chain of [l], the first object with an own property [k] is [n] steps
    up, and the property has the value [v]. *)
Inductive found_at (h : heap) (k : string) : nat -> loc -> val -> Prop :=
| found_own (l : loc) (o : obj) (v : val) :
    h !! l = Some o -> own_get o k = Some v -> found_at h k 0 l v
| found_up (n : nat) (l : loc) (o : obj) (p : loc) (v : val) :
    h !! l = Some o -> own_get o k = None -> prototype o = PObj p ->
    found_at h k n p v -> found_at h k (S n) l v.

(** The same options with another [fromPlainObject]. *)
Definition withFromPlainObject (options : EncoderOptions)
    (f : val -> heap -> val * heap) : EncoderOptions :=
  mkEncoderOptions (typeTag options) (isSource options)
    (toPlainObject options) f.

(** The object has an own entry whose key is the key of the tag and whose
    value is strictly equal to the value of the tag. *)
Definition own_tagged (options : EncoderOptions) (h : heap) (v : val) : bool :=
  match lookup_prop (key (typeTag options)) (entries h v) with
  | Some x => strict_eq x (val_of_tag (value (typeTag options)))
  | None => false
  end.

(** A heap with an object [{ $type: "Error" }] and an object [{ w: 3 }]
    that has the first one as its prototype. *)
Definition inheritedTagHeap : heap :=
  [ plain [("$type", VString "Error")];
    mkObj false (PObj 0%nat) [("w", VNumber (Int 3))] 0 ].

(** An encoder for which every value is a source value and whose plain
    form is always [p]. *)
Definition constOptions (t : TypeTag) (p : val) : EncoderOptions :=
  mkEncoderOptions t (fun _ _ => true) (fun _ h => (p, h)) (fun v h => (v, h)).

(** The entries are in enumeration order: no entry goes before an
    earlier one. *)
Fixpoint ordered (ps : list (string * val)) : bool :=
  match ps with
  | [] => true
  | (k, _) :: r =>
      forallb (fun e => negb (goes_before (fst e) k)) r && ordered r
  end.

(** The renaming [f] of the entries [es] is clean: distinct keys stay
    distinct and none becomes [__proto__]. *)
Definition renames_cleanly (f : string -> string) (es : list (string * val))
  : Prop :=
  (forall k1 k2, In k1 (keys es) -> In k2 (keys es) -> f k1 = f k2 -> k1 = k2)
  /\ forall k, In k (keys es) -> f k <> "__proto__".

(** The length of an array without a hole after its last element: one
    more than its greatest index, [0] without an index. *)
Definition dense_length (ps : list (string * val)) : N :=
  grown_length 0 ps.

(** An array holding the given properties, dense at its end. *)
Definition array (ps : list (string * val)) : obj :=
  mkObj true PBuiltin ps (dense_length ps).

(** Is the value of the tag [NaN], which no value is strictly equal to? *)
Definition tag_is_NaN (t : TypeTag) : bool :=
  match value t with
  | TagNumber NaN => true
  | _ => false
  end.

(** Observational equality of [v1] in [h1] and [v2] in [h2], field by
    field: the same primitive, or two objects of the same kind, with the
    same length, the same prototype and the same fields. *)
Definition obs_eq (h1 : heap) (v1 : val) (h2 : heap) (v2 : val) : Prop :=
  match v1, v2 with
  | VObject l1, VObject l2 =>
      match h1 !! l1, h2 !! l2 with
      | Some o1, Some o2 =>
          is_array o1 = is_array o2
          /\ array_length o1 = array_length o2
          /\ prototype o1 = prototype o2
          /\ same_fields (props o1) (props o2)
      | _, _ => False
      end
  | VObject _, _ | _, VObject _ => False
  | _, _ => v1 = v2
  end.

(** An encoder for a class [Celsius] with the field [deg], whose plain
    form is the number itself: [toPlainObject(c) = c.deg] and
    [fromPlainObject(n) = new Celsius(n)]. The prototype object of the
    class is at location [0]. *)
Definition celsiusToPlain (c : val) (h : heap) : val * heap :=
  (js_get h c "deg", h).

Definition celsiusFromPlain (n : val) (h : heap) : val * heap :=
  let '(l, h') := alloc (mkObj false (PObj 0%nat) [("deg", n)] 0) h in
  (VObject l, h').

Definition celsiusOptions : EncoderOptions :=
  mkEncoderOptions demoTag (instanceOf 0%nat) celsiusToPlain celsiusFromPlain.

(** A heap with the prototype object of [Celsius] and one instance. *)
Definition celsiusHeap : heap :=
  [ mkObj false PBuiltin [] 0;
    mkObj false (PObj 0%nat) [("deg", VNumber (Int 20))] 0 ].

(** ** Vocabulary of the further properties *)

(** [n] copies of the character [c]. *)
Fixpoint escapes (c : ascii) (n : nat) : string :=
  match n with
  | O => EmptyString
  | S n' => String c (escapes c n')
  end.

(** Is the string made of exactly one character? *)
Definition single_char (s : string) : bool :=
  match s with
  | String _ EmptyString => true
  | _ => false
  end.

(** * Properties

    They hold for every conversion of a string or of an object to an
    array length. *)

Section Engine.

Context {js : LengthConversion}.

(** ** Strings *)

Lemma substring_whole (s : string) :
  String.substring 0 (String.length s) s = s.
Proof. induction s as [|c s IH]; simpl; [reflexivity | now rewrite IH]. Qed.

Lemma substring_skip (p s : string) (m : nat) :
  String.substring (String.length p) m (String.append p s)
  = String.substring 0 m s.
Proof. induction p as [|c p IH]; simpl; [reflexivity | exact IH]. Qed.

Lemma length_append (p s : string) :
  String.length (String.append p s) = (String.length p + String.length s)%nat.
Proof. induction p as [|c p IH]; simpl; [reflexivity | now rewrite IH]. Qed.

Lemma append_cons (c : ascii) (p s : string) :
  String.append (String c p) s = String c (String.append p s).
Proof. reflexivity. Qed.

(** Every string splits at every position within its length. *)
Lemma split_at (s : string) (n : nat) :
  (n <= String.length s)%nat ->
  exists p q, s = String.append p q /\ String.length p = n.
Proof.
  revert n; induction s as [|c s IH]; intros n Hn.
  - exists EmptyString, EmptyString. simpl in *. split; [reflexivity | lia].
  - destruct n as [|n].
    + exists EmptyString, (String c s). now split.
    + simpl in Hn. destruct (IH n) as (p & q & -> & Hp); [lia|].
      exists (String c p), q. simpl. split; [reflexivity | now rewrite Hp].
Qed.

Lemma slice_one_cons (c : ascii) (s : string) :
  JsString.slice 1 (String c s) = s.
Proof.
  unfold JsString.slice, JsString.len.
  change (1 <? 0) with false. cbv iota.
  replace (Z.min 1 (Z.of_nat (String.length (String c s)))) with 1
    by (simpl String.length; lia).
  replace (Z.to_nat (Z.of_nat (String.length (String c s)) - 1))
    with (String.length s) by (simpl String.length; lia).
  change (Z.to_nat 1) with 1%nat. simpl. apply substring_whole.
Qed.

(** A negative start within the length selects the trailing substring. *)
Lemma slice_trailing (p q : string) :
  q <> EmptyString ->
  JsString.slice (- JsString.len q) (String.append p q) = q.
Proof.
  intros Hq. unfold JsString.slice, JsString.len.
  assert (0 < String.length q)%nat by (destruct q; [congruence | simpl; lia]).
  rewrite length_append.
  destruct (Z.ltb_spec (- Z.of_nat (String.length q)) 0) as [_|?]; [|lia].
  replace (Z.to_nat (Z.max (Z.of_nat (String.length p + String.length q)
                            + - Z.of_nat (String.length q)) 0))
    with (String.length p) by lia.
  replace (Z.to_nat (Z.of_nat (String.length p + String.length q)
                     - Z.max (Z.of_nat (String.length p + String.length q)
                              + - Z.of_nat (String.length q)) 0))
    with (String.length q) by lia.
  rewrite substring_skip. apply substring_whole.
Qed.

(** With start [-0] the slice is the whole string. *)
Lemma slice_zero (s : string) : JsString.slice 0 s = s.
Proof.
  unfold JsString.slice, JsString.len. change (0 <? 0) with false. cbv iota.
  replace (Z.min 0 (Z.of_nat (String.length s))) with 0 by lia.
  rewrite Z.sub_0_r, Nat2Z.id. apply substring_whole.
Qed.

(** ** The escape count *)

Section KeyFacts.

Context (options : EncoderOptions).

Let key := key (typeTag options).
Let escapeCharacter := escapeCharacter (typeTag options).

Lemma escape_loop_forallb (str : string) (i n : nat) :
  escape_loop options str i n
  = forallb (is_escape_at escapeCharacter str) (seq i n).
Proof.
  revert i; induction n as [|n IH]; intros i; [reflexivity|].
  simpl. rewrite IH. unfold JsString.at_index_differs, is_escape_at.
  destruct (JsString.at_index str i) as [c|]; [|reflexivity].
  fold escapeCharacter.
  now destruct (String.eqb c escapeCharacter).
Qed.

(** For a key that is not empty, [getEscapeCharCount] computes the shape
    of the specification: the count [n] for a tag-shaped key, [-1] for
    any other. *)
Lemma getEscapeCharCount_shape (str : string) :
  key <> EmptyString ->
  getEscapeCharCount options str
  = if tag_shaped key escapeCharacter str then shape_count key str else -1.
Proof.
  intros Hkey. unfold getEscapeCharCount, tag_shaped, shape_count.
  fold key. fold escapeCharacter.
  destruct (Z.leb_spec 0 (JsString.len str - JsString.len key)) as [Hn|Hn];
    [|reflexivity].
  unfold JsString.len in Hn.
  destruct (split_at str (String.length str - String.length key))
    as (p & q & -> & Hp); [lia|].
  rewrite length_append in Hp, Hn.
  assert (Hq : String.length q = String.length key) by lia.
  assert (Hqne : q <> EmptyString).
  { intros ->. destruct key; [congruence | simpl in Hq; lia]. }
  replace (JsString.len key) with (JsString.len q)
    by (unfold JsString.len; now rewrite Hq).
  rewrite slice_trailing by exact Hqne.
  unfold trailing. rewrite length_append.
  replace (String.length p + String.length q - String.length key)%nat
    with (String.length p) by lia.
  rewrite <- Hq, substring_skip, substring_whole.
  simpl. rewrite escape_loop_forallb.
  destruct (String.eqb q key); [|reflexivity].
  now destruct (forallb _ _).
Qed.

(** Whatever the key, a count other than [-1] is returned for tag-shaped
    keys only. *)
Lemma getEscapeCharCount_shaped (str : string) :
  getEscapeCharCount options str <> -1 ->
  tag_shaped key escapeCharacter str = true
  /\ getEscapeCharCount options str = shape_count key str.
Proof.
  destruct (String.eqb_spec key EmptyString) as [Hk|Hk].
  - unfold getEscapeCharCount, tag_shaped, shape_count. fold key.
    rewrite Hk. change (- JsString.len EmptyString) with 0.
    rewrite slice_zero. unfold JsString.len. simpl String.length.
    rewrite Z.sub_0_r.
    destruct (Z.leb_spec 0 (Z.of_nat (String.length str))); [|congruence].
    destruct (String.eqb_spec str EmptyString) as [->|]; [|congruence].
    intros _. now split.
  - rewrite getEscapeCharCount_shape by exact Hk.
    destruct (tag_shaped key escapeCharacter str); [now split | congruence].
Qed.

Lemma tag_shaped_count (str : string) :
  tag_shaped key escapeCharacter str = true -> 0 <= shape_count key str.
Proof.
  unfold tag_shaped. intros H.
  apply andb_prop in H as [H _]. apply andb_prop in H as [H _]. lia.
Qed.

(** Escaping, for a key that is not empty: [escapeChar + k] for a
    tag-shaped [k], [k] itself for any other. *)
Lemma prependEscapeChar_shape (k : string) :
  key <> EmptyString ->
  prependEscapeChar options k
  = if tag_shaped key escapeCharacter k
    then String.append escapeCharacter k else k.
Proof.
  intros Hkey. unfold prependEscapeChar.
  rewrite getEscapeCharCount_shape by exact Hkey. fold escapeCharacter.
  destruct (tag_shaped key escapeCharacter k) eqn:Hs; [|reflexivity].
  apply tag_shaped_count in Hs.
  destruct (Z.eqb_spec (shape_count key k) (-1)); [lia | reflexivity].
Qed.

(** Unescaping, for a key that is not empty: [k.slice(1)] for a key of
    the escaped shape, [k] itself for any other. *)
Lemma removePrependedEscapeChar_shape (k : string) :
  key <> EmptyString ->
  removePrependedEscapeChar options k
  = if escaped_shaped key escapeCharacter k then JsString.slice 1 k else k.
Proof.
  intros Hkey. unfold removePrependedEscapeChar, escaped_shaped.
  rewrite getEscapeCharCount_shape by exact Hkey.
  destruct (tag_shaped key escapeCharacter k) eqn:Hs.
  - now rewrite andb_true_r.
  - now rewrite andb_false_r.
Qed.

(** Keys that are not tag-shaped pass both ways unchanged, whatever the
    key of the tag. *)
Lemma prependEscapeChar_other (k : string) :
  tag_shaped key escapeCharacter k = false ->
  prependEscapeChar options k = k.
Proof.
  intros Hs. unfold prependEscapeChar.
  destruct (Z.eqb_spec (getEscapeCharCount options k) (-1)) as [|Hne];
    [reflexivity|].
  apply getEscapeCharCount_shaped in Hne as [Hne _]. congruence.
Qed.

Lemma removePrependedEscapeChar_other (k : string) :
  escaped_shaped key escapeCharacter k = false ->
  removePrependedEscapeChar options k = k.
Proof.
  intros Hs. unfold removePrependedEscapeChar.
  destruct (Z.ltb_spec 0 (getEscapeCharCount options k)) as [Hlt|];
    [|reflexivity].
  destruct (getEscapeCharCount_shaped k) as [Ht Hc]; [lia|].
  unfold escaped_shaped in Hs. rewrite Ht, andb_true_r in Hs.
  rewrite Hc in Hlt. destruct (Z.ltb_spec 0 (shape_count key k)); [congruence | lia].
Qed.

(** A key of the escaped shape starts with the escape character, which
    is then a single character. *)
Lemma escaped_shaped_head (k : string) :
  escaped_shaped key escapeCharacter k = true ->
  exists c k', escapeCharacter = String c EmptyString /\ k = String c k'.
Proof.
  unfold escaped_shaped, tag_shaped. intros H.
  apply andb_prop in H as [Hn H]. apply andb_prop in H as [_ Hall].
  destruct (Z.to_nat (shape_count key k)) as [|n] eqn:En; [lia|].
  simpl in Hall. apply andb_prop in Hall as [H0 _].
  unfold is_escape_at, JsString.at_index in H0.
  destruct k as [|c k']; [discriminate|].
  change (String.eqb (String c EmptyString) escapeCharacter = true) in H0.
  apply String.eqb_eq in H0. now exists c, k'.
Qed.

(** Unescaping a key of the escaped shape strips exactly one leading
    escape character. *)
Lemma removePrependedEscapeChar_strips (k : string) :
  key <> EmptyString ->
  escaped_shaped key escapeCharacter k = true ->
  String.append escapeCharacter (removePrependedEscapeChar options k) = k.
Proof.
  intros Hkey Hs. rewrite removePrependedEscapeChar_shape by exact Hkey.
  rewrite Hs. destruct (escaped_shaped_head k Hs) as (c & k' & -> & ->).
  now rewrite slice_one_cons.
Qed.

Lemma is_escape_at_cons (c : ascii) (esc k : string) (i : nat) :
  is_escape_at esc (String c k) (S i) = is_escape_at esc k i.
Proof. reflexivity. Qed.

Lemma is_escape_at_shift (c : ascii) (esc k : string) (i n : nat) :
  forallb (is_escape_at esc (String c k)) (seq (S i) n)
  = forallb (is_escape_at esc k) (seq i n).
Proof.
  revert i; induction n as [|n IH]; intros i; [reflexivity|].
  simpl. now rewrite IH.
Qed.

Lemma tag_shaped_key : tag_shaped key escapeCharacter key = true.
Proof.
  unfold tag_shaped, shape_count, trailing.
  rewrite Z.sub_diag, Nat.sub_diag, substring_whole, String.eqb_refl.
  reflexivity.
Qed.

Section SingleEscape.

Context (c : ascii).
Hypothesis escape_single : escapeCharacter = String c EmptyString.

(** One more escape character in front of a tag-shaped key gives a key
    of the escaped shape. *)
Lemma tag_shaped_prepend (k : string) :
  tag_shaped key escapeCharacter k = true ->
  escaped_shaped key escapeCharacter (String c k) = true.
Proof.
  intros Hs. pose proof (tag_shaped_count k Hs) as Hn.
  unfold escaped_shaped, tag_shaped, shape_count, trailing, JsString.len in *.
  apply andb_prop in Hs as [Hs Hall]. apply andb_prop in Hs as [_ Ht].
  simpl String.length.
  replace (S (String.length k) - String.length key)%nat
    with (S (String.length k - String.length key)) by lia.
  simpl String.substring. rewrite Ht.
  replace (Z.to_nat (Z.of_nat (S (String.length k))
                     - Z.of_nat (String.length key)))
    with (S (Z.to_nat (Z.of_nat (String.length k)
                       - Z.of_nat (String.length key)))) by lia.
  rewrite <- cons_seq. simpl forallb.
  rewrite is_escape_at_shift, Hall.
  unfold is_escape_at, JsString.at_index. simpl String.get.
  rewrite escape_single, String.eqb_refl.
  destruct (Z.ltb_spec 0 (Z.of_nat (S (String.length k))
                          - Z.of_nat (String.length key))); [|lia].
  destruct (Z.leb_spec 0 (Z.of_nat (S (String.length k))
                          - Z.of_nat (String.length key))); [|lia].
  reflexivity.
Qed.

(** Unescaping undoes escaping, key by key. *)
Lemma remove_prepend (k : string) :
  key <> EmptyString ->
  removePrependedEscapeChar options (prependEscapeChar options k) = k.
Proof.
  intros Hkey. rewrite prependEscapeChar_shape by exact Hkey.
  destruct (tag_shaped key escapeCharacter k) eqn:Hs.
  - rewrite escape_single, append_cons.
    change (String.append EmptyString k) with k.
    rewrite removePrependedEscapeChar_shape by exact Hkey.
    rewrite tag_shaped_prepend by exact Hs. apply slice_one_cons.
  - apply removePrependedEscapeChar_other.
    unfold escaped_shaped. now rewrite Hs, andb_false_r.
Qed.

Lemma prependEscapeChar_inj (k1 k2 : string) :
  key <> EmptyString ->
  prependEscapeChar options k1 = prependEscapeChar options k2 -> k1 = k2.
Proof.
  intros Hkey H.
  rewrite <- (remove_prepend k1 Hkey), <- (remove_prepend k2 Hkey).
  now rewrite H.
Qed.

(** An escaped key is never the key of the tag. *)
Lemma prependEscapeChar_not_key (k : string) :
  key <> EmptyString ->
  prependEscapeChar options k <> key.
Proof.
  intros Hkey. rewrite prependEscapeChar_shape by exact Hkey.
  destruct (tag_shaped key escapeCharacter k) eqn:Hs.
  - apply tag_shaped_count in Hs. unfold shape_count, JsString.len in Hs.
    intros E. apply (f_equal String.length) in E.
    rewrite length_append, escape_single in E. simpl in E. lia.
  - intros ->. rewrite tag_shaped_key in Hs. discriminate.
Qed.

End SingleEscape.

End KeyFacts.

(** ** Escaping and unescaping of keys (claims C3 and C4) *)

(** The demonstration tag: [$type] is escaped to [_$type], [_$type] to
    [__$type]; one unescaping takes [__$type] back to [_$type] and
    [_$type] to [$type], and leaves [$type] alone. *)
Example escaping_depth_demo :
  let o := plainOptions demoTag in
  prependEscapeChar o "$type" = "_$type"
  /\ prependEscapeChar o "_$type" = "__$type"
  /\ prependEscapeChar o "age" = "age"
  /\ removePrependedEscapeChar o "__$type" = "_$type"
  /\ removePrependedEscapeChar o "_$type" = "$type"
  /\ removePrependedEscapeChar o "$type" = "$type".
Proof. repeat split. Qed.

(** C3, at the tag key [""]: the key ["_"] is tag-shaped in the words of
    the specification (one escape character followed by the empty key),
    yet [encode] leaves it unescaped, because [str.slice(-0)] is the whole
    string and not its empty trailing substring. The key [""] is escaped
    to ["_"], so that the object with the keys [""] and ["_"] loses the
    value of the first one. *)
Theorem C3_empty_key_unescaped :
  let o := plainOptions emptyKeyTag in
  let one := VNumber (Int 1) in
  let two := VNumber (Int 2) in
  tag_shaped "" "_" "_" = true
  /\ getEscapeCharCount o "_" = -1
  /\ prependEscapeChar o "_" = "_"
  /\ encode o (VObject 0%nat) [plain [("_", two)]]
     = Some (VObject 0%nat, [plain [("_", two)]])
  /\ encode o (VObject 0%nat) [plain [("", one); ("_", two)]]
     = Some (VObject 1%nat,
             [plain [("", one); ("_", two)]; plain [("_", two)]]).
Proof. repeat split. Qed.

(** C4, at the tag key [""]: the key ["_"] has the escaped shape in the
    words of the specification ([n = 1 > 0], an empty trailing substring,
    one leading escape character), yet [decode] strips nothing from it,
    for the same reason as in C3. *)
Theorem C4_empty_key_not_stripped :
  let o := plainOptions emptyKeyTag in
  let two := VNumber (Int 2) in
  escaped_shaped "" "_" "_" = true
  /\ getEscapeCharCount o "_" = -1
  /\ removePrependedEscapeChar o "_" = "_"
  /\ decode o (VObject 0%nat) [plain [("_", two)]]
     = Some (VObject 0%nat, [plain [("_", two)]]).
Proof. repeat split. Qed.

(** ** Property lists *)

Lemma lookup_prop_None (k : string) (ps : list (string * val)) :
  lookup_prop k ps = None <-> ~ In k (keys ps).
Proof.
  induction ps as [|[k' v] ps IH]; simpl; [tauto|].
  destruct (String.eqb_spec k' k) as [->|Hne].
  - split; [discriminate | tauto].
  - rewrite IH. tauto.
Qed.

Lemma lookup_prop_In (k : string) (v : val) (ps : list (string * val)) :
  lookup_prop k ps = Some v -> In (k, v) ps.
Proof.
  induction ps as [|[k' v'] ps IH]; simpl; [discriminate|].
  destruct (String.eqb_spec k' k) as [->|Hne].
  - intros [= ->]. now left.
  - auto.
Qed.

Lemma In_lookup_prop (k : string) (v : val) (ps : list (string * val)) :
  List.NoDup (keys ps) -> In (k, v) ps -> lookup_prop k ps = Some v.
Proof.
  induction ps as [|[k' v'] ps IH]; simpl; [tauto|].
  intros Hnd [[= -> ->]|Hin].
  - now rewrite String.eqb_refl.
  - inversion Hnd as [|? ? Hk' Hnd']; subst.
    destruct (String.eqb_spec k' k) as [->|Hne]; [|auto].
    exfalso. apply Hk'. change (In k (keys ps)).
    unfold keys. apply in_map_iff. now exists (k, v).
Qed.

Lemma has_key_In (k : string) (ps : list (string * val)) :
  has_key k ps = true <-> In k (keys ps).
Proof.
  unfold has_key. pose proof (lookup_prop_None k ps) as H.
  destruct (lookup_prop k ps).
  - split; [|reflexivity]. intros _.
    destruct (in_dec string_dec k (keys ps)) as [|Hn]; [assumption|].
    apply H in Hn. discriminate.
  - split; [discriminate|]. intros Hin. now apply H in Hin.
Qed.

Lemma lookup_update_prop (k k' : string) (v : val) (ps : list (string * val)) :
  In k (keys ps) ->
  lookup_prop k' (update_prop k v ps)
  = if String.eqb k k' then Some v else lookup_prop k' ps.
Proof.
  induction ps as [|[k0 v0] ps IH]; simpl; [tauto|].
  intros Hin. destruct (String.eqb_spec k0 k) as [->|Hne]; simpl.
  - now destruct (String.eqb_spec k k').
  - destruct Hin as [|Hin]; [congruence|].
    rewrite (IH Hin).
    destruct (String.eqb_spec k0 k') as [->|]; [|reflexivity].
    destruct (String.eqb_spec k k'); [congruence | reflexivity].
Qed.

Lemma lookup_insert_prop (k k' : string) (v : val) (ps : list (string * val)) :
  ~ In k (keys ps) ->
  lookup_prop k' (insert_prop k v ps)
  = if String.eqb k k' then Some v else lookup_prop k' ps.
Proof.
  induction ps as [|[k0 v0] ps IH]; simpl; intros Hnin.
  - now destruct (String.eqb k k').
  - destruct (goes_before k k0); simpl.
    + now destruct (String.eqb k k').
    + rewrite IH by tauto.
      destruct (String.eqb_spec k0 k') as [->|]; [|reflexivity].
      destruct (String.eqb_spec k k'); [subst; tauto | reflexivity].
Qed.

(** Reading after [o[k] = v]: the new value at [k], the old one
    elsewhere. *)
Lemma lookup_define_prop (k k' : string) (v : val) (ps : list (string * val)) :
  lookup_prop k' (define_prop k v ps)
  = if String.eqb k k' then Some v else lookup_prop k' ps.
Proof.
  unfold define_prop. destruct (has_key k ps) eqn:Hk.
  - apply lookup_update_prop. now apply has_key_In.
  - apply lookup_insert_prop. rewrite <- has_key_In. congruence.
Qed.

Lemma lookup_delete_prop (k k' : string) (ps : list (string * val)) :
  lookup_prop k' (delete_prop k ps)
  = if String.eqb k k' then None else lookup_prop k' ps.
Proof.
  induction ps as [|[k0 v0] ps IH]; simpl.
  - now destruct (String.eqb k k').
  - destruct (String.eqb_spec k0 k) as [->|Hne]; simpl; rewrite IH.
    + destruct (String.eqb_spec k k'); [reflexivity|].
      reflexivity.
    + destruct (String.eqb_spec k0 k') as [->|]; [|reflexivity].
      destruct (String.eqb_spec k k'); [congruence | reflexivity].
Qed.

Lemma keys_update_prop (k : string) (v : val) (ps : list (string * val)) :
  keys (update_prop k v ps) = keys ps.
Proof.
  induction ps as [|[k0 v0] ps IH]; simpl; [reflexivity|].
  destruct (String.eqb_spec k0 k) as [->|]; simpl; [reflexivity|].
  now rewrite IH.
Qed.

Lemma keys_insert_prop (k k' : string) (v : val) (ps : list (string * val)) :
  In k' (keys (insert_prop k v ps)) <-> k' = k \/ In k' (keys ps).
Proof.
  induction ps as [|[k0 v0] ps IH]; simpl.
  - intuition congruence.
  - destruct (goes_before k k0); simpl; [intuition congruence|].
    rewrite IH. intuition congruence.
Qed.

Lemma keys_define_prop (k k' : string) (v : val) (ps : list (string * val)) :
  In k' (keys (define_prop k v ps)) <-> k' = k \/ In k' (keys ps).
Proof.
  unfold define_prop. destruct (has_key k ps) eqn:Hk.
  - rewrite keys_update_prop. apply has_key_In in Hk.
    intuition congruence.
  - apply keys_insert_prop.
Qed.

Lemma NoDup_insert_prop (k : string) (v : val) (ps : list (string * val)) :
  ~ In k (keys ps) -> List.NoDup (keys ps) ->
  List.NoDup (keys (insert_prop k v ps)).
Proof.
  induction ps as [|[k0 v0] ps IH]; simpl; intros Hnin Hnd.
  - constructor; [tauto | constructor].
  - destruct (goes_before k k0); simpl.
    + constructor; [exact Hnin | exact Hnd].
    + inversion Hnd as [|? ? Hk0 Hnd']; subst.
      constructor; [|apply IH; tauto].
      change (~ In k0 (keys (insert_prop k v ps))).
      rewrite keys_insert_prop. intuition congruence.
Qed.

Lemma NoDup_define_prop (k : string) (v : val) (ps : list (string * val)) :
  List.NoDup (keys ps) -> List.NoDup (keys (define_prop k v ps)).
Proof.
  intros Hnd. unfold define_prop. destruct (has_key k ps) eqn:Hk.
  - now rewrite keys_update_prop.
  - apply NoDup_insert_prop; [|exact Hnd].
    rewrite <- has_key_In. congruence.
Qed.

Lemma keys_delete_prop (k k' : string) (ps : list (string * val)) :
  In k' (keys (delete_prop k ps)) <-> k' <> k /\ In k' (keys ps).
Proof.
  induction ps as [|[k0 v0] ps IH]; simpl; [tauto|].
  destruct (String.eqb_spec k0 k) as [->|Hne]; simpl; rewrite IH;
    intuition congruence.
Qed.

Lemma NoDup_delete_prop (k : string) (ps : list (string * val)) :
  List.NoDup (keys ps) -> List.NoDup (keys (delete_prop k ps)).
Proof.
  induction ps as [|[k0 v0] ps IH]; simpl; intros Hnd; [constructor|].
  inversion Hnd as [|? ? Hk0 Hnd']; subst.
  destruct (String.eqb_spec k0 k) as [->|Hne]; simpl; [auto|].
  constructor; [|auto].
  change (~ In k0 (keys (delete_prop k ps))).
  rewrite keys_delete_prop. tauto.
Qed.

Lemma NoDup_define_all (es ps : list (string * val)) :
  List.NoDup (keys ps) -> List.NoDup (keys (define_all es ps)).
Proof.
  revert ps; induction es as [|[k v] es IH]; intros ps Hnd; [exact Hnd|].
  apply IH. now apply NoDup_define_prop.
Qed.

Lemma keys_define_all (k : string) (es ps : list (string * val)) :
  In k (keys (define_all es ps)) <-> In k (keys es) \/ In k (keys ps).
Proof.
  revert ps; induction es as [|[k0 v0] es IH]; intros ps; simpl; [tauto|].
  change (define_all ((k0, v0) :: es) ps)
    with (define_all es (define_prop k0 v0 ps)).
  rewrite IH, keys_define_prop. intuition congruence.
Qed.

(** Reading after a run of definitions with distinct keys. *)
Lemma lookup_define_all (k : string) (es ps : list (string * val)) :
  List.NoDup (keys es) ->
  lookup_prop k (define_all es ps)
  = match lookup_prop k es with
    | Some v => Some v
    | None => lookup_prop k ps
    end.
Proof.
  revert ps; induction es as [|[k0 v0] es IH]; intros ps Hnd; [reflexivity|].
  inversion Hnd as [|? ? Hk0 Hnd']; subst.
  change (define_all ((k0, v0) :: es) ps)
    with (define_all es (define_prop k0 v0 ps)).
  rewrite IH by exact Hnd'. rewrite lookup_define_prop. simpl.
  destruct (String.eqb_spec k0 k) as [->|Hne]; [|reflexivity].
  apply lookup_prop_None in Hk0. now rewrite Hk0.
Qed.

(** ** The heap *)

Lemma lookup_alloc (h : heap) (o : obj) :
  (h ++ [o]) !! List.length h = Some o.
Proof. now rewrite list_lookup_middle. Qed.

Lemma extends_refl (h : heap) : extends h h.
Proof. exists []. now rewrite app_nil_r. Qed.

Lemma extends_trans (h1 h2 h3 : heap) :
  extends h1 h2 -> extends h2 h3 -> extends h1 h3.
Proof. intros [e1 ->] [e2 ->]. exists (e1 ++ e2). now rewrite app_assoc. Qed.

Lemma extends_alloc (h : heap) (o : obj) : extends h (h ++ [o]).
Proof. now exists [o]. Qed.

Lemma extends_length (h h' : heap) :
  extends h h' -> (List.length h <= List.length h')%nat.
Proof. intros [ext ->]. rewrite length_app. lia. Qed.

(** Deleting a property of the newest object leaves the rest alone. *)
Lemma heap_delete_last (h : heap) (o : obj) (k : string) :
  heap_delete (List.length h) k (h ++ [o])
  = h ++ [with_props o (delete_prop k (props o))].
Proof.
  unfold heap_delete.
  rewrite alter_app_r_alt by lia.
  now rewrite Nat.sub_diag.
Qed.

(** ** [replaceObjectKey] *)

Lemma grow_length_is_array (k : string) (o : obj) :
  is_array (grow_length k o) = is_array o.
Proof.
  unfold grow_length. destruct (is_array o) eqn:E; [|exact E].
  now destruct (array_index k).
Qed.

Lemma grow_length_props (k : string) (o : obj) :
  props (grow_length k o) = props o.
Proof.
  unfold grow_length. destruct (is_array o); [|reflexivity].
  now destruct (array_index k).
Qed.

Lemma grow_length_prototype (k : string) (o : obj) :
  prototype (grow_length k o) = prototype o.
Proof.
  unfold grow_length. destruct (is_array o); [|reflexivity].
  now destruct (array_index k).
Qed.

Lemma assigned_is_array (h : heap) (o : obj) (k : string) (v : val) :
  is_array (assigned h o k v) = is_array o.
Proof.
  unfold assigned. destruct (_ && _ && _).
  - now destruct v.
  - now rewrite grow_length_is_array.
Qed.

Lemma assigned_define (h : heap) (o : obj) (k : string) (v : val) :
  k <> "__proto__" ->
  assigned h o k v = grow_length k (with_props o (define_prop k v (props o))).
Proof.
  intros Hk. unfold assigned.
  destruct (String.eqb_spec k "__proto__"); [congruence | reflexivity].
Qed.

Lemma assigned_NoDup (h : heap) (o : obj) (k : string) (v : val) :
  List.NoDup (keys (props o)) ->
  List.NoDup (keys (props (assigned h o k v))).
Proof.
  intros Hnd. unfold assigned. destruct (_ && _ && _).
  - now destruct v.
  - rewrite grow_length_props. simpl. now apply NoDup_define_prop.
Qed.

Lemma In_update_prop (e : string * val) (k : string) (v : val)
    (ps : list (string * val)) :
  In e (update_prop k v ps) -> e = (k, v) \/ In e ps.
Proof.
  induction ps as [|[k0 v0] ps IH]; simpl; [tauto|].
  destruct (String.eqb k0 k); simpl; intuition.
Qed.

Lemma In_insert_prop (e : string * val) (k : string) (v : val)
    (ps : list (string * val)) :
  In e (insert_prop k v ps) -> e = (k, v) \/ In e ps.
Proof.
  induction ps as [|[k0 v0] ps IH]; simpl; [intuition|].
  destruct (goes_before k k0); simpl; intuition.
Qed.

Lemma In_define_prop (e : string * val) (k : string) (v : val)
    (ps : list (string * val)) :
  In e (define_prop k v ps) -> e = (k, v) \/ In e ps.
Proof.
  unfold define_prop. destruct (has_key k ps);
    [apply In_update_prop | apply In_insert_prop].
Qed.

Lemma In_define_all (e : string * val) (es ps : list (string * val)) :
  In e (define_all es ps) -> In e es \/ In e ps.
Proof.
  revert ps; induction es as [|[k v] es IH]; intros ps; [simpl; tauto|].
  change (define_all ((k, v) :: es) ps)
    with (define_all es (define_prop k v ps)).
  intros Hin. apply IH in Hin as [Hin|Hin]; [left; now right|].
  apply In_define_prop in Hin as [->|Hin]; [left; now left | now right].
Qed.

Lemma In_assigned (h : heap) (o : obj) (e : string * val)
    (k : string) (v : val) :
  In e (props (assigned h o k v)) -> e = (k, v) \/ In e (props o).
Proof.
  unfold assigned. destruct (_ && _ && _).
  - destruct v; simpl; auto.
  - rewrite grow_length_props. simpl. apply In_define_prop.
Qed.

(** *** The length of an array *)

Lemma NoDup_keys_filter (p : string * val -> bool)
    (ps : list (string * val)) :
  List.NoDup (keys ps) -> List.NoDup (keys (List.filter p ps)).
Proof.
  induction ps as [|e ps IH]; intros Hnd; [exact Hnd|].
  inversion Hnd as [|? ? Hk Hnd']; subst. cbn [List.filter].
  destruct (p e); [|now apply IH].
  constructor; [|now apply IH].
  intros Hin. apply Hk. unfold keys in *.
  apply in_map_iff in Hin as (e' & E & Hin).
  apply filter_In in Hin as [Hin _]. apply in_map_iff. now exists e'.
Qed.

Lemma set_length_is_array (o : obj) (n : N) :
  is_array (set_length o n) = is_array o.
Proof. unfold set_length. now destruct (array_length o <=? n)%N. Qed.

Lemma In_set_length (o : obj) (n : N) (e : string * val) :
  In e (props (set_length o n)) -> In e (props o).
Proof.
  unfold set_length, truncate.
  destruct (array_length o <=? n)%N; [trivial|]. cbn [props].
  intros Hin. now apply filter_In in Hin as [Hin _].
Qed.

Lemma set_length_NoDup (o : obj) (n : N) :
  List.NoDup (keys (props o)) -> List.NoDup (keys (props (set_length o n))).
Proof.
  unfold set_length, truncate.
  destruct (array_length o <=? n)%N; [trivial|]. cbn [props].
  apply NoDup_keys_filter.
Qed.

(** *** One assignment to the clone *)

Section Assignment.

Context (h : heap) (o o' : obj) (k : string) (v : val).

Lemma set_prop_assigned :
  is_array o && String.eqb k "length" = false ->
  set_prop h o k v = Some (assigned h o k v).
Proof. intros E. unfold set_prop. now rewrite E. Qed.

Hypothesis set_prop_returns : set_prop h o k v = Some o'.

Lemma set_prop_cases :
  o' = assigned h o k v \/ exists n, o' = set_length o n.
Proof.
  unfold set_prop in set_prop_returns.
  destruct (is_array o && String.eqb k "length").
  - destruct (to_array_length h v) as [n|]; [|discriminate].
    right. exists n. congruence.
  - left. congruence.
Qed.

Lemma set_prop_is_array : is_array o' = is_array o.
Proof.
  destruct set_prop_cases as [->|[n ->]];
    [apply assigned_is_array | apply set_length_is_array].
Qed.

Lemma set_prop_NoDup :
  List.NoDup (keys (props o)) -> List.NoDup (keys (props o')).
Proof.
  destruct set_prop_cases as [->|[n ->]];
    [apply assigned_NoDup | apply set_length_NoDup].
Qed.

Lemma In_set_prop (e : string * val) :
  In e (props o') -> e = (k, v) \/ In e (props o).
Proof.
  destruct set_prop_cases as [->|[n ->]].
  - apply In_assigned.
  - intros Hin. right. now apply In_set_length in Hin.
Qed.

End Assignment.

(** *** The loop *)

Lemma loop_clone_is_array (h : heap) (f : string -> string)
    (es : list (string * val)) (clone : obj) :
  is_array (loop_clone h f es clone) = is_array clone.
Proof.
  revert clone; induction es as [|[k v] es IH]; intros clone; [reflexivity|].
  simpl. rewrite IH. apply assigned_is_array.
Qed.

(** Unless the clone is an array and a key is renamed to [length], the
    loop returns the clone with all the assignments made, and whether a
    key was changed. *)
Lemma replace_loop_spec (h : heap) (f : string -> string)
    (es : list (string * val)) (clone : obj) (c : bool) :
  is_array clone && to_length f es = false ->
  replace_loop h f es clone c
  = Some (loop_clone h f es clone, c || changes f es).
Proof.
  revert clone c; induction es as [|[k v] es IH]; intros clone c Hlen.
  - simpl. now rewrite orb_false_r.
  - cbn [replace_loop loop_clone].
    assert (E : is_array clone && String.eqb (f k) "length" = false
                /\ is_array clone && to_length f es = false).
    { destruct (is_array clone); [|now split]. cbn [andb] in *.
      now apply orb_false_elim in Hlen. }
    destruct E as [E1 E2].
    rewrite (set_prop_assigned _ _ _ _ E1), IH
      by now rewrite assigned_is_array.
    unfold changes. cbn [existsb fst].
    destruct (String.eqb (f k) k); cbn [negb orb]; [reflexivity|].
    now rewrite orb_true_r.
Qed.

(** Whatever the loop returns: whether a key was changed, and a clone of
    the kind it started from, whose entries were there before or are
    renamed entries of the argument. *)
Lemma replace_loop_inv (h : heap) (f : string -> string)
    (es : list (string * val)) (clone clone' : obj) (c c' : bool) :
  replace_loop h f es clone c = Some (clone', c') ->
  c' = c || changes f es
  /\ is_array clone' = is_array clone
  /\ (List.NoDup (keys (props clone)) -> List.NoDup (keys (props clone')))
  /\ forall k' v, In (k', v) (props clone') ->
       In (k', v) (props clone) \/ exists k, In (k, v) es /\ f k = k'.
Proof.
  revert clone c; induction es as [|[k v] es IH]; intros clone c.
  - simpl. intros [= <- <-]. rewrite orb_false_r. auto.
  - cbn [replace_loop].
    destruct (set_prop h clone (f k) v) as [clone1|] eqn:E1; [|discriminate].
    intros E. apply IH in E as (Hc & Ha & Hnd & Hin).
    split; [|split; [|split]].
    + rewrite Hc. unfold changes. cbn [existsb fst].
      destruct (String.eqb (f k) k); cbn [negb orb]; [reflexivity|].
      now rewrite orb_true_r.
    + rewrite Ha. apply (set_prop_is_array _ _ _ _ _ E1).
    + intros H0. apply Hnd. now apply (set_prop_NoDup _ _ _ _ _ E1).
    + intros k' v' H0. apply Hin in H0 as [H0|(k0 & H0 & E0)].
      * apply (In_set_prop _ _ _ _ _ E1) in H0 as [[= -> ->]|H0];
          [|now left].
        right. exists k. split; [now left | reflexivity].
      * right. exists k0. split; [now right | exact E0].
Qed.

Lemma grown_length_cons (n : N) (k : string) (v : val)
    (es : list (string * val)) :
  grown_length n ((k, v) :: es)
  = grown_length (match array_index k with
                  | Some i => N.max n (i + 1)
                  | None => n
                  end) es.
Proof. reflexivity. Qed.

(** When no renamed key is [__proto__], the loop defines the renamed
    entries one after the other, and an array grows with them. *)
Lemma loop_clone_define (h : heap) (f : string -> string)
    (es : list (string * val)) (clone : obj) :
  (forall k, In k (keys es) -> f k <> "__proto__") ->
  loop_clone h f es clone
  = mkObj (is_array clone) (prototype clone)
      (define_all (renamed f es) (props clone))
      (if is_array clone
       then grown_length (array_length clone) (renamed f es)
       else array_length clone).
Proof.
  revert clone; induction es as [|[k v] es IH]; intros clone Hp.
  - destruct clone as [a p ps n]. simpl. now destruct a.
  - simpl loop_clone. rewrite IH by (intros; apply Hp; now right).
    rewrite assigned_define by (apply Hp; now left).
    rewrite grow_length_is_array, grow_length_props, grow_length_prototype.
    cbn [with_props is_array prototype props].
    change (renamed f ((k, v) :: es)) with ((f k, v) :: renamed f es).
    change (define_all ((f k, v) :: renamed f es) (props clone))
      with (define_all (renamed f es) (define_prop (f k) v (props clone))).
    f_equal. unfold grow_length. cbn [with_props is_array array_length].
    destruct (is_array clone); [|reflexivity].
    rewrite grown_length_cons.
    now destruct (array_index (f k)).
Qed.

Lemma changes_false (f : string -> string) (es : list (string * val)) :
  changes f es = false <-> forall k, In k (keys es) -> f k = k.
Proof.
  unfold changes, keys. induction es as [|[k v] es IH]; simpl; [tauto|].
  rewrite orb_false_iff, IH, negb_false_iff, String.eqb_eq.
  split.
  - intros [Hk Hes] k' [<-|Hin]; auto.
  - intros H0. split; [apply H0; now left | intros; apply H0; now right].
Qed.

Lemma to_length_false (f : string -> string) (es : list (string * val)) :
  to_length f es = false <-> forall k, In k (keys es) -> f k <> "length".
Proof.
  unfold to_length, keys. induction es as [|[k v] es IH]; simpl; [tauto|].
  rewrite orb_false_iff, IH. split.
  - intros [Hk Hes] k' [<-|Hin]; [now apply String.eqb_neq | auto].
  - intros H0. split; [apply String.eqb_neq, H0; now left|].
    intros; apply H0; now right.
Qed.

(** *** [replaceObjectKey] itself *)

(** Unless the argument is an array and a key is renamed to [length],
    [replaceObjectKey] returns the argument itself with the heap as it
    was, or a new object at the next free location. *)
Lemma replaceObjectKey_unfold (arg : val) (f : string -> string) (h : heap) :
  isArray h arg && to_length f (entries h arg) = false ->
  replaceObjectKey arg f h
  = if is_object arg && changes f (entries h arg)
    then Some (VObject (List.length h),
               h ++ [loop_clone h f (entries h arg)
                       (mkObj (isArray h arg) PBuiltin [] 0)])
    else Some (arg, h).
Proof.
  intros Hlen. unfold replaceObjectKey.
  destruct (is_object arg) eqn:Ho; simpl.
  - rewrite replace_loop_spec by exact Hlen. cbn [is_array orb].
    now destruct (changes f (entries h arg)).
  - destruct arg; try discriminate; reflexivity.
Qed.

(** Whatever [replaceObjectKey] returns: the argument itself with the
    heap as it was, no key being changed, or, a key being changed, a new
    object at the next free location, of the kind of the argument, with
    distinct keys, whose entries are renamed entries of the argument. *)
Lemma replaceObjectKey_inv (arg : val) (f : string -> string) (h : heap)
    (r : val * heap) :
  replaceObjectKey arg f h = Some r ->
  (r = (arg, h) /\ is_object arg && changes f (entries h arg) = false)
  \/ (is_object arg && changes f (entries h arg) = true
      /\ exists o,
           r = (VObject (List.length h), h ++ [o])
           /\ is_array o = isArray h arg
           /\ List.NoDup (keys (props o))
           /\ forall k' v, In (k', v) (props o) ->
                exists k, In (k, v) (entries h arg) /\ f k = k').
Proof.
  unfold replaceObjectKey. destruct (is_object arg) eqn:Ho; cbn [negb andb].
  - destruct (replace_loop h f (entries h arg)
                (mkObj (isArray h arg) PBuiltin [] 0) false)
      as [[clone' c']|] eqn:E; [|discriminate].
    apply replace_loop_inv in E as (Hc & Ha & Hnd & Hin).
    cbn [orb] in Hc. subst c'.
    destruct (changes f (entries h arg)).
    + intros [= <-]. right. split; [reflexivity|]. exists clone'.
      split; [reflexivity|]. split; [exact Ha|].
      split; [apply Hnd; exact (List.NoDup_nil _)|].
      intros k' v H0. now apply Hin in H0 as [[]|H0].
    + intros [= <-]. now left.
  - intros [= <-]. now left.
Qed.

(** Nothing is renamed to [length] when nothing is renamed, the [length]
    of an array being no entry. *)
Lemma own_entries_not_length (o : obj) (k : string) :
  is_array o = true -> In k (keys (own_entries o)) -> k <> "length".
Proof.
  intros Ha Hin. unfold own_entries in Hin. rewrite Ha in Hin.
  unfold keys in Hin. apply in_map_iff in Hin as ([k' v] & <- & Hin).
  apply filter_In in Hin as [_ Hin]. simpl in *.
  apply negb_true_iff in Hin. now apply String.eqb_neq.
Qed.

Lemma entries_not_length (h : heap) (arg : val) (k : string) :
  isArray h arg = true -> In k (keys (entries h arg)) -> k <> "length".
Proof.
  unfold isArray, entries. destruct arg as [| | | | |l]; try discriminate.
  destruct (h !! l) as [o|]; [|discriminate]. apply own_entries_not_length.
Qed.

Lemma to_length_fixed (f : string -> string) (h : heap) (arg : val) :
  (forall k, In k (keys (entries h arg)) -> f k = k) ->
  isArray h arg && to_length f (entries h arg) = false.
Proof.
  intros Hf. destruct (isArray h arg) eqn:Ha; [|reflexivity]. simpl.
  apply to_length_false. intros k Hk. rewrite (Hf k Hk).
  now apply (entries_not_length h arg).
Qed.

Lemma replaceObjectKey_fixed (arg : val) (f : string -> string) (h : heap) :
  (forall k, In k (keys (entries h arg)) -> f k = k) ->
  replaceObjectKey arg f h = Some (arg, h).
Proof.
  intros Hf. rewrite replaceObjectKey_unfold by now apply to_length_fixed.
  replace (changes f (entries h arg)) with false; [now rewrite andb_false_r|].
  symmetry. now apply changes_false.
Qed.

(** An own property named [__proto__] (as [JSON.parse] creates it) does
    not survive the rebuilding of an object: the assignment
    [clone["__proto__"] = v] runs the setter of [Object.prototype] and
    creates no property. This is why the statements about renamed
    entries ask for a clean renaming. *)
Example proto_key_dropped :
  let one := VNumber (Int 1) in
  let two := VNumber (Int 2) in
  encode (plainOptions demoTag) (VObject 0%nat)
         [plain [("__proto__", one); ("$type", two)]]
  = Some (VObject 1%nat,
          [plain [("__proto__", one); ("$type", two)];
           plain [("_$type", two)]]).
Proof. reflexivity. Qed.

(** ** Pass-through (claims C5 and C8) *)

Section PassThrough.

Context (options : EncoderOptions).

Let key := key (typeTag options).
Let escapeCharacter := escapeCharacter (typeTag options).

Lemma encode_not_source (arg : val) (h : heap) :
  isSource options h arg = false ->
  encode options arg h = replaceObjectKey arg (prependEscapeChar options) h.
Proof.
  intros Hs. unfold encode. rewrite Hs.
  now destruct (replaceObjectKey arg (prependEscapeChar options) h)
    as [[e h2]|].
Qed.

Lemma decode_not_tagged (arg : val) (h : heap) :
  is_tagged options h arg = false ->
  decode options arg h
  = replaceObjectKey arg (removePrependedEscapeChar options) h.
Proof.
  unfold is_tagged, decode. intros Ht.
  destruct (is_object arg) eqn:Ho; simpl.
  - rewrite Ht.
    now destruct (replaceObjectKey arg (removePrependedEscapeChar options) h)
      as [[u h2]|].
  - destruct arg; try discriminate; reflexivity.
Qed.

Lemma decode_unchanged (x : val) (h : heap) :
  is_tagged options h x = false ->
  (forall k, In k (keys (entries h x)) ->
             escaped_shaped key escapeCharacter k = false) ->
  decode options x h = Some (x, h).
Proof.
  intros Ht Hk. rewrite decode_not_tagged by exact Ht.
  apply replaceObjectKey_fixed. intros k Hin.
  apply removePrependedEscapeChar_other. now apply Hk.
Qed.

(** C5: a value that is not a source value and has no tag-shaped key
    among its top-level keys is returned by [encode] as it is, the heap
    untouched; [decode] does the same when the value is not tagged. *)
Theorem C5_pass_through (v : val) (h : heap) :
  isSource options h v = false ->
  (forall k, In k (keys (entries h v)) ->
             tag_shaped key escapeCharacter k = false) ->
  encode options v h = Some (v, h)
  /\ (is_tagged options h v = false -> decode options v h = Some (v, h)).
Proof.
  intros Hs Hk. split.
  - rewrite encode_not_source by exact Hs.
    apply replaceObjectKey_fixed. intros k Hin.
    apply prependEscapeChar_other. now apply Hk.
  - intros Ht. apply decode_unchanged; [exact Ht|].
    intros k Hin. unfold escaped_shaped.
    fold key escapeCharacter in Hk. rewrite (Hk k Hin).
    apply andb_false_r.
Qed.

(** C8, as amended: [decode] returns an untagged value as it is when none
    of its top-level keys has the escaped shape. *)
Theorem C8_decode_identity (x : val) (h : heap) :
  is_tagged options h x = false ->
  (forall k, In k (keys (entries h x)) ->
             escaped_shaped key escapeCharacter k = false) ->
  decode options x h = Some (x, h).
Proof. exact (decode_unchanged x h). Qed.

End PassThrough.

(** ** Reading objects *)

Lemma entries_lookup (h : heap) (l : loc) (o : obj) :
  h !! l = Some o -> entries h (VObject l) = own_entries o.
Proof. intros H. unfold entries. now rewrite H. Qed.

Lemma own_entries_plain (o : obj) :
  is_array o = false -> own_entries o = props o.
Proof. intros H. unfold own_entries. now rewrite H. Qed.

Lemma own_get_plain (o : obj) (k : string) :
  is_array o = false -> own_get o k = lookup_prop k (props o).
Proof. intros H. unfold own_get. now rewrite H. Qed.

Lemma isArray_lookup (h : heap) (l : loc) (o : obj) :
  h !! l = Some o -> isArray h (VObject l) = is_array o.
Proof. intros H. unfold isArray. now rewrite H. Qed.

(** One step of the property lookup. *)
Lemma get_from_step (h : heap) (fuel : nat) (l : loc) (o : obj) (k : string) :
  h !! l = Some o ->
  get_from h (S fuel) l k
  = match own_get o k with
    | Some v => v
    | None => match prototype o with
              | PObj p => get_from h fuel p k
              | PBuiltin | PNull => VUndefined
              end
    end.
Proof.
  intros H. simpl. rewrite H. unfold own_get.
  destruct (is_array o && String.eqb k "length"); reflexivity.
Qed.

(** An own property is read as it is. *)
Lemma js_get_own (h : heap) (l : loc) (o : obj) (k : string) (v : val) :
  h !! l = Some o -> own_get o k = Some v ->
  js_get h (VObject l) k = v.
Proof.
  intros H Hk. unfold js_get. now rewrite (get_from_step _ _ _ _ _ H), Hk.
Qed.

(** A key that the object does not have, below a built-in prototype or
    none, reads [undefined]. *)
Lemma js_get_missing (h : heap) (l : loc) (o : obj) (k : string) :
  h !! l = Some o -> own_get o k = None ->
  (forall p, prototype o <> PObj p) ->
  js_get h (VObject l) k = VUndefined.
Proof.
  intros H Hk Hp. unfold js_get. rewrite (get_from_step _ _ _ _ _ H), Hk.
  destruct (prototype o) as [| |p]; [reflexivity | reflexivity |].
  now destruct (Hp p).
Qed.

(** *** The prototype chain *)

(** With fuel for the steps to the property, the lookup finds it. *)
Lemma found_at_get_from (h : heap) (k : string) (n : nat) (l : loc) (v : val) :
  found_at h k n l v ->
  forall fuel, (n < fuel)%nat -> get_from h fuel l k = v.
Proof.
  induction 1 as [l o v Hl Hk | n l o p v Hl Hk Hp _ IH]; intros fuel Hf.
  - destruct fuel as [|fuel]; [lia|].
    now rewrite (get_from_step _ _ _ _ _ Hl), Hk.
  - destruct fuel as [|fuel]; [lia|].
    rewrite (get_from_step _ _ _ _ _ Hl), Hk, Hp. apply IH. lia.
Qed.

(** What the lookup returns, other than [undefined], it has found. *)
Lemma get_from_found (h : heap) (k : string) (fuel : nat) (l : loc) :
  get_from h fuel l k <> VUndefined ->
  exists n, (n < fuel)%nat /\ found_at h k n l (get_from h fuel l k).
Proof.
  revert l; induction fuel as [|fuel IH]; intros l Hv.
  - now destruct Hv.
  - destruct (h !! l) as [o|] eqn:Hl.
    + rewrite (get_from_step _ _ _ _ _ Hl) in *.
      destruct (own_get o k) as [x|] eqn:Hk.
      * exists 0%nat. split; [lia|]. now apply (found_own h k l o).
      * destruct (prototype o) as [| |p] eqn:Hp;
          [now destruct Hv | now destruct Hv |].
        destruct (IH p Hv) as (n & Hn & Hf).
        exists (S n). split; [lia|]. now apply (found_up h k n l o p).
    + simpl in Hv. rewrite Hl in Hv. now destruct Hv.
Qed.

(** The chain is walked in one way only. *)
Lemma found_at_det (h : heap) (k : string) (n : nat) (l : loc) (v : val) :
  found_at h k n l v ->
  forall n' v', found_at h k n' l v' -> n = n' /\ v = v'.
Proof.
  induction 1 as [l o v Hl Hk | n l o p v Hl Hk Hp _ IH];
    intros n' v' H'.
  - inversion H'; subst.
    + split; [reflexivity | congruence].
    + congruence.
  - inversion H'; subst.
    + congruence.
    + match goal with
      | Hq : prototype _ = PObj ?q, Hf' : found_at h k _ ?q _ |- _ =>
          assert (q = p) by congruence; subst q;
          destruct (IH _ _ Hf') as [-> ->]
      end.
      now split.
Qed.

Lemma found_at_lookup (h : heap) (k : string) (n : nat) (l : loc) (v : val) :
  found_at h k n l v -> (l < List.length h)%nat.
Proof.
  intros H. apply lookup_lt_is_Some.
  inversion H; subst; eauto.
Qed.

(** The objects walked are distinct objects of the heap. *)
Lemma found_at_path (h : heap) (k : string) (n : nat) (l : loc) (v : val) :
  found_at h k n l v ->
  exists p : list loc,
    List.length p = S n /\ List.NoDup p
    /\ forall x, In x p ->
         (x < List.length h)%nat
         /\ exists m v', (m <= n)%nat /\ found_at h k m x v'.
Proof.
  induction 1 as [l o v Hl Hk | n l o p v Hl Hk Hp Hf IH].
  - exists [l]. split; [reflexivity|]. split.
    + constructor; [intros []|constructor].
    + intros x [<-|[]]. split.
      * apply lookup_lt_is_Some. eauto.
      * exists 0%nat, v. split; [lia|]. now apply (found_own h k l o).
  - destruct IH as (q & Hlen & Hnd & Hq).
    assert (Hme : found_at h k (S n) l v) by now apply (found_up h k n l o p).
    exists (l :: q). split; [simpl; now rewrite Hlen|]. split.
    + constructor; [|exact Hnd]. intros Hin.
      destruct (Hq l Hin) as (_ & m & v' & Hm & Hf').
      destruct (found_at_det _ _ _ _ _ Hme _ _ Hf') as [E _]. lia.
    + intros x [<-|Hin].
      * split; [now apply (found_at_lookup h k (S n) l v)|].
        exists (S n), v. split; [lia | exact Hme].
      * destruct (Hq x Hin) as (Hx & m & v' & Hm & Hf').
        split; [exact Hx|]. exists m, v'. split; [lia | exact Hf'].
Qed.

(** So the walk is shorter than the heap is long. *)
Lemma found_at_bound (h : heap) (k : string) (n : nat) (l : loc) (v : val) :
  found_at h k n l v -> (n < List.length h)%nat.
Proof.
  intros H. destruct (found_at_path _ _ _ _ _ H) as (p & Hlen & Hnd & Hp).
  assert (Hincl : incl p (List.seq 0 (List.length h))).
  { intros x Hx. apply in_seq. destruct (Hp x Hx) as [Hlt _]. lia. }
  pose proof (NoDup_incl_length Hnd Hincl) as Hle.
  rewrite length_seq in Hle. lia.
Qed.

(** [arg[k]] is the property found on the prototype chain. *)
Lemma js_get_found (h : heap) (k : string) (n : nat) (l : loc) (v : val) :
  found_at h k n l v -> js_get h (VObject l) k = v.
Proof.
  intros H. unfold js_get. apply (found_at_get_from _ _ _ _ _ H).
  apply found_at_bound in H. lia.
Qed.

Lemma js_get_defined (h : heap) (k : string) (l : loc) :
  js_get h (VObject l) k <> VUndefined ->
  exists n, found_at h k n l (js_get h (VObject l) k).
Proof.
  unfold js_get. intros H.
  destruct (get_from_found _ _ _ _ H) as (n & _ & Hf). now exists n.
Qed.

Lemma strict_eq_undefined_tag (t : tag_value) :
  strict_eq VUndefined (val_of_tag t) = false.
Proof. now destruct t. Qed.

(** The tag test succeeds exactly when the property found on the
    prototype chain under the key of the tag is strictly equal to the
    value of the tag. *)
Lemma is_tagged_found (options : EncoderOptions) (h : heap) (l : loc) :
  is_tagged options h (VObject l) = true
  <-> exists n x, found_at h (key (typeTag options)) n l x
                  /\ strict_eq x (val_of_tag (value (typeTag options))) = true.
Proof.
  unfold is_tagged. split.
  - intros Ht.
    assert (Hd : js_get h (VObject l) (key (typeTag options)) <> VUndefined).
    { intros E. rewrite E, strict_eq_undefined_tag in Ht. discriminate. }
    destruct (js_get_defined _ _ _ Hd) as (n & Hf).
    now exists n, (js_get h (VObject l) (key (typeTag options))).
  - intros (n & x & Hf & Hx). now rewrite (js_get_found _ _ _ _ _ Hf).
Qed.

(** ** No mutation (claim C9) *)

(** [replaceObjectKey] returns when it renames no key of an array to
    [length]. *)
Lemma replaceObjectKey_returns_if (arg : val) (f : string -> string)
    (h : heap) :
  isArray h arg && to_length f (entries h arg) = false ->
  exists r, replaceObjectKey arg f h = Some r.
Proof.
  intros Hlen. rewrite replaceObjectKey_unfold by exact Hlen.
  destruct (is_object arg && changes f (entries h arg)); eauto.
Qed.

Lemma replaceObjectKey_result (arg : val) (f : string -> string) (h : heap)
    (r : val * heap) :
  replaceObjectKey arg f h = Some r ->
  r = (arg, h)
  \/ exists o, r = (VObject (List.length h), h ++ [o])
               /\ is_array o = isArray h arg.
Proof.
  intros E.
  destruct (replaceObjectKey_inv _ _ _ _ E)
    as [[-> _]|(_ & o & -> & Ha & _)]; [now left | right].
  now exists o.
Qed.

(** The keys of an argument that is not an array are renamed without
    fail. *)
Lemma replaceObjectKey_returns (arg : val) (f : string -> string) (h : heap) :
  isArray h arg = false -> exists r, replaceObjectKey arg f h = Some r.
Proof.
  intros Ha. apply replaceObjectKey_returns_if. now rewrite Ha.
Qed.

Lemma fresh_alloc (h0 h : heap) (o : obj) :
  extends h0 h -> fresh_in h0 (h ++ [o]) (VObject (List.length h)).
Proof.
  intros He. exists (List.length h). split; [reflexivity|].
  apply extends_length in He. rewrite length_app. simpl. lia.
Qed.

Lemma replaceObjectKey_frame (arg : val) (f : string -> string) (h0 h : heap)
    (r : val * heap) :
  extends h0 h ->
  replaceObjectKey arg f h = Some r ->
  extends h0 (snd r) /\ (r = (arg, h) \/ fresh_in h0 (snd r) (fst r)).
Proof.
  intros He E.
  destruct (replaceObjectKey_result _ _ _ _ E) as [->|(o & -> & _)]; simpl.
  - split; [exact He | now left].
  - split; [|right; now apply fresh_alloc].
    eapply extends_trans; [exact He | apply extends_alloc].
Qed.

(** What [decode] does with a tagged object: it copies it to a new
    object, deletes the tag from the copy, unescapes the keys, the copy
    not being an array, and hands the outcome, an object allocated after
    [h], to [fromPlainObject]. *)
Lemma decode_tagged (options : EncoderOptions) (arg : val) (h : heap) :
  is_object arg = true ->
  is_tagged options h arg = true ->
  let copy := object_literal (spread_entries h arg) in
  let h1 := h ++ [with_props copy (delete_prop (key (typeTag options))
                                               (props copy))] in
  exists u h2,
    replaceObjectKey (VObject (List.length h))
      (removePrependedEscapeChar options) h1 = Some (u, h2)
    /\ decode options arg h = Some (fromPlainObject options u h2)
    /\ extends h h2 /\ fresh_in h h2 u.
Proof.
  intros Ho Ht copy h1.
  destruct (replaceObjectKey_returns (VObject (List.length h))
              (removePrependedEscapeChar options) h1) as [[u h2] E].
  { subst h1. now rewrite (isArray_lookup _ _ _ (lookup_alloc _ _)). }
  exists u, h2. split; [exact E|]. split.
  - unfold decode, is_tagged in *.
    rewrite Ho, Ht. simpl negb. cbv iota. unfold alloc.
    rewrite heap_delete_last. fold copy. fold h1. now rewrite E.
  - destruct (replaceObjectKey_frame _ _ h _ _ (extends_alloc h _) E)
      as [Hext [Hr|Hf]]; simpl in *.
    + split; [exact Hext|]. injection Hr as -> ->.
      apply fresh_alloc, extends_refl.
    + now split.
Qed.

Section NoMutation.

Context (options : EncoderOptions).
Hypothesis to_allocates : allocates_only (toPlainObject options).
Hypothesis from_allocates : allocates_only (fromPlainObject options).

Lemma encode_frame (arg : val) (h : heap) (r : val * heap) :
  encode options arg h = Some r ->
  extends h (snd r) /\ (r = (arg, h) \/ fresh_in h (snd r) (fst r)).
Proof.
  unfold encode. destruct (isSource options h arg).
  - pose proof (to_allocates arg h) as H1.
    destruct (toPlainObject options arg h) as [converted h1]. simpl in H1.
    destruct (replaceObjectKey converted (prependEscapeChar options) h1)
      as [[e h2]|] eqn:E; [|discriminate].
    intros [= <-]. simpl.
    destruct (replaceObjectKey_frame _ _ h _ _ H1 E) as [H2 _]. simpl in H2.
    split; [|right; now apply fresh_alloc].
    eapply extends_trans; [exact H2 | apply extends_alloc].
  - destruct (replaceObjectKey arg (prependEscapeChar options) h)
      as [[e h2]|] eqn:E; [|discriminate].
    intros [= <-].
    apply (replaceObjectKey_frame _ _ h _ _ (extends_refl h) E).
Qed.

Lemma decode_frame (arg : val) (h : heap) (r : val * heap) :
  decode options arg h = Some r ->
  extends h (snd r)
  /\ (r = (arg, h)
      \/ fresh_in h (snd r) (fst r)
      \/ exists u h2,
           is_tagged options h arg = true
           /\ extends h h2 /\ fresh_in h h2 u
           /\ r = fromPlainObject options u h2).
Proof.
  destruct (is_object arg) eqn:Ho.
  - destruct (is_tagged options h arg) eqn:Ht.
    + destruct (decode_tagged options arg h Ho Ht)
        as (u & h2 & _ & E & Hext & Hfresh).
      rewrite E. intros [= <-]. split.
      * eapply extends_trans; [exact Hext | apply from_allocates].
      * right; right. exists u, h2. now repeat split.
    + rewrite decode_not_tagged by exact Ht. intros E.
      destruct (replaceObjectKey_frame _ _ h _ _ (extends_refl h) E)
        as [Hext [Hr|Hf]]; split; auto.
  - unfold decode. rewrite Ho. simpl. intros [= <-].
    split; [apply extends_refl | now left].
Qed.

(** [encode] returns when no key of an array, the argument or the plain
    form of a source value, is escaped to [length]. *)
Lemma encode_returns (arg : val) (h : heap) :
  (let p := if isSource options h arg
            then toPlainObject options arg h else (arg, h) in
   isArray (snd p) (fst p)
   && to_length (prependEscapeChar options) (entries (snd p) (fst p))
   = false) ->
  exists r, encode options arg h = Some r.
Proof.
  unfold encode.
  destruct (isSource options h arg);
    [destruct (toPlainObject options arg h) as [converted h1]|];
    cbn [fst snd]; intros Hlen;
    destruct (replaceObjectKey_returns_if _ _ _ Hlen) as [[e h2] E];
    rewrite E; eauto.
Qed.

(** [decode] returns for a tagged argument, and when no key of an array
    is unescaped to [length]. *)
Lemma decode_returns (arg : val) (h : heap) :
  is_tagged options h arg = true
  \/ isArray h arg
     && to_length (removePrependedEscapeChar options) (entries h arg)
     = false ->
  exists r, decode options arg h = Some r.
Proof.
  destruct (is_tagged options h arg) eqn:Ht.
  - intros _. destruct (is_object arg) eqn:Ho.
    + destruct (decode_tagged options arg h Ho Ht) as (u & h2 & _ & E & _).
      rewrite E. eauto.
    + exists (arg, h). destruct arg; try discriminate; reflexivity.
  - intros [|Hlen]; [discriminate|].
    rewrite decode_not_tagged by exact Ht.
    now apply replaceObjectKey_returns_if.
Qed.

(** C9, as amended: the caller's converters allocating only, neither
    [encode] nor [decode] changes an object that exists when it is
    called: the heap after a call that returns is the heap before it
    followed by the objects the call has allocated. [encode] returns its
    argument with the heap as it was, or an object allocated by the call.
    So does [decode] of an untagged argument; for a tagged argument it
    returns what [fromPlainObject] makes of an object allocated by the
    call: an object allocated by the call again, when [fromPlainObject]
    returns objects of its own. A call returns when it renames no key of
    an array to [length], and [decode] of a tagged argument always. *)
Theorem C9_no_mutation (arg : val) (h : heap) :
  (forall r, encode options arg h = Some r ->
     extends h (snd r)
     /\ (r = (arg, h) \/ fresh_in h (snd r) (fst r)))
  /\ (forall r, decode options arg h = Some r ->
        extends h (snd r)
        /\ (r = (arg, h)
            \/ fresh_in h (snd r) (fst r)
            \/ exists u h2,
                 is_tagged options h arg = true
                 /\ extends h h2 /\ fresh_in h h2 u
                 /\ r = fromPlainObject options u h2)
        /\ (is_tagged options h arg = false ->
            r = (arg, h) \/ fresh_in h (snd r) (fst r))
        /\ (returns_fresh (fromPlainObject options) ->
            r = (arg, h) \/ fresh_in h (snd r) (fst r)))
  /\ ((let p := if isSource options h arg
                 then toPlainObject options arg h else (arg, h) in
       isArray (snd p) (fst p)
       && to_length (prependEscapeChar options) (entries (snd p) (fst p))
       = false) ->
      exists r, encode options arg h = Some r)
  /\ (is_tagged options h arg = true
      \/ isArray h arg
         && to_length (removePrependedEscapeChar options) (entries h arg)
         = false ->
      exists r, decode options arg h = Some r).
Proof.
  split; [apply encode_frame|].
  split; [|split; [apply encode_returns | apply decode_returns]].
  intros r E. destruct (decode_frame arg h r E) as [Hext Hd].
  split; [exact Hext|]. split; [exact Hd|]. split.
  - intros Ht.
    destruct Hd as [Hd|[Hd|(u & h2 & Ht' & _)]];
      [now left | now right | congruence].
  - intros Hfresh. destruct Hd as [Hd|[Hd|(u & h2 & _ & Hext2 & _ & ->)]];
      [now left | now right |].
    right. destruct (Hfresh u h2) as (l & El & Hl).
    exists l. split; [exact El|]. apply extends_length in Hext2. lia.
Qed.

End NoMutation.

Lemma boxToPlain_allocates : allocates_only boxToPlain.
Proof. intros v h. apply extends_alloc. Qed.

Lemma boxFromPlain_allocates : allocates_only boxFromPlain.
Proof. intros v h. apply extends_alloc. Qed.

(** ** Collision safety (claim C2) *)

(** C2: with the tag [{key: "$type", value: "Error", escapeChar: "_"}],
    the plain object [{ $type: 1, age: 12 }], which is not a source
    value, is not tagged; [encode] returns a new object
    [{ _$type: 1, age: 12 }] without the tag; [decode] finds that object
    untagged and returns a new object [{ $type: 1, age: 12 }], whatever
    [fromPlainObject] is. *)
Theorem C2_collision_safety (options : EncoderOptions) (h : heap) (l : loc) :
  typeTag options = demoTag ->
  h !! l = Some (plain [("$type", VNumber (Int 1)); ("age", VNumber (Int 12))]) ->
  isSource options h (VObject l) = false ->
  let escaped := plain [("_$type", VNumber (Int 1)); ("age", VNumber (Int 12))] in
  let restored := plain [("$type", VNumber (Int 1)); ("age", VNumber (Int 12))] in
  is_tagged options h (VObject l) = false
  /\ encode options (VObject l) h
     = Some (VObject (List.length h), h ++ [escaped])
  /\ is_tagged options (h ++ [escaped]) (VObject (List.length h)) = false
  /\ decode options (VObject (List.length h)) (h ++ [escaped])
     = Some (VObject (S (List.length h)), (h ++ [escaped]) ++ [restored]).
Proof.
  intros Htag Hl Hsrc escaped restored.
  assert (Ht : is_tagged options (h ++ [escaped]) (VObject (List.length h))
               = false).
  { unfold is_tagged. rewrite Htag.
    rewrite (js_get_missing _ _ escaped); try reflexivity.
    - apply lookup_alloc.
    - intros p. discriminate. }
  split; [|split; [|split; [exact Ht|]]].
  - unfold is_tagged. rewrite Htag.
    now rewrite (js_get_own h l _ (key demoTag) (VNumber (Int 1)) Hl).
  - rewrite encode_not_source by exact Hsrc.
    rewrite replaceObjectKey_unfold
      by now rewrite (isArray_lookup _ _ _ Hl).
    rewrite (entries_lookup _ _ _ Hl), (isArray_lookup _ _ _ Hl).
    unfold prependEscapeChar, getEscapeCharCount, escape_loop.
    rewrite Htag. reflexivity.
  - rewrite decode_not_tagged by exact Ht.
    rewrite replaceObjectKey_unfold
      by now rewrite (isArray_lookup _ _ _ (lookup_alloc h escaped)).
    rewrite (entries_lookup _ _ _ (lookup_alloc h escaped)).
    rewrite (isArray_lookup _ _ _ (lookup_alloc h escaped)).
    unfold removePrependedEscapeChar, getEscapeCharCount, escape_loop.
    rewrite Htag. rewrite length_app. simpl List.length.
    rewrite Nat.add_1_r. reflexivity.
Qed.

(** ** The tag test (claim C6) *)

Lemma lookup_not_length (k : string) (ps : list (string * val)) :
  lookup_prop k
    (List.filter (fun e => negb (String.eqb (fst e) "length")) ps)
  = if String.eqb k "length" then None else lookup_prop k ps.
Proof.
  induction ps as [|[k0 v0] ps IH].
  - cbn [List.filter lookup_prop]. now destruct (String.eqb k "length").
  - cbn [List.filter lookup_prop fst].
    destruct (String.eqb_spec k0 "length") as [->|Hne]; cbn [negb].
    + rewrite IH. destruct (String.eqb_spec k "length") as [->|Hk];
        [reflexivity|].
      destruct (String.eqb_spec "length" k); [congruence | reflexivity].
    + cbn [lookup_prop]. rewrite IH.
      destruct (String.eqb_spec k0 k) as [->|Hk]; [|reflexivity].
      destruct (String.eqb_spec k "length"); [congruence | reflexivity].
Qed.

(** An own enumerable property is an own property. *)
Lemma lookup_own_entries (o : obj) (k : string) (x : val) :
  lookup_prop k (own_entries o) = Some x -> own_get o k = Some x.
Proof.
  unfold own_entries, own_get. destruct (is_array o); [|trivial]. simpl.
  rewrite lookup_not_length. now destruct (String.eqb k "length").
Qed.

Lemma own_tagged_found (options : EncoderOptions) (h : heap) (l : loc) :
  own_tagged options h (VObject l) = true ->
  exists x, found_at h (key (typeTag options)) 0 l x
            /\ strict_eq x (val_of_tag (value (typeTag options))) = true.
Proof.
  unfold own_tagged, entries.
  destruct (h !! l) as [o|] eqn:Hl; [|discriminate].
  destruct (lookup_prop _ (own_entries o)) as [x|] eqn:Hx; [|discriminate].
  intros Hs. exists x. split; [|exact Hs].
  apply (found_own h _ l o x Hl). now apply lookup_own_entries.
Qed.

Lemma own_tagged_is_tagged (options : EncoderOptions) (h : heap) (v : val) :
  own_tagged options h v = true -> is_tagged options h v = true.
Proof.
  destruct v as [| | | | |l]; try discriminate.
  intros H. apply is_tagged_found.
  destruct (own_tagged_found options h l H) as (x & Hf & Hx).
  now exists 0%nat, x.
Qed.

(** C6, as amended: for an object [v], [decode] applies [fromPlainObject]
    exactly when [v[key] === value], that is, when the first object on
    the prototype chain of [v] that has a property [key] of its own, [v]
    itself or one of its prototypes any number of steps up, has it with
    a value strictly equal to the value of the tag; the [length] of an
    array is such a property. [decode] then applies [fromPlainObject] to
    the copy of [v] without the tag and with its keys unescaped;
    otherwise its result is that of unescaping alone. An own entry with
    the key and the value of the tag passes the test, and so does an
    entry inherited from a prototype that [v] does not shadow; an object
    without a property [key] of its own and without a prototype in the
    heap does not pass it. *)
Theorem C6_tag_test (options : EncoderOptions) (l : loc) (h : heap) :
  let v := VObject l in
  let key := key (typeTag options) in
  let value := val_of_tag (value (typeTag options)) in
  (is_tagged options h v = true
   <-> exists n x, found_at h key n l x /\ strict_eq x value = true)
  /\ (own_tagged options h v = true -> is_tagged options h v = true)
  /\ (forall o p,
        h !! l = Some o -> own_get o key = None -> prototype o = PObj p ->
        is_tagged options h v = is_tagged options h (VObject p))
  /\ (forall o,
        h !! l = Some o -> own_get o key = None ->
        (forall p, prototype o <> PObj p) ->
        is_tagged options h v = false)
  /\ (forall o, h !! l = Some o -> is_array o = true -> key = "length" ->
        is_tagged options h v
        = strict_eq (VNumber (Int (Z.of_N (array_length o)))) value)
  /\ decode options v h
     = (if is_tagged options h v
        then
          let copy := object_literal (spread_entries h v) in
          let h1 := h ++ [with_props copy (delete_prop key (props copy))] in
          match replaceObjectKey (VObject (List.length h))
                  (removePrependedEscapeChar options) h1 with
          | Some r => Some (fromPlainObject options (fst r) (snd r))
          | None => None
          end
        else replaceObjectKey v (removePrependedEscapeChar options) h)
  /\ (is_tagged options h v = true -> decode options v h <> None).
Proof.
  intros v key value.
  assert (Hd : is_tagged options h v = true ->
               exists u h2,
                 replaceObjectKey (VObject (List.length h))
                   (removePrependedEscapeChar options)
                   (h ++ [with_props (object_literal (spread_entries h v))
                            (delete_prop key
                               (props (object_literal (spread_entries h v))))])
                 = Some (u, h2)
                 /\ decode options v h = Some (fromPlainObject options u h2)).
  { intros Ht.
    destruct (decode_tagged options v h eq_refl Ht) as (u & h2 & E & E' & _).
    now exists u, h2. }
  split; [apply is_tagged_found|].
  split; [apply own_tagged_is_tagged|].
  split; [|split; [|split; [|split]]].
  - intros o p Hl Hk Hp.
    destruct (is_tagged options h (VObject p)) eqn:Hp'.
    + apply is_tagged_found in Hp' as (n & x & Hf & Hx).
      apply is_tagged_found. exists (S n), x. split; [|exact Hx].
      now apply (found_up h key n l o p).
    + destruct (is_tagged options h v) eqn:Hv; [|reflexivity].
      apply is_tagged_found in Hv as (n & x & Hf & Hx).
      inversion Hf as [l' o' x' Hl' Hk' | m l' o' p' x' Hl' Hk' Hp'' Hf'];
        subst; [unfold key in Hk; congruence|].
      assert (p' = p) by congruence. subst p'.
      assert (Ht : is_tagged options h (VObject p) = true)
        by (apply is_tagged_found; now exists m, x).
      congruence.
  - intros o Hl Hk Hp. unfold is_tagged, v. unfold key in Hk.
    rewrite (js_get_missing h l o _ Hl Hk Hp).
    apply strict_eq_undefined_tag.
  - intros o Hl Ha Hk. unfold is_tagged, v. unfold key in Hk.
    erewrite js_get_own; [reflexivity | exact Hl |].
    unfold own_get. now rewrite Ha, Hk.
  - destruct (is_tagged options h v) eqn:Ht.
    + destruct (Hd eq_refl) as (u & h2 & E & E'). cbv zeta.
      now rewrite E, E'.
    + now apply decode_not_tagged.
  - intros Ht. destruct (Hd Ht) as (u & h2 & _ & E'). now rewrite E'.
Qed.

(** ** The characters of a string as entries *)

Lemma to_uint_nonnil (n : nat) : Nat.to_uint n <> Decimal.Nil.
Proof.
  rewrite <- (DecimalNat.Unsigned.of_to n) at 1.
  rewrite DecimalNat.Unsigned.to_of. apply DecimalFacts.unorm_nonnil.
Qed.

Lemma index_key_inj (i j : nat) : index_key i = index_key j -> i = j.
Proof.
  unfold index_key. intros H.
  apply DecimalNat.Unsigned.to_uint_inj.
  pose proof (NilZero.usu _ (to_uint_nonnil i)) as Hi.
  pose proof (NilZero.usu _ (to_uint_nonnil j)) as Hj.
  rewrite H in Hi. congruence.
Qed.

Lemma keys_string_entries (s : string) (i : nat) (k : string) :
  In k (keys (string_entries i s)) <->
  exists j, (i <= j < i + String.length s)%nat /\ k = index_key j.
Proof.
  revert i; induction s as [|c s IH]; intros i; simpl.
  - split; [tauto | intros (j & Hj & _); lia].
  - rewrite IH. split.
    + intros [<-|(j & Hj & ->)].
      * exists i. split; [lia | reflexivity].
      * exists j. split; [lia | reflexivity].
    + intros (j & Hj & ->).
      destruct (Nat.eq_dec i j) as [->|Hne]; [now left | right].
      exists j. split; [lia | reflexivity].
Qed.

Lemma NoDup_string_entries (s : string) (i : nat) :
  List.NoDup (keys (string_entries i s)).
Proof.
  revert i; induction s as [|c s IH]; intros i; simpl; constructor.
  - change (~ In (index_key i) (keys (string_entries (S i) s))).
    rewrite keys_string_entries. intros (j & Hj & E).
    apply index_key_inj in E. lia.
  - apply IH.
Qed.

Lemma lookup_string_entries (s : string) (i j : nat) :
  lookup_prop (index_key (i + j)) (string_entries i s)
  = option_map VString (JsString.at_index s j).
Proof.
  revert i j; induction s as [|c s IH]; intros i j; simpl.
  - now destruct j.
  - destruct (String.eqb_spec (index_key i) (index_key (i + j))) as [E|Hne].
    + apply index_key_inj in E. assert (j = 0)%nat as -> by lia. reflexivity.
    + destruct j as [|j]; [rewrite Nat.add_0_r in Hne; congruence|].
      replace (i + S j)%nat with (S i + j)%nat by lia.
      rewrite IH. reflexivity.
Qed.

(** ** A primitive as the plain form of a source value (claim C10) *)

Section PrimitivePayload.

Context (options : EncoderOptions).

Let key := key (typeTag options).
Let value := val_of_tag (value (typeTag options)).

(** C10, as amended: when [toPlainObject] returns a primitive [p] for a
    source value, [encode] returns a new object and not [p]: the object
    literal of the tag pair and the spread of [p]. For a [p] that is not
    a string this object holds the tag pair alone; for a string it holds
    the characters under their indices, and the tag pair unless the key
    of the tag is one of these indices. [decode] of a tagged object hands
    [fromPlainObject] an object, never [p]. *)
Theorem C10_primitive_payload (s p : val) (h h1 : heap) :
  isSource options h s = true ->
  toPlainObject options s h = (p, h1) ->
  is_object p = false ->
  let o := object_literal ((key, value) :: spread_entries h1 p) in
  let h2 := h1 ++ [o] in
  encode options s h = Some (VObject (List.length h1), h2)
  /\ ((forall str, p <> VString str) -> props o = [(key, value)])
  /\ (forall str, p = VString str ->
        (forall i, lookup_prop (index_key i) (props o)
                   = match JsString.at_index str i with
                     | Some c => Some (VString c)
                     | None => if String.eqb key (index_key i)
                               then Some value else None
                     end)
        /\ ((forall i, (i < String.length str)%nat -> key <> index_key i) ->
            lookup_prop key (props o) = Some value))
  /\ (is_tagged options h2 (VObject (List.length h1)) = true ->
      exists u h3,
        is_object u = true /\ fresh_in h2 h3 u
        /\ decode options (VObject (List.length h1)) h2
           = Some (fromPlainObject options u h3)).
Proof.
  intros Hs Hto Hp o h2.
  assert (Hspread : forall str, p = VString str ->
            forall k, lookup_prop k (props o)
                      = match lookup_prop k (string_entries 0 str) with
                        | Some v => Some v
                        | None => if String.eqb key k then Some value else None
                        end).
  { intros str -> k. subst o. unfold object_literal. simpl props.
    change (define_all ((key, value) :: string_entries 0 str) [])
      with (define_all (string_entries 0 str) (define_prop key value [])).
    rewrite lookup_define_all by apply NoDup_string_entries.
    destruct (lookup_prop k (string_entries 0 str)); [reflexivity|].
    rewrite lookup_define_prop. now destruct (String.eqb key k). }
  split; [|split; [|split]].
  - unfold encode. rewrite Hs, Hto. unfold replaceObjectKey. rewrite Hp.
    reflexivity.
  - intros Hstr. subst o.
    destruct p as [| | | |str|l]; try reflexivity.
    + now destruct (Hstr str).
    + discriminate Hp.
  - intros str E. split.
    + intros i. rewrite (Hspread str E).
      pose proof (lookup_string_entries str 0 i) as L.
      change (0 + i)%nat with i in L. rewrite L.
      now destruct (JsString.at_index str i).
    + intros Hk. rewrite (Hspread str E).
      destruct (lookup_prop key (string_entries 0 str)) as [v|] eqn:Hv.
      * apply lookup_prop_In in Hv.
        assert (Hin : In key (keys (string_entries 0 str)))
          by (unfold keys; apply in_map_iff; now exists (key, v)).
        apply keys_string_entries in Hin as (j & Hj & E').
        destruct (Hk j); [lia | exact E'].
      * now rewrite String.eqb_refl.
  - intros Ht.
    destruct (decode_tagged options (VObject (List.length h1)) h2 eq_refl Ht)
      as (u & h3 & _ & E & _ & Hfresh).
    exists u, h3. split; [|split; [exact Hfresh | exact E]].
    destruct Hfresh as (l & -> & _). reflexivity.
Qed.

End PrimitivePayload.

(** ** Enumeration order *)

Lemma insert_prop_last (k : string) (v : val) (ps : list (string * val)) :
  forallb (fun e => negb (goes_before k (fst e))) ps = true ->
  insert_prop k v ps = ps ++ [(k, v)].
Proof.
  induction ps as [|[k0 v0] ps IH]; simpl; [reflexivity|].
  intros H. apply andb_prop in H as [H0 H].
  apply negb_true_iff in H0. rewrite H0. now rewrite IH.
Qed.

Lemma ordered_app_last (k : string) (v : val) (ps : list (string * val)) :
  ordered (ps ++ [(k, v)]) = true ->
  forallb (fun e => negb (goes_before k (fst e))) ps = true.
Proof.
  induction ps as [|[k0 v0] ps IH]; simpl; [reflexivity|].
  intros H. apply andb_prop in H as [H0 H].
  rewrite forallb_app in H0. apply andb_prop in H0 as [_ H0].
  simpl in H0. rewrite andb_true_r in H0. rewrite H0. simpl. now apply IH.
Qed.

Lemma keys_app (ps qs : list (string * val)) :
  keys (ps ++ qs) = keys ps ++ keys qs.
Proof. unfold keys. apply map_app. Qed.

(** Defining entries that are new and in order appends them. *)
Lemma define_all_app (es ps : list (string * val)) :
  List.NoDup (keys (ps ++ es)) -> ordered (ps ++ es) = true ->
  define_all es ps = ps ++ es.
Proof.
  revert ps; induction es as [|[k v] es IH]; intros ps Hnd Hord.
  - now rewrite app_nil_r.
  - change (define_all ((k, v) :: es) ps)
      with (define_all es (define_prop k v ps)).
    assert (Hps : define_prop k v ps = ps ++ [(k, v)]).
    { unfold define_prop.
      replace (has_key k ps) with false.
      - apply insert_prop_last, (ordered_app_last k v).
        clear - Hord. revert Hord.
        induction ps as [|[k0 v0] ps IH]; simpl.
        + intros H. apply andb_prop in H as [_ _]. reflexivity.
        + intros H. apply andb_prop in H as [H0 H].
          rewrite forallb_app in H0 |- *. apply andb_prop in H0 as [H1 H2].
          simpl in H2. apply andb_prop in H2 as [H2 _].
          rewrite H1. simpl. rewrite H2. simpl. now apply IH.
      - symmetry. apply not_true_is_false. rewrite has_key_In.
        rewrite keys_app in Hnd. simpl in Hnd.
        apply NoDup_remove_2 in Hnd. intros Hin. apply Hnd.
        apply in_or_app. now left. }
    rewrite Hps. rewrite IH; rewrite <- app_assoc; simpl; auto.
Qed.

Lemma keys_renamed (f : string -> string) (es : list (string * val)) :
  keys (renamed f es) = map f (keys es).
Proof. unfold keys, renamed. rewrite !map_map. reflexivity. Qed.

Lemma NoDup_renamed (f : string -> string) (es : list (string * val)) :
  List.NoDup (keys es) -> renames_cleanly f es ->
  List.NoDup (keys (renamed f es)).
Proof.
  intros Hnd [Hinj _]. rewrite keys_renamed. revert Hnd Hinj.
  generalize (keys es) as ks. induction ks as [|k ks IH]; simpl;
    intros Hnd Hinj; [constructor|].
  inversion Hnd as [|? ? Hk Hnd']; subst. constructor.
  - intros Hin. apply in_map_iff in Hin as (k' & E & Hin).
    assert (k' = k) by (apply Hinj; auto). subst. contradiction.
  - apply IH; [exact Hnd'|]. intros k1 k2 H1 H2. apply Hinj; now right.
Qed.

Lemma filter_not_length (ps : list (string * val)) :
  (forall k, In k (keys ps) -> k <> "length") ->
  List.filter (fun e => negb (String.eqb (fst e) "length")) ps = ps.
Proof.
  induction ps as [|[k v] ps IH]; intros H; [reflexivity|].
  cbn [List.filter fst].
  destruct (String.eqb_spec k "length") as [E|_].
  - destruct (H k); [now left | exact E].
  - cbn [negb]. rewrite IH; [reflexivity|]. intros k' Hk'. apply H. now right.
Qed.

(** Without a property [length] among them, all properties of an object
    are enumerated. *)
Lemma own_entries_all (o : obj) :
  (is_array o = true -> forall k, In k (keys (props o)) -> k <> "length") ->
  own_entries o = props o.
Proof.
  unfold own_entries. destruct (is_array o); [|reflexivity].
  intros H. apply filter_not_length. now apply H.
Qed.

Lemma own_entries_clone (f : string -> string) (es : list (string * val))
    (a : bool) (p : proto) (n : N) :
  a && to_length f es = false ->
  own_entries (mkObj a p (define_all (renamed f es) []) n)
  = define_all (renamed f es) [].
Proof.
  intros H. apply own_entries_all. cbn [is_array props]. intros -> k Hk.
  apply keys_define_all in Hk as [Hk|[]].
  rewrite keys_renamed in Hk. apply in_map_iff in Hk as (k0 & <- & Hk0).
  cbn [andb] in H. now apply (proj1 (to_length_false f es) H).
Qed.

(** [replaceObjectKey] under a clean renaming that keeps the enumeration
    order and renames no key of an array to [length]: when a key changes,
    the result is a new object of the same kind that holds the renamed
    entries in their order. *)
Lemma replaceObjectKey_renamed (f : string -> string) (h : heap)
    (l : loc) (o : obj) :
  h !! l = Some o ->
  List.NoDup (keys (own_entries o)) ->
  renames_cleanly f (own_entries o) ->
  is_array o && to_length f (own_entries o) = false ->
  ordered (renamed f (own_entries o)) = true ->
  replaceObjectKey (VObject l) f h
  = if changes f (own_entries o)
    then Some (VObject (List.length h),
               h ++ [mkObj (is_array o) PBuiltin (renamed f (own_entries o))
                       (if is_array o
                        then dense_length (renamed f (own_entries o))
                        else 0)])
    else Some (VObject l, h).
Proof.
  intros Hl Hnd0 Hc Hlen Hord.
  pose proof (NoDup_renamed f _ Hnd0 Hc) as Hnd. destruct Hc as [_ Hp].
  rewrite replaceObjectKey_unfold
    by now rewrite (entries_lookup _ _ _ Hl), (isArray_lookup _ _ _ Hl).
  rewrite (entries_lookup _ _ _ Hl), (isArray_lookup _ _ _ Hl).
  cbn [is_object andb].
  destruct (changes f (own_entries o)); [|reflexivity].
  rewrite loop_clone_define by exact Hp.
  cbn [is_array prototype props array_length].
  now rewrite define_all_app.
Qed.

Lemma renamed_fixed (f : string -> string) (es : list (string * val)) :
  changes f es = false -> renamed f es = es.
Proof.
  rewrite changes_false. unfold renamed, keys.
  induction es as [|[k v] es IH]; simpl; intros H; [reflexivity|].
  rewrite (H k) by now left. rewrite IH; [reflexivity|].
  intros k' Hin. apply H. now right.
Qed.

(** After a clean renaming that renames no key of an array to [length],
    whether a key changed or not: the result is an object of the same
    kind whose fields are the renamed entries; it is the argument itself,
    or a new object below a built-in prototype. *)
Lemma replaceObjectKey_fields (f : string -> string) (h : heap)
    (l : loc) (o : obj) :
  h !! l = Some o ->
  List.NoDup (keys (own_entries o)) ->
  renames_cleanly f (own_entries o) ->
  is_array o && to_length f (own_entries o) = false ->
  exists r,
    replaceObjectKey (VObject l) f h = Some r
    /\ same_fields (entries (snd r) (fst r)) (renamed f (own_entries o))
    /\ List.NoDup (keys (entries (snd r) (fst r)))
    /\ isArray (snd r) (fst r) = is_array o
    /\ extends h (snd r)
    /\ (r = (VObject l, h) /\ changes f (own_entries o) = false
        \/ exists o', r = (VObject (List.length h), h ++ [o'])
                      /\ prototype o' = PBuiltin).
Proof.
  intros Hl Hnd0 Hc Hlen.
  pose proof (NoDup_renamed f _ Hnd0 Hc) as Hnd. destruct Hc as [_ Hp].
  rewrite replaceObjectKey_unfold
    by now rewrite (entries_lookup _ _ _ Hl), (isArray_lookup _ _ _ Hl).
  rewrite (entries_lookup _ _ _ Hl), (isArray_lookup _ _ _ Hl).
  cbn [is_object andb].
  destruct (changes f (own_entries o)) eqn:Hch;
    eexists; (split; [reflexivity|]); cbn [fst snd].
  - rewrite (entries_lookup _ _ _ (lookup_alloc h _)).
    rewrite (isArray_lookup _ _ _ (lookup_alloc h _)).
    rewrite loop_clone_define by exact Hp.
    cbn [is_array prototype props array_length].
    rewrite (own_entries_clone f _ _ _ _ Hlen).
    split; [intros k; rewrite lookup_define_all by exact Hnd;
            now destruct (lookup_prop k _)|].
    split; [apply NoDup_define_all; exact (List.NoDup_nil _)|].
    split; [reflexivity|]. split; [apply extends_alloc|].
    right. eexists. split; reflexivity.
  - rewrite (entries_lookup _ _ _ Hl), (isArray_lookup _ _ _ Hl).
    rewrite (renamed_fixed f _ Hch) in *.
    split; [intros k; reflexivity|]. split; [exact Hnd|].
    split; [reflexivity|]. split; [apply extends_refl|]. now left.
Qed.

Lemma In_renamed (f : string -> string) (es : list (string * val))
    (k : string) (v : val) :
  In (k, v) es -> In (f k, v) (renamed f es).
Proof.
  intros Hin. unfold renamed. apply in_map_iff. now exists (k, v).
Qed.

(** ** Encoding a source value *)

Section EncodeSource.

Context (options : EncoderOptions).

Let key := key (typeTag options).
Let value := val_of_tag (value (typeTag options)).

Lemma encode_source (s p : val) (h h1 : heap) (r : val * heap) :
  isSource options h s = true ->
  toPlainObject options s h = (p, h1) ->
  replaceObjectKey p (prependEscapeChar options) h1 = Some r ->
  encode options s h
  = Some (VObject (List.length (snd r)),
          snd r ++ [object_literal
                      ((key, value) :: spread_entries (snd r) (fst r))]).
Proof.
  intros Hs Hto Hr. unfold encode. rewrite Hs, Hto, Hr. now destruct r.
Qed.

(** The object that [encode] returns for a source value whose plain form
    is the object [o]: a new object that is not an array and holds the
    enumerable entries of [o] under their escaped keys and, under any
    other key than these, the tag. *)
Lemma encode_source_fields (s : val) (h h1 : heap) (l : loc) (o : obj) :
  isSource options h s = true ->
  toPlainObject options s h = (VObject l, h1) ->
  h1 !! l = Some o ->
  List.NoDup (keys (own_entries o)) ->
  renames_cleanly (prependEscapeChar options) (own_entries o) ->
  is_array o && to_length (prependEscapeChar options) (own_entries o)
  = false ->
  exists h2 t,
    encode options s h = Some (VObject (List.length h2), h2 ++ [t])
    /\ extends h1 h2
    /\ is_array t = false /\ prototype t = PBuiltin
    /\ List.NoDup (keys (props t))
    /\ forall k,
         lookup_prop k (props t)
         = match lookup_prop k (renamed (prependEscapeChar options)
                                        (own_entries o)) with
           | Some v => Some v
           | None => if String.eqb key k then Some value else None
           end.
Proof.
  intros Hs Hto Hl Hnd0 Hc Hlen.
  destruct (replaceObjectKey_fields _ h1 l o Hl Hnd0 Hc Hlen)
    as (r & Er & He & Hnd & _ & Hext & Hr).
  rewrite (encode_source s (VObject l) h h1 r Hs Hto Er).
  exists (snd r). eexists. split; [reflexivity|].
  split; [exact Hext|]. split; [reflexivity|]. split; [reflexivity|].
  assert (Hsp : spread_entries (snd r) (fst r) = entries (snd r) (fst r)).
  { destruct Hr as [[-> _]|(o' & -> & _)]; reflexivity. }
  rewrite Hsp. unfold object_literal.
  change (props (mkObj false PBuiltin
            (define_all ((key, value) :: entries (snd r) (fst r)) []) 0))
    with (define_all (entries (snd r) (fst r)) (define_prop key value [])).
  split; [apply NoDup_define_all, NoDup_define_prop; exact (List.NoDup_nil _)|].
  intros k.
  rewrite lookup_define_all by exact Hnd. rewrite (He k).
  destruct (lookup_prop k _); [reflexivity|].
  rewrite lookup_define_prop. now destruct (String.eqb key k).
Qed.

End EncodeSource.

(** ** Fields under renaming *)

Lemma lookup_prop_keys (k : string) (ps : list (string * val)) :
  In k (keys ps) <-> exists v, lookup_prop k ps = Some v.
Proof.
  pose proof (lookup_prop_None k ps) as H.
  destruct (lookup_prop k ps) as [v|] eqn:E.
  - split; [now exists v|]. intros _.
    destruct (in_dec string_dec k (keys ps)) as [|Hn]; [assumption|].
    apply H in Hn. discriminate.
  - split; [|intros [v [=]]]. intros Hin. now apply H in Hin.
Qed.

Lemma same_fields_keys (ps qs : list (string * val)) (k : string) :
  same_fields ps qs -> In k (keys ps) <-> In k (keys qs).
Proof. intros H. rewrite !lookup_prop_keys. now rewrite (H k). Qed.

Lemma same_fields_sym (ps qs : list (string * val)) :
  same_fields ps qs -> same_fields qs ps.
Proof. intros H k. symmetry. apply H. Qed.

Lemma same_fields_trans (ps qs rs : list (string * val)) :
  same_fields ps qs -> same_fields qs rs -> same_fields ps rs.
Proof. intros H1 H2 k. now rewrite (H1 k). Qed.

Lemma renames_cleanly_same_fields (f : string -> string)
    (ps qs : list (string * val)) :
  same_fields ps qs -> renames_cleanly f ps -> renames_cleanly f qs.
Proof.
  intros Hs [Hinj Hp]. split.
  - intros k1 k2 H1 H2. apply Hinj; now apply (same_fields_keys ps qs).
  - intros k Hk. apply Hp. now apply (same_fields_keys ps qs).
Qed.

Lemma lookup_renamed_Some (f : string -> string) (es : list (string * val))
    (k : string) (v : val) :
  List.NoDup (keys es) -> renames_cleanly f es ->
  lookup_prop k es = Some v -> lookup_prop (f k) (renamed f es) = Some v.
Proof.
  intros Hnd Hc Hk. apply In_lookup_prop.
  - now apply NoDup_renamed.
  - apply In_renamed. now apply lookup_prop_In.
Qed.

Lemma lookup_renamed_inv (f : string -> string) (es : list (string * val))
    (k' : string) (v : val) :
  lookup_prop k' (renamed f es) = Some v ->
  exists k, f k = k' /\ In (k, v) es.
Proof.
  intros H. apply lookup_prop_In in H. unfold renamed in H.
  apply in_map_iff in H as ([k v0] & [= <- <-] & Hin). now exists k.
Qed.

(** Lists with the same fields have the same fields after a clean
    renaming. *)
Lemma same_fields_renamed (f : string -> string) (ps qs : list (string * val)) :
  List.NoDup (keys ps) -> List.NoDup (keys qs) ->
  same_fields ps qs -> renames_cleanly f ps ->
  same_fields (renamed f ps) (renamed f qs).
Proof.
  intros Hps Hqs Hs Hc k'.
  pose proof (renames_cleanly_same_fields f ps qs Hs Hc) as Hc'.
  destruct (lookup_prop k' (renamed f ps)) as [v|] eqn:E.
  - apply lookup_renamed_inv in E as (k & <- & Hin).
    symmetry. apply lookup_renamed_Some; try assumption.
    rewrite <- (Hs k). now apply In_lookup_prop.
  - destruct (lookup_prop k' (renamed f qs)) as [v|] eqn:E'; [|reflexivity].
    apply lookup_renamed_inv in E' as (k & <- & Hin).
    rewrite (lookup_renamed_Some f ps k v) in E; try assumption; [discriminate|].
    rewrite (Hs k). now apply In_lookup_prop.
Qed.

Lemma renamed_renamed (f g : string -> string) (es : list (string * val)) :
  renamed g (renamed f es) = renamed (fun k => g (f k)) es.
Proof. unfold renamed. rewrite map_map. reflexivity. Qed.

Lemma renamed_ext (f g : string -> string) (es : list (string * val)) :
  (forall k, In k (keys es) -> f k = g k) -> renamed f es = renamed g es.
Proof.
  intros H. unfold renamed. apply map_ext_in. intros [k v] Hin. simpl.
  rewrite H; [reflexivity|]. unfold keys. apply in_map_iff. now exists (k, v).
Qed.

Lemma renamed_id (es : list (string * val)) : renamed (fun k => k) es = es.
Proof.
  unfold renamed. rewrite <- (map_id es) at 2. apply map_ext.
  now intros [k v].
Qed.

(** ** Decoding a tagged object *)

Section DecodeTagged.

Context (options : EncoderOptions).

Let key := key (typeTag options).

(** What [fromPlainObject] receives for the tagged object [t]: a new
    object that is not an array and whose fields are the enumerable ones
    of [t] without the tag, under their unescaped keys. *)
Lemma decode_tagged_fields (h : heap) (l : loc) (t : obj) :
  h !! l = Some t ->
  List.NoDup (keys (own_entries t)) ->
  is_tagged options h (VObject l) = true ->
  renames_cleanly (removePrependedEscapeChar options)
                  (delete_prop key (own_entries t)) ->
  exists u h2 o',
    decode options (VObject l) h
    = Some (fromPlainObject options (VObject u) h2)
    /\ extends h h2 /\ (List.length h <= u)%nat
    /\ h2 !! u = Some o'
    /\ is_array o' = false /\ prototype o' = PBuiltin
    /\ same_fields (props o')
         (renamed (removePrependedEscapeChar options)
                  (delete_prop key (own_entries t))).
Proof.
  intros Hl Hnd Ht Hc.
  destruct (decode_tagged options (VObject l) h eq_refl Ht)
    as (u & h2 & Er & E & _ & _).
  change (spread_entries h (VObject l)) with (entries h (VObject l)) in Er.
  rewrite (entries_lookup _ _ _ Hl) in Er.
  unfold object_literal, with_props in Er.
  cbn [is_array prototype props array_length] in Er. fold key in Er.
  set (stripped := delete_prop key (define_all (own_entries t) [])) in *.
  set (h1 := h ++ [mkObj false PBuiltin stripped 0]) in *.
  assert (Hsame : same_fields (delete_prop key (own_entries t)) stripped).
  { intros k. subst stripped. rewrite !lookup_delete_prop.
    destruct (String.eqb key k); [reflexivity|].
    rewrite lookup_define_all by exact Hnd.
    now destruct (lookup_prop k (own_entries t)). }
  assert (Hnd1 : List.NoDup (keys (delete_prop key (own_entries t))))
    by now apply NoDup_delete_prop.
  assert (Hnd2 : List.NoDup (keys stripped)).
  { apply NoDup_delete_prop, NoDup_define_all. exact (List.NoDup_nil _). }
  pose proof (renames_cleanly_same_fields _ _ _ Hsame Hc) as Hc2.
  assert (Hl1 : h1 !! List.length h = Some (mkObj false PBuiltin stripped 0))
    by apply lookup_alloc.
  destruct (replaceObjectKey_fields (removePrependedEscapeChar options)
              h1 (List.length h) _ Hl1 Hnd2 Hc2 eq_refl)
    as (r & Er' & Hf & _ & Harr & Hext & Hr).
  rewrite Er in Er'. injection Er' as <-. cbn [fst snd] in *.
  change (own_entries (mkObj false PBuiltin stripped 0)) with stripped in Hf.
  assert (Hfin : same_fields (renamed (removePrependedEscapeChar options) stripped)
                   (renamed (removePrependedEscapeChar options)
                            (delete_prop key (own_entries t)))).
  { apply same_fields_sym, same_fields_renamed; assumption. }
  destruct Hr as [[[= -> ->] _]|(o' & [= -> ->] & Hproto)].
  - exists (List.length h), h1, (mkObj false PBuiltin stripped 0).
    split; [exact E|]. split; [apply extends_alloc|]. split; [lia|].
    split; [exact Hl1|]. split; [reflexivity|]. split; [reflexivity|].
    rewrite (entries_lookup _ _ _ Hl1) in Hf.
    eapply same_fields_trans; [exact Hf | exact Hfin].
  - exists (List.length h1), (h1 ++ [o']), o'.
    split; [exact E|].
    split; [eapply extends_trans; [apply extends_alloc | exact Hext]|].
    split; [subst h1; rewrite length_app; lia|].
    split; [apply lookup_alloc|].
    rewrite (isArray_lookup _ _ _ (lookup_alloc h1 o')) in Harr.
    split; [exact Harr|]. split; [exact Hproto|].
    rewrite (entries_lookup _ _ _ (lookup_alloc h1 o')) in Hf.
    rewrite (own_entries_plain o' Harr) in Hf.
    eapply same_fields_trans; [exact Hf | exact Hfin].
Qed.

End DecodeTagged.

(** ** Round trip (claim C1) *)

Lemma strict_eq_tag (t : TypeTag) :
  tag_is_NaN t = false ->
  strict_eq (val_of_tag (value t)) (val_of_tag (value t)) = true.
Proof.
  unfold tag_is_NaN. destruct (value t) as [s|[|z]|]; simpl; intros H.
  - apply String.eqb_refl.
  - discriminate.
  - apply Z.eqb_refl.
  - reflexivity.
Qed.

Section RoundTrip.

Context (options : EncoderOptions).

Let key := key (typeTag options).
Let value := val_of_tag (value (typeTag options)).
Let escapeCharacter := escapeCharacter (typeTag options).

Context (c : ascii).
Hypothesis key_not_empty : key <> EmptyString.
Hypothesis escape_single : escapeCharacter = String c EmptyString.
Hypothesis value_not_NaN : tag_is_NaN (typeTag options) = false.

Lemma prepend_renames_cleanly (es : list (string * val)) :
  (forall k, In k (keys es) -> prependEscapeChar options k <> "__proto__") ->
  renames_cleanly (prependEscapeChar options) es.
Proof.
  intros Hp. split; [|exact Hp].
  intros k1 k2 _ _. now apply (prependEscapeChar_inj options c).
Qed.

Lemma remove_renames_cleanly (es : list (string * val)) :
  (forall k, In k (keys es) -> k <> "__proto__") ->
  renames_cleanly (removePrependedEscapeChar options)
                  (renamed (prependEscapeChar options) es).
Proof.
  intros Hp. split.
  - intros k1 k2 H1 H2. rewrite keys_renamed in H1, H2.
    apply in_map_iff in H1 as (a & <- & _).
    apply in_map_iff in H2 as (b & <- & _).
    rewrite !(remove_prepend options c) by assumption. now intros ->.
  - intros k Hk. rewrite keys_renamed in Hk.
    apply in_map_iff in Hk as (a & <- & Ha).
    rewrite (remove_prepend options c) by assumption. now apply Hp.
Qed.

Lemma lookup_key_escaped (es : list (string * val)) :
  lookup_prop key (renamed (prependEscapeChar options) es) = None.
Proof.
  destruct (lookup_prop key _) as [v|] eqn:E; [|reflexivity].
  apply lookup_renamed_inv in E as (k & E & _).
  now apply (prependEscapeChar_not_key options c) in E.
Qed.

(** The fields come back: [encode] of a source value whose plain form is
    the object [o], followed by [decode], hands [fromPlainObject] a new
    plain object with the enumerable fields of [o]. *)
Lemma round_trip_fields (s : val) (h h1 : heap) (l : loc) (o : obj) :
  isSource options h s = true ->
  toPlainObject options s h = (VObject l, h1) ->
  h1 !! l = Some o ->
  List.NoDup (keys (own_entries o)) ->
  (forall k, In k (keys (own_entries o)) ->
     k <> "__proto__" /\ prependEscapeChar options k <> "__proto__") ->
  (is_array o = true ->
   forall k, In k (keys (own_entries o)) ->
     prependEscapeChar options k <> "length") ->
  exists e u h3 o',
    encode options s h = Some e
    /\ decode options (fst e) (snd e)
       = Some (fromPlainObject options (VObject u) h3)
    /\ extends h1 h3 /\ (List.length h1 <= u)%nat
    /\ h3 !! u = Some o'
    /\ is_array o' = false /\ prototype o' = PBuiltin
    /\ same_fields (props o') (own_entries o).
Proof.
  intros Hs Hto Hl Hnd Hkeys Hlength.
  assert (Hc1 : renames_cleanly (prependEscapeChar options) (own_entries o))
    by (apply prepend_renames_cleanly; intros k Hk; now apply Hkeys).
  assert (Hlen : is_array o
                 && to_length (prependEscapeChar options) (own_entries o)
                 = false).
  { destruct (is_array o); [|reflexivity]. cbn [andb].
    apply to_length_false. now apply Hlength. }
  destruct (encode_source_fields options s h h1 l o Hs Hto Hl Hnd Hc1 Hlen)
    as (h2 & t & Henc & Hext & Hplain & _ & Hndt & Hlook).
  eexists. 
  set (es := renamed (prependEscapeChar options) (own_entries o)) in *.
  pose proof (lookup_key_escaped (own_entries o)) as Hkey. fold es in Hkey.
  assert (Hlt : (h2 ++ [t]) !! List.length h2 = Some t) by apply lookup_alloc.
  assert (Htag : is_tagged options (h2 ++ [t]) (VObject (List.length h2)) = true).
  { unfold is_tagged. rewrite (js_get_own _ _ t _ value Hlt).
    - now apply strict_eq_tag.
    - rewrite (own_get_plain t _ Hplain).
      fold key. rewrite (Hlook key), Hkey. now rewrite String.eqb_refl. }
  assert (Hsame : same_fields es (delete_prop key (props t))).
  { intros k. rewrite lookup_delete_prop, (Hlook k).
    fold key.
    destruct (String.eqb_spec key k) as [<-|Hne]; [exact Hkey|].
    now destruct (lookup_prop k es). }
  assert (Hndes : List.NoDup (keys es)) by now apply NoDup_renamed.
  assert (Hc2 : renames_cleanly (removePrependedEscapeChar options) es)
    by (apply remove_renames_cleanly; intros k Hk; now apply Hkeys).
  pose proof (renames_cleanly_same_fields _ _ _ Hsame Hc2) as Hc3.
  rewrite <- (own_entries_plain t Hplain) in Hndt, Hc3.
  destruct (decode_tagged_fields options (h2 ++ [t]) (List.length h2) t
              Hlt Hndt Htag Hc3)
    as (u & h3 & o' & Hdec & Hext3 & Hu & Hlu & Harr & Hproto & Hf).
  rewrite (own_entries_plain t Hplain) in Hf, Hndt.
  exists u, h3, o'. split; [exact Henc|]. split; [exact Hdec|].
  split; [eapply extends_trans; [exact Hext|];
          eapply extends_trans; [apply extends_alloc | exact Hext3]|].
  split; [apply extends_length in Hext; rewrite length_app in Hu; lia|].
  split; [exact Hlu|]. split; [exact Harr|]. split; [exact Hproto|].
  eapply same_fields_trans; [exact Hf|].
  eapply same_fields_trans.
  - apply same_fields_sym, same_fields_renamed; try eassumption.
    now apply NoDup_delete_prop.
  - subst es. rewrite renamed_renamed.
    rewrite (renamed_ext _ (fun k => k)), renamed_id; [intros k; reflexivity|].
    intros k _. now apply (remove_prepend options c).
Qed.

(** C1, as amended: under a tag with a key that is not empty, an escape
    character that is one character and a value that is not [NaN], for a
    source value [s] whose plain form is an object [o] with distinct
    keys, none of which is or becomes [__proto__] when escaped and, when
    [o] is an array, none of which becomes [length] when escaped:
    [encode s] returns, [decode] of its result returns, and what it
    returns is what [fromPlainObject] returns for a new plain object,
    not an array, with exactly the enumerable fields of [o]; it is
    therefore observationally equal to [s] whenever [fromPlainObject]
    rebuilds [s] from every such object. *)
Theorem C1_round_trip (s : val) (h h1 : heap) (l : loc) (o : obj) :
  isSource options h s = true ->
  toPlainObject options s h = (VObject l, h1) ->
  h1 !! l = Some o ->
  List.NoDup (keys (own_entries o)) ->
  (forall k, In k (keys (own_entries o)) ->
     k <> "__proto__" /\ prependEscapeChar options k <> "__proto__") ->
  (is_array o = true ->
   forall k, In k (keys (own_entries o)) ->
     prependEscapeChar options k <> "length") ->
  exists e r,
    encode options s h = Some e
    /\ decode options (fst e) (snd e) = Some r
    /\ (exists u h3 o',
          r = fromPlainObject options (VObject u) h3
          /\ extends h1 h3 /\ (List.length h1 <= u)%nat
          /\ h3 !! u = Some o'
          /\ is_array o' = false /\ prototype o' = PBuiltin
          /\ same_fields (props o') (own_entries o))
    /\ ((forall u h3 o',
           extends h1 h3 -> h3 !! u = Some o' ->
           is_array o' = false -> prototype o' = PBuiltin ->
           same_fields (props o') (own_entries o) ->
           obs_eq h s (snd (fromPlainObject options (VObject u) h3))
                      (fst (fromPlainObject options (VObject u) h3))) ->
        obs_eq h s (snd r) (fst r)).
Proof.
  intros Hs Hto Hl Hnd Hkeys Hlength.
  destruct (round_trip_fields s h h1 l o Hs Hto Hl Hnd Hkeys Hlength)
    as (e & u & h3 & o' & Ee & E & Hext & Hu & Hlu & Harr & Hproto & Hf).
  exists e, (fromPlainObject options (VObject u) h3).
  split; [exact Ee|]. split; [exact E|]. split.
  - exists u, h3, o'. repeat (split; [assumption || reflexivity|]). assumption.
  - intros Hinv. now apply (Hinv u h3 o').
Qed.

End RoundTrip.

(** ** Arrays (claim C7) *)

Section Arrays.

Context (options : EncoderOptions).

Lemma encode_source_not_array (s p : val) (h h1 : heap) (r : val * heap) :
  isSource options h s = true ->
  toPlainObject options s h = (p, h1) ->
  encode options s h = Some r ->
  is_object (fst r) = true /\ isArray (snd r) (fst r) = false.
Proof.
  intros Hs Hto. unfold encode. rewrite Hs, Hto.
  destruct (replaceObjectKey p (prependEscapeChar options) h1)
    as [[e h2]|]; [|discriminate].
  intros [= <-]. cbn [fst snd]. split; [reflexivity|].
  now rewrite (isArray_lookup _ _ _ (lookup_alloc _ _)).
Qed.

(** The renaming of the keys of an array returns an array. *)
Lemma replaceObjectKey_array (arg : val) (f : string -> string) (h : heap)
    (r : val * heap) :
  replaceObjectKey arg f h = Some r ->
  isArray (snd r) (fst r) = isArray h arg.
Proof.
  intros E.
  destruct (replaceObjectKey_result _ _ _ _ E) as [->|(o' & -> & Harr)];
    cbn [fst snd]; [reflexivity|].
  now rewrite (isArray_lookup _ _ _ (lookup_alloc _ _)).
Qed.

Lemma decode_tagged_not_array (arg : val) (h : heap) :
  is_object arg = true ->
  is_tagged options h arg = true ->
  exists u h2,
    is_object u = true /\ isArray h2 u = false
    /\ decode options arg h = Some (fromPlainObject options u h2).
Proof.
  intros Ho Ht.
  destruct (decode_tagged options arg h Ho Ht)
    as (u & h2 & Er & E & _ & (l & -> & _)).
  exists (VObject l), h2. split; [reflexivity|]. split; [|exact E].
  apply replaceObjectKey_array in Er. cbn [fst snd] in Er. rewrite Er.
  now rewrite (isArray_lookup _ _ _ (lookup_alloc _ _)).
Qed.

(** C7, as amended, for an array [o] with distinct keys. Escaping and
    unescaping keep an array an array: what [encode] of an array that is
    not a source value and [decode] of an untagged array return is an
    array. When the renaming sends distinct keys of the array to distinct
    keys, none of them to [__proto__] or to [length], and leaves the
    renamed keys in enumeration order, they return the array itself or a
    new array that holds the renamed entries in their order. Inserting
    and removing the tag do not keep an array an array: [encode] of a
    source value whose plain form is the array returns an object that is
    not an array, which holds the entries of the array under their
    escaped keys when escaping sends its keys to distinct keys, none of
    them [__proto__] or [length], and [decode] of a tagged array hands
    [fromPlainObject] an object that is not an array. *)
Theorem C7_arrays (h : heap) (l : loc) (o : obj) :
  h !! l = Some o ->
  is_array o = true ->
  List.NoDup (keys (own_entries o)) ->
  let es := own_entries o in
  (isSource options h (VObject l) = false ->
   forall r, encode options (VObject l) h = Some r ->
             isArray (snd r) (fst r) = true)
  /\ (is_tagged options h (VObject l) = false ->
      forall r, decode options (VObject l) h = Some r ->
                isArray (snd r) (fst r) = true)
  /\ (isSource options h (VObject l) = false ->
      renames_cleanly (prependEscapeChar options) es ->
      to_length (prependEscapeChar options) es = false ->
      ordered (renamed (prependEscapeChar options) es) = true ->
      encode options (VObject l) h
      = if changes (prependEscapeChar options) es
        then Some (VObject (List.length h),
                   h ++ [array (renamed (prependEscapeChar options) es)])
        else Some (VObject l, h))
  /\ (is_tagged options h (VObject l) = false ->
      renames_cleanly (removePrependedEscapeChar options) es ->
      to_length (removePrependedEscapeChar options) es = false ->
      ordered (renamed (removePrependedEscapeChar options) es) = true ->
      decode options (VObject l) h
      = if changes (removePrependedEscapeChar options) es
        then Some (VObject (List.length h),
                   h ++ [array (renamed (removePrependedEscapeChar options)
                                        es)])
        else Some (VObject l, h))
  /\ (forall s h0 r,
        isSource options h0 s = true ->
        toPlainObject options s h0 = (VObject l, h) ->
        encode options s h0 = Some r ->
        is_object (fst r) = true /\ isArray (snd r) (fst r) = false
        /\ (renames_cleanly (prependEscapeChar options) es ->
            to_length (prependEscapeChar options) es = false ->
            forall k v, In (k, v) es ->
              lookup_prop (prependEscapeChar options k)
                          (entries (snd r) (fst r)) = Some v))
  /\ (is_tagged options h (VObject l) = true ->
      exists u h2,
        is_object u = true /\ isArray h2 u = false
        /\ decode options (VObject l) h
           = Some (fromPlainObject options u h2)).
Proof.
  intros Hl Harr Hnd es.
  assert (Ha : isArray h (VObject l) = true)
    by now rewrite (isArray_lookup _ _ _ Hl).
  split; [|split; [|split; [|split; [|split]]]].
  - intros Hs r E. rewrite encode_not_source in E by exact Hs.
    now rewrite (replaceObjectKey_array _ _ _ _ E).
  - intros Ht r E. rewrite decode_not_tagged in E by exact Ht.
    now rewrite (replaceObjectKey_array _ _ _ _ E).
  - intros Hs Hc Hlen Hord. rewrite encode_not_source by exact Hs.
    rewrite (replaceObjectKey_renamed _ h l o Hl Hnd Hc); [now rewrite Harr| |];
      [now rewrite Harr | exact Hord].
  - intros Ht Hc Hlen Hord. rewrite decode_not_tagged by exact Ht.
    rewrite (replaceObjectKey_renamed _ h l o Hl Hnd Hc); [now rewrite Harr| |];
      [now rewrite Harr | exact Hord].
  - intros s h0 r Hs Hto E.
    destruct (encode_source_not_array s (VObject l) h0 h r Hs Hto E)
      as [H1 H2].
    split; [exact H1|]. split; [exact H2|].
    intros Hc Hlen0 k v Hin.
    assert (Hlen : is_array o
                   && to_length (prependEscapeChar options) (own_entries o)
                   = false) by now rewrite Harr.
    destruct (encode_source_fields options s h0 h l o Hs Hto Hl Hnd Hc Hlen)
      as (h2 & t & Henc & _ & Hplain & _ & _ & Hlook).
    rewrite Henc in E. injection E as <-. cbn [fst snd].
    rewrite (entries_lookup _ _ _ (lookup_alloc _ _)).
    rewrite (own_entries_plain t Hplain), Hlook.
    rewrite (lookup_renamed_Some _ _ k v Hnd Hc); [reflexivity|].
    now apply In_lookup_prop.
  - intros Ht. now apply decode_tagged_not_array.
Qed.

End Arrays.

(** * Further properties of the engine *)

(** ** The escape count, structurally *)

Lemma length_escapes (c : ascii) (n : nat) : String.length (escapes c n) = n.
Proof. induction n as [|n IH]; simpl; [reflexivity | now rewrite IH]. Qed.

Lemma substring_empty (n m : nat) :
  String.substring n m EmptyString = EmptyString.
Proof. destruct n, m; reflexivity. Qed.

(** A tag-shaped key, in the words of the specification, is a run of
    escape characters followed by the key of the tag. *)
Lemma tag_shaped_decompose (key : string) (c : ascii) (k : string) :
  tag_shaped key (String c EmptyString) k = true ->
  k = String.append (escapes c (Z.to_nat (shape_count key k))) key.
Proof.
  induction k as [|a k IH]; intros Hs.
  - unfold tag_shaped, shape_count, trailing, JsString.len in *.
    apply andb_prop in Hs as [Hs _]. apply andb_prop in Hs as [Hn Ht].
    rewrite substring_empty in Ht. apply String.eqb_eq in Ht. subst key.
    reflexivity.
  - pose proof Hs as Hs0.
    unfold tag_shaped, shape_count, trailing, JsString.len in Hs |- *.
    apply andb_prop in Hs as [Hs Hall]. apply andb_prop in Hs as [Hn Ht].
    apply Z.leb_le in Hn. apply String.eqb_eq in Ht.
    simpl String.length in *.
    destruct (Z.to_nat (Z.of_nat (S (String.length k))
                        - Z.of_nat (String.length key))) as [|m] eqn:Em.
    + replace (S (String.length k) - String.length key)%nat with 0%nat in Ht
        by lia.
      replace (String.length key) with (String.length (String a k)) in Ht
        by (simpl; lia).
      rewrite substring_whole in Ht. now rewrite Ht.
    + simpl in Hall. apply andb_prop in Hall as [H0 Hall].
      unfold is_escape_at, JsString.at_index in H0. simpl String.get in H0.
      apply String.eqb_eq in H0. injection H0 as ->.
      rewrite is_escape_at_shift in Hall.
      assert (Hk : tag_shaped key (String c EmptyString) k = true).
      { unfold tag_shaped, shape_count, trailing, JsString.len.
        replace (Z.to_nat (Z.of_nat (String.length k)
                           - Z.of_nat (String.length key))) with m by lia.
        rewrite Hall, andb_true_r.
        replace (S (String.length k) - String.length key)%nat
          with (S (String.length k - String.length key)) in Ht by lia.
        simpl String.substring in Ht. rewrite Ht, String.eqb_refl.
        rewrite andb_true_r. apply Z.leb_le. lia. }
      apply IH in Hk. unfold shape_count, JsString.len in Hk.
      replace (Z.to_nat (Z.of_nat (String.length k)
                         - Z.of_nat (String.length key))) with m in Hk by lia.
      simpl escapes. rewrite append_cons. now rewrite <- Hk.
Qed.

Section EscapeCount.

Context (options : EncoderOptions).

Let key := key (typeTag options).
Let escapeCharacter := escapeCharacter (typeTag options).

Context (c : ascii).
Hypothesis key_not_empty : key <> EmptyString.
Hypothesis escape_single : escapeCharacter = String c EmptyString.

Lemma tag_shaped_escapes (n : nat) :
  tag_shaped key escapeCharacter (String.append (escapes c n) key) = true.
Proof.
  induction n as [|n IH]; [apply tag_shaped_key|].
  simpl escapes. rewrite append_cons.
  pose proof (tag_shaped_prepend options c escape_single _ IH) as H.
  unfold escaped_shaped in H. fold key escapeCharacter in H.
  now apply andb_prop in H as [_ H].
Qed.

Lemma count_escapes (n : nat) :
  getEscapeCharCount options (String.append (escapes c n) key) = Z.of_nat n.
Proof.
  rewrite getEscapeCharCount_shape by exact key_not_empty.
  fold key escapeCharacter. rewrite tag_shaped_escapes.
  unfold shape_count, JsString.len.
  rewrite length_append, length_escapes. lia.
Qed.

Lemma count_decompose (str : string) :
  0 <= getEscapeCharCount options str ->
  str = String.append
          (escapes c (Z.to_nat (getEscapeCharCount options str))) key.
Proof.
  intros Hn.
  destruct (getEscapeCharCount_shaped options str) as [Hs Hc]; [lia|].
  rewrite Hc. fold key escapeCharacter in Hs. rewrite escape_single in Hs.
  now apply tag_shaped_decompose.
Qed.

(** X1: with a key that is not empty and an escape character that is one
    character, [getEscapeCharCount] returns [n] for [n] escape characters
    followed by the key, and every string for which it returns a count
    [n >= 0] is made of [n] escape characters followed by the key. *)
Theorem X1_escape_count_decomposition :
  (forall n : nat,
     getEscapeCharCount options (String.append (escapes c n) key)
     = Z.of_nat n)
  /\ (forall str : string,
        0 <= getEscapeCharCount options str ->
        str = String.append
                (escapes c (Z.to_nat (getEscapeCharCount options str))) key).
Proof. split; [exact count_escapes | exact count_decompose]. Qed.

End EscapeCount.

(** ** Escaping and unescaping as functions on keys *)

Section KeyRoundTrips.

Context (options : EncoderOptions).

Let key := key (typeTag options).
Let escapeCharacter := escapeCharacter (typeTag options).

Context (c : ascii).
Hypothesis key_not_empty : key <> EmptyString.
Hypothesis escape_single : escapeCharacter = String c EmptyString.

Lemma prepend_escapes (n : nat) :
  prependEscapeChar options (String.append (escapes c n) key)
  = String.append (escapes c (S n)) key.
Proof.
  unfold prependEscapeChar.
  rewrite (count_escapes options c key_not_empty escape_single).
  destruct (Z.eqb_spec (Z.of_nat n) (-1)); [lia|].
  fold escapeCharacter. now rewrite escape_single.
Qed.

Lemma remove_escapes (n : nat) :
  removePrependedEscapeChar options (String.append (escapes c (S n)) key)
  = String.append (escapes c n) key.
Proof.
  unfold removePrependedEscapeChar.
  rewrite (count_escapes options c key_not_empty escape_single).
  destruct (Z.ltb_spec 0 (Z.of_nat (S n))); [|lia].
  simpl escapes. rewrite append_cons. apply slice_one_cons.
Qed.

Lemma count_prepend (k : string) :
  0 <= getEscapeCharCount options k ->
  getEscapeCharCount options (prependEscapeChar options k)
  = getEscapeCharCount options k + 1.
Proof.
  intros Hn.
  rewrite (count_decompose options c escape_single k Hn) at 1.
  rewrite prepend_escapes.
  rewrite (count_escapes options c key_not_empty escape_single). lia.
Qed.

(** X2: with a key that is not empty and an escape character that is one
    character, unescaping undoes escaping on every key, so that escaping
    is injective, and no escaped key is the key of the tag. *)
Theorem X2_unescape_undoes_escape :
  (forall k, removePrependedEscapeChar options (prependEscapeChar options k)
             = k)
  /\ (forall k1 k2,
        prependEscapeChar options k1 = prependEscapeChar options k2 ->
        k1 = k2)
  /\ (forall k, prependEscapeChar options k <> key).
Proof.
  split; [|split].
  - intros k. now apply (remove_prepend options c).
  - intros k1 k2. now apply (prependEscapeChar_inj options c).
  - intros k. now apply (prependEscapeChar_not_key options c).
Qed.

(** X3: with a key that is not empty and an escape character that is one
    character, escaping composes: [n] escapings followed by [n]
    unescapings give the key back, and each escaping of a tag-shaped key
    adds one to its escape count. *)
Theorem X3_escaping_depth (n : nat) (k : string) :
  Nat.iter n (removePrependedEscapeChar options)
    (Nat.iter n (prependEscapeChar options) k) = k
  /\ (0 <= getEscapeCharCount options k ->
      getEscapeCharCount options (Nat.iter n (prependEscapeChar options) k)
      = getEscapeCharCount options k + Z.of_nat n).
Proof.
  split.
  - induction n as [|n IH]; [reflexivity|].
    rewrite Nat.iter_succ_r. simpl Nat.iter.
    rewrite (remove_prepend options c) by assumption. exact IH.
  - intros Hn. induction n as [|n IH]; [simpl; lia|].
    simpl Nat.iter. rewrite count_prepend by lia. lia.
Qed.

(** X4: with a key that is not empty and an escape character that is one
    character, the other way round: escaping undoes unescaping on the
    keys that unescaping changes, those with a positive escape count. The
    key of the tag itself, which unescaping leaves alone, is escaped:
    [decode] followed by [encode] does not give an entry of that key its
    name back. *)
Theorem X4_escape_after_unescape :
  (forall k, 0 < getEscapeCharCount options k ->
             prependEscapeChar options (removePrependedEscapeChar options k)
             = k)
  /\ prependEscapeChar options (removePrependedEscapeChar options key)
     = String.append escapeCharacter key
  /\ removePrependedEscapeChar options (String.append escapeCharacter key)
     = removePrependedEscapeChar options key.
Proof.
  assert (Hkey : removePrependedEscapeChar options key = key).
  { apply removePrependedEscapeChar_other.
    unfold escaped_shaped, shape_count. now rewrite Z.sub_diag. }
  split; [|split].
  - intros k Hn.
    rewrite (count_decompose options c escape_single k) by lia.
    destruct (Z.to_nat (getEscapeCharCount options k)) as [|m] eqn:Em; [lia|].
    rewrite remove_escapes. apply prepend_escapes.
  - rewrite Hkey, escape_single. exact (prepend_escapes 0).
  - rewrite Hkey, escape_single. exact (remove_escapes 0).
Qed.

End KeyRoundTrips.

(** ** Configurations outside the intended ones *)

Lemma is_escape_at_not_single (esc k : string) (i : nat) :
  single_char esc = false -> is_escape_at esc k i = false.
Proof.
  intros Hs. unfold is_escape_at, JsString.at_index.
  destruct (String.get i k) as [a|]; [|reflexivity].
  destruct esc as [|b [|b' r]]; [reflexivity | discriminate |].
  simpl. now destruct (Ascii.eqb a b).
Qed.

Lemma append_empty_r (s : string) : String.append s EmptyString = s.
Proof.
  induction s as [|a s IH]; [reflexivity | now rewrite append_cons, IH].
Qed.

Section Degenerate.

Context (options : EncoderOptions).

Let key := key (typeTag options).
Let escapeCharacter := escapeCharacter (typeTag options).

(** X5: with the empty string as the key of the tag, the only key that
    [getEscapeCharCount] recognises is the empty one, whatever the escape
    character: escaping turns the key [""] into the escape character and
    changes no other key, and unescaping changes no key at all. *)
Theorem X5_empty_key :
  key = EmptyString ->
  (forall str, getEscapeCharCount options str
               = if String.eqb str EmptyString then 0 else -1)
  /\ (forall k, prependEscapeChar options k
                = if String.eqb k EmptyString then escapeCharacter else k)
  /\ (forall k, removePrependedEscapeChar options k = k).
Proof.
  intros Hk.
  assert (Hc : forall str, getEscapeCharCount options str
                           = if String.eqb str EmptyString then 0 else -1).
  { intros str. unfold getEscapeCharCount. fold key. rewrite Hk.
    change (- JsString.len EmptyString) with 0. rewrite slice_zero.
    unfold JsString.len. simpl String.length. rewrite Z.sub_0_r.
    destruct (Z.leb_spec 0 (Z.of_nat (String.length str))); [|lia].
    destruct (String.eqb_spec str EmptyString) as [->|]; reflexivity. }
  split; [exact Hc|]. split.
  - intros k. unfold prependEscapeChar. rewrite Hc. fold escapeCharacter.
    destruct (String.eqb_spec k EmptyString) as [->|]; [|reflexivity].
    apply append_empty_r.
  - intros k. unfold removePrependedEscapeChar. rewrite Hc.
    now destruct (String.eqb k EmptyString).
Qed.

(** X6: with an escape character that is not one character (empty, or
    longer), the only key that [getEscapeCharCount] recognises is the key
    of the tag itself: escaping prefixes that key and no other, and
    unescaping changes no key, so that an escaped key is never restored. *)
Theorem X6_escape_not_single :
  key <> EmptyString ->
  single_char escapeCharacter = false ->
  (forall str, getEscapeCharCount options str
               = if String.eqb str key then 0 else -1)
  /\ (forall k, prependEscapeChar options k
                = if String.eqb k key
                  then String.append escapeCharacter key else k)
  /\ (forall k, removePrependedEscapeChar options k = k).
Proof.
  intros Hkey Hesc.
  assert (Hc : forall str, getEscapeCharCount options str
                           = if String.eqb str key then 0 else -1).
  { intros str. rewrite getEscapeCharCount_shape by exact Hkey.
    fold key escapeCharacter.
    destruct (String.eqb_spec str key) as [->|Hne].
    - pose proof (tag_shaped_key options) as Hk. fold key escapeCharacter in Hk.
      rewrite Hk. unfold shape_count. lia.
    - destruct (tag_shaped key escapeCharacter str) eqn:Hs; [|reflexivity].
      exfalso. apply Hne.
      unfold tag_shaped, shape_count, trailing, JsString.len in Hs.
      apply andb_prop in Hs as [Hs Hall]. apply andb_prop in Hs as [Hn Ht].
      apply Z.leb_le in Hn. apply String.eqb_eq in Ht.
      destruct (Z.to_nat (Z.of_nat (String.length str)
                          - Z.of_nat (String.length key))) as [|m] eqn:Em.
      + replace (String.length str - String.length key)%nat with 0%nat in Ht
          by lia.
        replace (String.length key) with (String.length str) in Ht by lia.
        now rewrite substring_whole in Ht.
      + simpl in Hall. rewrite is_escape_at_not_single in Hall by exact Hesc.
        discriminate. }
  split; [exact Hc|]. split.
  - intros k. unfold prependEscapeChar. rewrite Hc. fold escapeCharacter.
    destruct (String.eqb_spec k key) as [->|]; reflexivity.
  - intros k. unfold removePrependedEscapeChar. rewrite Hc.
    now destruct (String.eqb k key).
Qed.

End Degenerate.

(** ** [replaceObjectKey] in general *)

Lemma lookup_prop_app (k : string) (ps qs : list (string * val)) :
  lookup_prop k (ps ++ qs)
  = match lookup_prop k ps with
    | Some v => Some v
    | None => lookup_prop k qs
    end.
Proof.
  induction ps as [|[k0 v0] ps IH]; simpl; [reflexivity|].
  now destruct (String.eqb k0 k).
Qed.

(** Reading after a run of definitions: the last definition of a key
    decides. *)
Lemma lookup_define_all_rev (k : string) (es ps : list (string * val)) :
  lookup_prop k (define_all es ps)
  = match lookup_prop k (rev es) with
    | Some v => Some v
    | None => lookup_prop k ps
    end.
Proof.
  revert ps; induction es as [|[k0 v0] es IH]; intros ps; [reflexivity|].
  change (define_all ((k0, v0) :: es) ps)
    with (define_all es (define_prop k0 v0 ps)).
  rewrite IH. simpl rev. rewrite lookup_prop_app.
  destruct (lookup_prop k (rev es)); [reflexivity|].
  rewrite lookup_define_prop. simpl. now destruct (String.eqb k0 k).
Qed.

Lemma length_update_prop (k : string) (v : val) (ps : list (string * val)) :
  List.length (update_prop k v ps) = List.length ps.
Proof.
  induction ps as [|[k0 v0] ps IH]; simpl; [reflexivity|].
  destruct (String.eqb k0 k); simpl; [reflexivity | now rewrite IH].
Qed.

Lemma length_insert_prop (k : string) (v : val) (ps : list (string * val)) :
  List.length (insert_prop k v ps) = S (List.length ps).
Proof.
  induction ps as [|[k0 v0] ps IH]; simpl; [reflexivity|].
  destruct (goes_before k k0); simpl; [reflexivity | now rewrite IH].
Qed.

Lemma length_define_all (es ps : list (string * val)) :
  (List.length (define_all es ps) <= List.length es + List.length ps)%nat.
Proof.
  revert ps; induction es as [|[k0 v0] es IH]; intros ps; simpl; [lia|].
  change (define_all ((k0, v0) :: es) ps)
    with (define_all es (define_prop k0 v0 ps)).
  specialize (IH (define_prop k0 v0 ps)).
  assert (List.length (define_prop k0 v0 ps) <= S (List.length ps))%nat.
  { unfold define_prop. destruct (has_key k0 ps).
    - rewrite length_update_prop. lia.
    - rewrite length_insert_prop. lia. }
  lia.
Qed.

Lemma to_length_true (f : string -> string) (es : list (string * val)) :
  to_length f es = true <-> exists k, In k (keys es) /\ f k = "length".
Proof.
  unfold to_length. rewrite existsb_exists. split.
  - intros ([k v] & Hin & E). exists k. split.
    + unfold keys. apply in_map_iff. now exists (k, v).
    + now apply String.eqb_eq.
  - intros (k & Hin & E). unfold keys in Hin.
    apply in_map_iff in Hin as ([k0 v] & <- & Hin).
    exists (k0, v). split; [exact Hin|]. now apply String.eqb_eq.
Qed.

Lemma not_to_length (f : string -> string) (o : obj)
    (es : list (string * val)) :
  (is_array o = true -> forall k, In k (keys es) -> f k <> "length") ->
  is_array o && to_length f es = false.
Proof.
  intros H0. destruct (is_array o); [|reflexivity]. cbn [andb].
  apply to_length_false. now apply H0.
Qed.

(** X7: [replaceObjectKey] returns when it renames no key of an array to
    [length] (the assignment to the [length] of the clone can throw). It
    returns its argument with the heap as it was exactly when the
    argument is a primitive or [replaceKey] changes none of its keys.
    What else it returns is a new object at the next free location, an
    array exactly when the argument is one, whose keys are distinct and
    are renamed keys of the argument. *)
Theorem X7_identity_preserved (arg : val) (f : string -> string) (h : heap) :
  ((isArray h arg = true ->
    forall k, In k (keys (entries h arg)) -> f k <> "length") ->
   exists r, replaceObjectKey arg f h = Some r)
  /\ (replaceObjectKey arg f h = Some (arg, h)
      <-> is_object arg = false
          \/ forall k, In k (keys (entries h arg)) -> f k = k)
  /\ (forall r,
        replaceObjectKey arg f h = Some r -> r <> (arg, h) ->
        exists o,
          r = (VObject (List.length h), h ++ [o])
          /\ is_array o = isArray h arg
          /\ List.NoDup (keys (props o))
          /\ forall k', In k' (keys (props o)) ->
                        In k' (map f (keys (entries h arg)))).
Proof.
  split; [|split].
  - intros Hlen. apply replaceObjectKey_returns_if.
    destruct (isArray h arg); [|reflexivity]. cbn [andb].
    apply to_length_false. now apply Hlen.
  - split.
    + intros E.
      destruct (replaceObjectKey_inv _ _ _ _ E)
        as [[_ Hc]|(_ & o & [= _ Hh] & _)].
      * destruct (is_object arg); [|now left]. right.
        now apply changes_false.
      * apply (f_equal (@List.length obj)) in Hh.
        rewrite length_app in Hh. simpl in Hh. lia.
    + intros [Ho|Hk]; [|now apply replaceObjectKey_fixed].
      destruct arg; try discriminate; reflexivity.
  - intros r E Hne.
    destruct (replaceObjectKey_inv _ _ _ _ E)
      as [[-> _]|(_ & o & -> & Ha & Hnd & Hin)]; [now destruct Hne|].
    exists o. split; [reflexivity|]. split; [exact Ha|].
    split; [exact Hnd|].
    intros k' Hk'. unfold keys in Hk'.
    apply in_map_iff in Hk' as ([k0 v] & <- & Hk').
    destruct (Hin _ _ Hk') as (k & Hk & <-).
    apply in_map_iff. exists k. split; [reflexivity|].
    unfold keys. apply in_map_iff. now exists (k, v).
Qed.

(** X8: when [replaceKey] changes a key of an object and renames none to
    [__proto__] and, for an array, none to [length], the new object has
    the renamed entries, the last one deciding where two keys are renamed
    to the same key: the clone can have fewer entries than the argument,
    never more. A new array is as long as its greatest index requires. *)
Theorem X8_last_entry_wins (f : string -> string) (h : heap)
    (l : loc) (o : obj) :
  h !! l = Some o ->
  (forall k, In k (keys (own_entries o)) -> f k <> "__proto__") ->
  (is_array o = true ->
   forall k, In k (keys (own_entries o)) -> f k <> "length") ->
  changes f (own_entries o) = true ->
  exists o',
    replaceObjectKey (VObject l) f h
    = Some (VObject (List.length h), h ++ [o'])
    /\ is_array o' = is_array o
    /\ prototype o' = PBuiltin
    /\ array_length o'
       = (if is_array o then dense_length (renamed f (own_entries o)) else 0%N)
    /\ (forall k', lookup_prop k' (props o')
                   = lookup_prop k' (rev (renamed f (own_entries o))))
    /\ (List.length (props o') <= List.length (own_entries o))%nat.
Proof.
  intros Hl Hp Hlen Hc.
  rewrite replaceObjectKey_unfold
    by (rewrite (entries_lookup _ _ _ Hl), (isArray_lookup _ _ _ Hl);
        now apply not_to_length).
  rewrite (entries_lookup _ _ _ Hl), (isArray_lookup _ _ _ Hl), Hc.
  cbn [is_object andb].
  rewrite loop_clone_define by exact Hp.
  eexists. split; [reflexivity|].
  cbn [is_array prototype props array_length].
  split; [reflexivity|]. split; [reflexivity|]. split; [reflexivity|]. split.
  - intros k'. rewrite lookup_define_all_rev.
    now destruct (lookup_prop k' _).
  - pose proof (length_define_all (renamed f (own_entries o)) []) as H.
    unfold renamed in H at 2. rewrite length_map in H. simpl in H. lia.
Qed.

Lemma loop_clone_app (h : heap) (f : string -> string)
    (a b : list (string * val)) (clone : obj) :
  loop_clone h f (a ++ b) clone
  = loop_clone h f b (loop_clone h f a clone).
Proof.
  revert clone; induction a as [|[k v] a IH]; intros clone; [reflexivity|].
  simpl. apply IH.
Qed.

Lemma define_all_app_entries (a b ps : list (string * val)) :
  define_all (a ++ b) ps = define_all b (define_all a ps).
Proof. unfold define_all. apply fold_left_app. Qed.

(** X9: an entry whose renamed key is [__proto__] is not copied to the new
    object: the assignment [clone["__proto__"] = v] creates no property,
    and makes [v] the prototype of the clone when [v] is an object or
    [null]. The other entries, none of them renamed to [__proto__] nor,
    in an array, to [length], are copied under their renamed keys. *)
Theorem X9_proto_entry_dropped (f : string -> string) (h : heap)
    (l : loc) (o : obj) (es1 es2 : list (string * val))
    (k0 : string) (v0 : val) :
  h !! l = Some o ->
  own_entries o = es1 ++ (k0, v0) :: es2 ->
  f k0 = "__proto__" ->
  (forall k, In k (keys (es1 ++ es2)) -> f k <> "__proto__") ->
  (is_array o = true ->
   forall k, In k (keys (es1 ++ es2)) -> f k <> "length") ->
  changes f (own_entries o) = true ->
  exists o',
    replaceObjectKey (VObject l) f h
    = Some (VObject (List.length h), h ++ [o'])
    /\ is_array o' = is_array o
    /\ props o' = define_all (renamed f (es1 ++ es2)) []
    /\ lookup_prop "__proto__" (props o') = None
    /\ prototype o' = match v0 with
                      | VObject p => PObj p
                      | VNull => PNull
                      | _ => PBuiltin
                      end.
Proof.
  intros Hl Hprops Hk0 Hp Hlen Hc.
  assert (Hp1 : forall k, In k (keys es1) -> f k <> "__proto__").
  { intros k Hin. apply Hp. rewrite keys_app. apply in_or_app. now left. }
  assert (Hp2 : forall k, In k (keys es2) -> f k <> "__proto__").
  { intros k Hin. apply Hp. rewrite keys_app. apply in_or_app. now right. }
  assert (Hlen' : is_array o && to_length f (own_entries o) = false).
  { apply not_to_length. intros Ha k Hin. rewrite Hprops, keys_app in Hin.
    apply in_app_or in Hin as [Hin|[<-|Hin]].
    - apply (Hlen Ha). rewrite keys_app. apply in_or_app. now left.
    - cbn [fst]. rewrite Hk0. discriminate.
    - apply (Hlen Ha). rewrite keys_app. apply in_or_app. now right. }
  set (ps1 := define_all (renamed f es1) []).
  assert (Hno : has_key "__proto__" ps1 = false).
  { apply not_true_is_false. rewrite has_key_In. subst ps1.
    rewrite keys_define_all, keys_renamed. intros [Hin|[]].
    apply in_map_iff in Hin as (k & E & Hin). now apply (Hp1 k). }
  assert (Hclone :
    exists n,
      loop_clone h f (own_entries o) (mkObj (is_array o) PBuiltin [] 0)
      = mkObj (is_array o)
          (match v0 with
           | VObject p => PObj p
           | VNull => PNull
           | _ => PBuiltin
           end)
          (define_all (renamed f es2) ps1) n).
  { rewrite Hprops, loop_clone_app.
    rewrite (loop_clone_define _ _ _ _ Hp1).
    cbn [is_array prototype props array_length]. fold ps1.
    cbn [loop_clone]. rewrite Hk0.
    rewrite (loop_clone_define _ _ _ _ Hp2).
    unfold assigned. cbn [props prototype]. rewrite Hno.
    destruct v0; eexists; reflexivity. }
  destruct Hclone as (n & Hclone).
  rewrite replaceObjectKey_unfold
    by now rewrite (entries_lookup _ _ _ Hl), (isArray_lookup _ _ _ Hl).
  rewrite (entries_lookup _ _ _ Hl), (isArray_lookup _ _ _ Hl), Hc.
  cbn [is_object andb].
  rewrite Hclone. eexists. split; [reflexivity|]. cbn [props prototype].
  split; [reflexivity|]. split; [|split; [|reflexivity]].
  - unfold renamed. rewrite map_app. fold (renamed f es1) (renamed f es2).
    now rewrite define_all_app_entries.
  - destruct (lookup_prop "__proto__" _) as [v|] eqn:E; [|reflexivity].
    apply lookup_prop_In in E.
    assert (Hin : In "__proto__" (keys (define_all (renamed f es2) ps1)))
      by (unfold keys; apply in_map_iff; now exists ("__proto__", v)).
    apply keys_define_all in Hin as [Hin|Hin].
    + rewrite keys_renamed in Hin. apply in_map_iff in Hin as (k & E' & Hin).
      now destruct (Hp2 k).
    + apply has_key_In in Hin. congruence.
Qed.

(** ** Values that are not source values *)

Lemma own_entries_keys (o : obj) (k : string) :
  In k (keys (own_entries o)) -> In k (keys (props o)).
Proof.
  unfold own_entries. destruct (is_array o); [|trivial].
  unfold keys. rewrite !in_map_iff. intros (e & E & Hin).
  apply filter_In in Hin as [Hin _]. now exists e.
Qed.

(** Apart from the [length] of an array, the own properties of an object
    are its enumerable ones. *)
Lemma own_get_entries (o : obj) (k : string) :
  (is_array o = true -> k <> "length") ->
  own_get o k = lookup_prop k (own_entries o).
Proof.
  unfold own_get, own_entries. destruct (is_array o); [|reflexivity].
  intros H. rewrite lookup_not_length.
  destruct (String.eqb_spec k "length") as [E|_]; [|reflexivity].
  now destruct H.
Qed.

Section NotSource.

Context (options : EncoderOptions).

Let key := key (typeTag options).
Let escapeCharacter := escapeCharacter (typeTag options).

Context (c : ascii).
Hypothesis key_not_empty : key <> EmptyString.
Hypothesis escape_single : escapeCharacter = String c EmptyString.

(** X10: with a key that is not empty and an escape character that is
    one character, what [encode] returns for a value that is not a source
    value has no own entry under the key of the tag, whatever its entries
    were: the tag is never there by accident. The call returns when the
    value is not an array with a key that is escaped to [length]. *)
Theorem X10_no_accidental_tag (arg : val) (h : heap) :
  isSource options h arg = false ->
  (isArray h arg
   && to_length (prependEscapeChar options) (entries h arg) = false ->
   exists r, encode options arg h = Some r)
  /\ forall r, encode options arg h = Some r ->
       lookup_prop key (entries (snd r) (fst r)) = None
       /\ own_tagged options (snd r) (fst r) = false.
Proof.
  intros Hs. rewrite encode_not_source by exact Hs.
  split; [apply replaceObjectKey_returns_if|]. intros r Er.
  assert (H0 : lookup_prop key (entries (snd r) (fst r)) = None).
  { apply lookup_prop_None.
    destruct (replaceObjectKey_inv _ _ _ _ Er)
      as [[-> Hc]|(_ & o & -> & _ & _ & Hin)]; cbn [fst snd].
    - intros Hk. destruct arg as [| | | | |l]; try contradiction.
      cbn [is_object andb] in Hc.
      pose proof (proj1 (changes_false _ _) Hc key Hk) as E.
      exact (prependEscapeChar_not_key options c escape_single key
               key_not_empty E).
    - rewrite (entries_lookup _ _ _ (lookup_alloc _ _)).
      intros Hk. apply own_entries_keys in Hk. unfold keys in Hk.
      apply in_map_iff in Hk as ([k0 v] & E0 & Hk). cbn [fst] in E0.
      subst k0. destruct (Hin _ _ Hk) as (k & _ & E).
      now apply (prependEscapeChar_not_key options c) in E. }
  split; [exact H0|]. unfold own_tagged. fold key. now rewrite H0.
Qed.

(** X11: with a key that is not empty and an escape character that is
    one character, for an object or array that is not a source value,
    with distinct keys, a built-in prototype and no key that is or
    becomes [__proto__], and, for an array, under a tag whose key is not
    [length] and with no key that becomes [length]: [encode] returns,
    [decode] of its result returns, and [decode (encode v)] is an object
    of the same kind with the same enumerable fields as [v]; it is [v]
    itself when no key of [v] is changed by escaping. *)
Theorem X11_plain_round_trip (h : heap) (l : loc) (o : obj) :
  isSource options h (VObject l) = false ->
  h !! l = Some o ->
  List.NoDup (keys (own_entries o)) ->
  prototype o = PBuiltin ->
  (forall k, In k (keys (own_entries o)) ->
     k <> "__proto__" /\ prependEscapeChar options k <> "__proto__") ->
  (is_array o = true ->
   key <> "length"
   /\ forall k, In k (keys (own_entries o)) ->
        prependEscapeChar options k <> "length") ->
  exists e d,
    encode options (VObject l) h = Some e
    /\ decode options (fst e) (snd e) = Some d
    /\ is_object (fst d) = true
    /\ extends h (snd d)
    /\ isArray (snd d) (fst d) = is_array o
    /\ same_fields (entries (snd d) (fst d)) (own_entries o)
    /\ (changes (prependEscapeChar options) (own_entries o) = false ->
        d = (VObject l, h)).
Proof.
  intros Hs Hl Hnd Hproto Hkeys Harray.
  assert (Hc1 : renames_cleanly (prependEscapeChar options) (own_entries o)).
  { apply (prepend_renames_cleanly options c key_not_empty escape_single).
    intros k Hk. now apply Hkeys. }
  assert (Hlen1 : is_array o
                  && to_length (prependEscapeChar options) (own_entries o)
                  = false).
  { apply not_to_length. intros Ha. now apply Harray. }
  set (es := renamed (prependEscapeChar options) (own_entries o)).
  assert (Hc2 : renames_cleanly (removePrependedEscapeChar options) es).
  { apply (remove_renames_cleanly options c key_not_empty escape_single).
    intros k Hk. now apply Hkeys. }
  assert (Hndes : List.NoDup (keys es)) by now apply NoDup_renamed.
  assert (Hkey : lookup_prop key es = None)
    by apply (lookup_key_escaped options c key_not_empty escape_single).
  assert (Hback : renamed (removePrependedEscapeChar options) es
                  = own_entries o).
  { subst es. rewrite renamed_renamed.
    rewrite (renamed_ext _ (fun k => k)), renamed_id; [reflexivity|].
    intros k _. now apply (remove_prepend options c). }
  (* the object that [encode] returns *)
  assert (He : exists l1 h1 o1,
             encode options (VObject l) h = Some (VObject l1, h1)
             /\ extends h h1 /\ h1 !! l1 = Some o1
             /\ is_array o1 = is_array o /\ prototype o1 = PBuiltin
             /\ List.NoDup (keys (own_entries o1))
             /\ same_fields (own_entries o1) es
             /\ (changes (prependEscapeChar options) (own_entries o) = false ->
                 l1 = l /\ h1 = h /\ o1 = o)).
  { rewrite encode_not_source by exact Hs.
    destruct (replaceObjectKey_fields _ h l o Hl Hnd Hc1 Hlen1)
      as (r & Er & Hf & Hnd1 & Harr & Hext & Hr).
    fold es in Hf. rewrite Er.
    destruct Hr as [[-> Hch]|(o1 & -> & Hp1)]; cbn [fst snd] in *.
    - exists l, h, o. rewrite (entries_lookup _ _ _ Hl) in Hf, Hnd1.
      split; [reflexivity|]. split; [exact Hext|]. split; [exact Hl|].
      split; [reflexivity|]. split; [exact Hproto|]. split; [exact Hnd1|].
      split; [exact Hf|]. intros _. now repeat split.
    - exists (List.length h), (h ++ [o1]), o1.
      rewrite (entries_lookup _ _ _ (lookup_alloc _ _)) in Hf, Hnd1.
      rewrite (isArray_lookup _ _ _ (lookup_alloc _ _)) in Harr.
      split; [reflexivity|]. split; [exact Hext|].
      split; [apply lookup_alloc|].
      split; [exact Harr|]. split; [exact Hp1|]. split; [exact Hnd1|].
      split; [exact Hf|].
      intros Hch. exfalso.
      rewrite replaceObjectKey_fixed in Er.
      + injection Er as _ Hh.
        apply (f_equal (@List.length obj)) in Hh.
        rewrite length_app in Hh. simpl in Hh. lia.
      + rewrite (entries_lookup _ _ _ Hl). now apply changes_false. }
  destruct He as (l1 & h1 & o1 & Ee & Hext1 & Hl1 & Harr1 & Hp1 & Hnd1
                  & Hf1 & Hsame).
  assert (Ht : is_tagged options h1 (VObject l1) = false).
  { unfold is_tagged. rewrite (js_get_missing h1 l1 o1).
    - now destruct (value (typeTag options)) as [?|[|?]|].
    - exact Hl1.
    - fold key. rewrite own_get_entries.
      + now rewrite (Hf1 key).
      + rewrite Harr1. intros Ha. now apply Harray.
    - intros p. rewrite Hp1. discriminate. }
  assert (Hc3 : renames_cleanly (removePrependedEscapeChar options)
                  (own_entries o1)).
  { apply (renames_cleanly_same_fields _ es); [|exact Hc2].
    now apply same_fields_sym. }
  assert (Hlen3 : is_array o1
                  && to_length (removePrependedEscapeChar options)
                       (own_entries o1) = false).
  { apply not_to_length. rewrite Harr1. intros Ha k Hk.
    apply (same_fields_keys _ es k Hf1) in Hk. subst es.
    rewrite keys_renamed in Hk. apply in_map_iff in Hk as (k0 & <- & Hk0).
    rewrite (remove_prepend options c) by assumption.
    now apply (own_entries_not_length o). }
  destruct (replaceObjectKey_fields _ h1 l1 o1 Hl1 Hnd1 Hc3 Hlen3)
    as (d & Ed & Hf & _ & Harr & Hext & Hr).
  exists (VObject l1, h1), d. cbn [fst snd].
  split; [exact Ee|].
  split; [now rewrite decode_not_tagged by exact Ht|].
  split; [destruct Hr as [[-> _]|(o2 & -> & _)]; reflexivity|].
  split; [eapply extends_trans; eassumption|].
  split; [now rewrite Harr|].
  split.
  - eapply same_fields_trans; [exact Hf|].
    rewrite <- Hback.
    apply same_fields_renamed; assumption.
  - intros Hch. destruct (Hsame Hch) as (-> & -> & ->).
    rewrite replaceObjectKey_fixed in Ed; [congruence|].
    rewrite (entries_lookup _ _ _ Hl). intros k Hk.
    apply changes_false with (k := k) in Hch; [|exact Hk].
    rewrite <- Hch at 1. now apply (remove_prepend options c).
Qed.

End NotSource.

(** ** Source values and the tag *)

Lemma lookup_define_all_notin (k : string) (es ps : list (string * val)) :
  ~ In k (keys es) -> lookup_prop k (define_all es ps) = lookup_prop k ps.
Proof.
  intros Hn. rewrite lookup_define_all_rev.
  replace (lookup_prop k (rev es)) with (@None val); [reflexivity|].
  symmetry. apply lookup_prop_None. intros Hin. apply Hn.
  unfold keys in *. rewrite map_rev in Hin. now apply in_rev.
Qed.

Lemma replaceObjectKey_same (arg : val) (f : string -> string) (h : heap) :
  replaceObjectKey arg f h = Some (arg, h) ->
  forall k, In k (keys (entries h arg)) -> f k = k.
Proof.
  intros E.
  destruct (replaceObjectKey_inv _ _ _ _ E)
    as [[_ Hc]|(_ & o & [= _ Hh] & _)].
  - destruct arg as [| | | | |l]; try (intros k []).
    cbn [is_object andb] in Hc. now apply changes_false.
  - apply (f_equal (@List.length obj)) in Hh.
    rewrite length_app in Hh. simpl in Hh. lia.
Qed.

Lemma replaceObjectKey_new_entries (arg : val) (f : string -> string)
    (h : heap) (o : obj) :
  replaceObjectKey arg f h = Some (VObject (List.length h), h ++ [o]) ->
  forall k' v, In (k', v) (props o) ->
               exists k, In (k, v) (entries h arg) /\ f k = k'.
Proof.
  intros E.
  destruct (replaceObjectKey_inv _ _ _ _ E)
    as [[[= _ Hh] _]|(_ & o' & [= Hh] & _ & _ & Hin)].
  - apply (f_equal (@List.length obj)) in Hh.
    rewrite length_app in Hh. simpl in Hh. lia.
  - apply app_inj_tail in Hh as [_ <-]. exact Hin.
Qed.

Lemma replaceObjectKey_new_keys (arg : val) (f : string -> string) (h : heap)
    (o : obj) :
  replaceObjectKey arg f h = Some (VObject (List.length h), h ++ [o]) ->
  forall k', In k' (keys (own_entries o)) ->
             In k' (map f (keys (entries h arg))).
Proof.
  intros E k' Hk. apply own_entries_keys in Hk. unfold keys in Hk.
  apply in_map_iff in Hk as ([k0 v] & E0 & Hk). cbn [fst] in E0. subst k0.
  destruct (replaceObjectKey_new_entries _ _ _ _ E _ _ Hk) as (k & Hk0 & <-).
  apply in_map_iff. exists k. split; [reflexivity|].
  unfold keys. apply in_map_iff. now exists (k, v).
Qed.

Section SourceTag.

Context (options : EncoderOptions).

Let key := key (typeTag options).
Let escapeCharacter := escapeCharacter (typeTag options).

Context (c : ascii).
Hypothesis key_not_empty : key <> EmptyString.
Hypothesis escape_single : escapeCharacter = String c EmptyString.

(** X12: with a key that is not empty and an escape character that is
    one character, for a source value whose plain form is anything but a
    string or an array with a key that is escaped to [length], [encode]
    returns a new object, not an array, that holds the tag under its key,
    whatever the keys of the plain form are; [decode] recognises it as
    tagged when the value of the tag is not [NaN]. *)
Theorem X12_source_is_tagged (s p : val) (h h1 : heap) :
  isSource options h s = true ->
  toPlainObject options s h = (p, h1) ->
  (forall str, p <> VString str) ->
  (isArray h1 p = true ->
   forall k, In k (keys (entries h1 p)) ->
     prependEscapeChar options k <> "length") ->
  exists h2 t,
    encode options s h = Some (VObject (List.length h2), h2 ++ [t])
    /\ extends h1 h2
    /\ is_array t = false /\ prototype t = PBuiltin
    /\ lookup_prop key (props t)
       = Some (val_of_tag (value (typeTag options)))
    /\ (tag_is_NaN (typeTag options) = false ->
        is_tagged options (h2 ++ [t]) (VObject (List.length h2)) = true).
Proof.
  intros Hs Hto Hstr Hlen.
  destruct (replaceObjectKey p (prependEscapeChar options) h1)
    as [r|] eqn:Er.
  2:{ exfalso.
      destruct (replaceObjectKey_returns_if p (prependEscapeChar options) h1)
        as [r E]; [|congruence].
      destruct (isArray h1 p) eqn:Ha; [|reflexivity]. cbn [andb].
      apply to_length_false. now apply Hlen. }
  rewrite (encode_source options s p h h1 r Hs Hto Er).
  assert (Hext : extends h1 (snd r)).
  { destruct (replaceObjectKey_result _ _ _ _ Er) as [->|(o & -> & _)];
      [apply extends_refl | apply extends_alloc]. }
  assert (Hkey : ~ In key (keys (spread_entries (snd r) (fst r)))).
  { destruct (replaceObjectKey_result _ _ _ _ Er) as [->|(o & -> & _)];
      cbn [fst snd].
    - destruct p as [| | | |str|l]; try (intros []).
      + now destruct (Hstr str).
      + cbn [spread_entries]. intros Hin.
        pose proof (replaceObjectKey_same _ _ _ Er key Hin) as E.
        exact (prependEscapeChar_not_key options c escape_single key
                 key_not_empty E).
    - cbn [spread_entries].
      rewrite (entries_lookup _ _ _ (lookup_alloc _ _)).
      intros Hin. apply (replaceObjectKey_new_keys _ _ _ _ Er) in Hin.
      apply in_map_iff in Hin as (k & E & _).
      now apply (prependEscapeChar_not_key options c) in E. }
  exists (snd r). eexists. split; [reflexivity|].
  split; [exact Hext|]. split; [reflexivity|]. split; [reflexivity|].
  assert (Hlook : lookup_prop key
            (props (object_literal
                      ((key, val_of_tag (value (typeTag options)))
                       :: spread_entries (snd r) (fst r))))
          = Some (val_of_tag (value (typeTag options)))).
  { unfold object_literal. cbn [props].
    change (define_all ((key, val_of_tag (value (typeTag options)))
                        :: spread_entries (snd r) (fst r)) [])
      with (define_all (spread_entries (snd r) (fst r))
              (define_prop key (val_of_tag (value (typeTag options))) [])).
    rewrite lookup_define_all_notin by exact Hkey.
    rewrite lookup_define_prop. now rewrite String.eqb_refl. }
  split; [exact Hlook|].
  intros Hnan. unfold is_tagged.
  erewrite js_get_own; [now apply strict_eq_tag | apply lookup_alloc|].
  exact Hlook.
Qed.

End SourceTag.

(** ** The tag test at its limits *)

Lemma strict_eq_NaN (x : val) : strict_eq x (VNumber NaN) = false.
Proof. now destruct x as [| | |[|z]| |]. Qed.

(** X13: when the value of the tag is [NaN], no value is tagged:
    [decode] only unescapes keys and never applies [fromPlainObject], so
    that nothing [encode] produced is ever converted back. *)
Theorem X13_NaN_tag (options : EncoderOptions) (arg : val) (h : heap) :
  tag_is_NaN (typeTag options) = true ->
  is_tagged options h arg = false
  /\ decode options arg h
     = replaceObjectKey arg (removePrependedEscapeChar options) h
  /\ forall f, decode (withFromPlainObject options f) arg h
               = decode options arg h.
Proof.
  intros Hnan.
  assert (Hv : val_of_tag (value (typeTag options)) = VNumber NaN).
  { unfold tag_is_NaN in Hnan.
    destruct (value (typeTag options)) as [?|[|?]|]; try discriminate.
    reflexivity. }
  assert (Ht : forall o, typeTag o = typeTag options ->
                         is_tagged o h arg = false).
  { intros o E. unfold is_tagged. rewrite E, Hv. apply strict_eq_NaN. }
  split; [now apply Ht|]. split; [apply decode_not_tagged; now apply Ht|].
  intros f. rewrite !decode_not_tagged by now apply Ht. reflexivity.
Qed.

Section DecodeAnyTagged.

Context (options : EncoderOptions).

Let key := key (typeTag options).
Let escapeCharacter := escapeCharacter (typeTag options).

Context (c : ascii).
Hypothesis key_not_empty : key <> EmptyString.
Hypothesis escape_single : escapeCharacter = String c EmptyString.

Lemma count_remove (k : string) :
  0 < getEscapeCharCount options k ->
  getEscapeCharCount options (removePrependedEscapeChar options k)
  = getEscapeCharCount options k - 1
  /\ prependEscapeChar options (removePrependedEscapeChar options k) = k.
Proof.
  intros Hn.
  rewrite (count_decompose options c escape_single k) at 1 3 4 by lia.
  destruct (Z.to_nat (getEscapeCharCount options k)) as [|m] eqn:Em; [lia|].
  rewrite (remove_escapes options c key_not_empty escape_single).
  rewrite (count_escapes options c key_not_empty escape_single).
  split; [lia|].
  apply (prepend_escapes options c key_not_empty escape_single).
Qed.

Lemma count_zero_key (k : string) :
  getEscapeCharCount options k = 0 -> k = key.
Proof.
  intros H0.
  rewrite (count_decompose options c escape_single k) by lia.
  now rewrite H0.
Qed.

Lemma remove_fixed (k : string) :
  getEscapeCharCount options k <= 0 ->
  removePrependedEscapeChar options k = k.
Proof.
  intros Hn. unfold removePrependedEscapeChar.
  destruct (Z.ltb_spec 0 (getEscapeCharCount options k)); [lia | reflexivity].
Qed.

(** Apart from the key of the tag, unescaping keeps distinct keys
    distinct. *)
Lemma remove_inj_off_key (k1 k2 : string) :
  k1 <> key -> k2 <> key ->
  removePrependedEscapeChar options k1 = removePrependedEscapeChar options k2 ->
  k1 = k2.
Proof.
  intros H1 H2 E.
  destruct (Z.ltb_spec 0 (getEscapeCharCount options k1)) as [P1|N1];
    destruct (Z.ltb_spec 0 (getEscapeCharCount options k2)) as [P2|N2].
  - destruct (count_remove k1 P1) as [_ <-].
    destruct (count_remove k2 P2) as [_ <-]. now rewrite E.
  - exfalso. apply H2. apply count_zero_key.
    destruct (count_remove k1 P1) as [Hc _].
    rewrite E, (remove_fixed k2 N2) in Hc.
    pose proof (getEscapeCharCount_shaped options k2) as Hs. lia.
  - exfalso. apply H1. apply count_zero_key.
    destruct (count_remove k2 P2) as [Hc _].
    rewrite <- E, (remove_fixed k1 N1) in Hc. lia.
  - now rewrite (remove_fixed k1 N1), (remove_fixed k2 N2) in E.
Qed.

(** X14: with a tag key that is not empty and an escape character that
    is one character, [decode] of any tagged object with distinct keys,
    none of which is unescaped to [__proto__], returns and loses no
    entry: [fromPlainObject] receives a new plain object that holds every
    enumerable entry of the argument but the tag, each under its
    unescaped key, and nothing else. *)
Theorem X14_decode_tagged_keeps_entries (h : heap) (l : loc) (t : obj) :
  h !! l = Some t ->
  List.NoDup (keys (own_entries t)) ->
  is_tagged options h (VObject l) = true ->
  (forall k, In k (keys (own_entries t)) -> k <> key ->
             removePrependedEscapeChar options k <> "__proto__") ->
  exists u h2 o',
    decode options (VObject l) h
    = Some (fromPlainObject options (VObject u) h2)
    /\ extends h h2 /\ (List.length h <= u)%nat
    /\ h2 !! u = Some o'
    /\ is_array o' = false /\ prototype o' = PBuiltin
    /\ same_fields (props o')
         (renamed (removePrependedEscapeChar options)
                  (delete_prop key (own_entries t)))
    /\ forall k v, k <> key -> lookup_prop k (own_entries t) = Some v ->
         lookup_prop (removePrependedEscapeChar options k) (props o')
         = Some v.
Proof.
  intros Hl Hnd Ht Hp.
  assert (Hc : renames_cleanly (removePrependedEscapeChar options)
                 (delete_prop key (own_entries t))).
  { split.
    - intros k1 k2 H1 H2. apply keys_delete_prop in H1 as [H1 _].
      apply keys_delete_prop in H2 as [H2 _]. now apply remove_inj_off_key.
    - intros k Hk. apply keys_delete_prop in Hk as [Hne Hk]. now apply Hp. }
  destruct (decode_tagged_fields options h l t Hl Hnd Ht Hc)
    as (u & h2 & o' & E & Hext & Hu & Hlu & Harr & Hproto & Hf).
  exists u, h2, o'. repeat (split; [assumption|]).
  intros k v Hne Hk. rewrite (Hf _).
  apply lookup_renamed_Some; [now apply NoDup_delete_prop | exact Hc|].
  rewrite lookup_delete_prop. fold key.
  destruct (String.eqb_spec key k); [congruence | exact Hk].
Qed.

End DecodeAnyTagged.

(** ** An empty escape character *)

Section EmptyEscape.

Context (options : EncoderOptions).

Let key := key (typeTag options).
Let escapeCharacter := escapeCharacter (typeTag options).

Hypothesis escape_empty : escapeCharacter = EmptyString.

Lemma prepend_empty_escape (k : string) : prependEscapeChar options k = k.
Proof.
  unfold prependEscapeChar. fold escapeCharacter. rewrite escape_empty.
  now destruct (getEscapeCharCount options k =? -1).
Qed.

Lemma count_empty_escape (k : string) : getEscapeCharCount options k <= 0.
Proof.
  unfold getEscapeCharCount. fold key.
  destruct (Z.leb_spec 0 (JsString.len k - JsString.len key)); [|lia].
  destruct (String.eqb _ key); [|lia].
  destruct (Z.to_nat (JsString.len k - JsString.len key)) as [|m] eqn:Em.
  - simpl. lia.
  - simpl. fold escapeCharacter. rewrite escape_empty.
    unfold JsString.at_index_differs, JsString.at_index.
    destruct (String.get 0 k); simpl; lia.
Qed.

Lemma remove_empty_escape (k : string) :
  removePrependedEscapeChar options k = k.
Proof.
  unfold removePrependedEscapeChar. pose proof (count_empty_escape k).
  destruct (Z.ltb_spec 0 (getEscapeCharCount options k)); [lia | reflexivity].
Qed.

(** X15: with the empty string as the escape character, no key is ever
    escaped or unescaped: [encode] returns a value that is not a source
    value as it is, [decode] returns an untagged value as it is, and an
    entry of a plain form under the key of the tag takes the place of the
    tag in what [encode] returns for the source value. *)
Theorem X15_empty_escape :
  (forall k, prependEscapeChar options k = k
             /\ removePrependedEscapeChar options k = k)
  /\ (forall arg h, isSource options h arg = false ->
                    encode options arg h = Some (arg, h))
  /\ (forall arg h, is_tagged options h arg = false ->
                    decode options arg h = Some (arg, h))
  /\ (forall s h h1 l o x,
        isSource options h s = true ->
        toPlainObject options s h = (VObject l, h1) ->
        h1 !! l = Some o ->
        List.NoDup (keys (own_entries o)) ->
        lookup_prop key (own_entries o) = Some x ->
        exists t,
          encode options s h = Some (VObject (List.length h1), h1 ++ [t])
          /\ lookup_prop key (props t) = Some x).
Proof.
  assert (Hsame : forall (f : string -> string) arg h,
            (forall k, f k = k) -> replaceObjectKey arg f h = Some (arg, h)).
  { intros f arg h Hf. apply replaceObjectKey_fixed. intros k _. apply Hf. }
  split; [|split; [|split]].
  - intros k. split; [apply prepend_empty_escape | apply remove_empty_escape].
  - intros arg h Hs. rewrite encode_not_source by exact Hs.
    apply Hsame, prepend_empty_escape.
  - intros arg h Ht. rewrite decode_not_tagged by exact Ht.
    apply Hsame, remove_empty_escape.
  - intros s h h1 l o x Hs Hto Hl Hnd Hx.
    rewrite (encode_source options s (VObject l) h h1 _ Hs Hto
               (Hsame _ _ _ prepend_empty_escape)).
    cbn [fst snd spread_entries].
    rewrite (entries_lookup _ _ _ Hl).
    eexists. split; [reflexivity|].
    unfold object_literal. cbn [props].
    rewrite lookup_define_all_rev. simpl rev. rewrite lookup_prop_app.
    replace (lookup_prop key (rev (own_entries o))) with (Some x);
      [reflexivity|].
    symmetry. apply In_lookup_prop.
    + unfold keys. rewrite map_rev. now apply List.NoDup_rev.
    + apply in_rev. rewrite rev_involutive. now apply lookup_prop_In.
Qed.

End EmptyEscape.

(** ** One level only *)

Lemma In_own_entries (o : obj) (e : string * val) :
  In e (own_entries o) -> In e (props o).
Proof.
  unfold own_entries. destruct (is_array o); [|trivial].
  intros Hin. now apply filter_In in Hin as [Hin _].
Qed.

(** X16: the engine works on one level. Every entry of what
    [replaceObjectKey] returns is an entry of its argument under the
    renamed key, with the very same value, and every entry of what
    [encode] returns for a source value is the tag or an entry of the
    plain form under its escaped key: a nested object is shared, never
    copied, escaped or converted. *)
Theorem X16_one_level_only (options : EncoderOptions) :
  (forall arg f h r k' v,
     replaceObjectKey arg f h = Some r ->
     In (k', v) (entries (snd r) (fst r)) ->
     exists k, In (k, v) (entries h arg) /\ f k = k')
  /\ (forall s l h h1 r k' v,
        isSource options h s = true ->
        toPlainObject options s h = (VObject l, h1) ->
        encode options s h = Some r ->
        In (k', v) (entries (snd r) (fst r)) ->
        (k', v) = (key (typeTag options),
                   val_of_tag (value (typeTag options)))
        \/ exists k, In (k, v) (entries h1 (VObject l))
                     /\ prependEscapeChar options k = k').
Proof.
  assert (H1 : forall arg f h r k' v,
            replaceObjectKey arg f h = Some r ->
            In (k', v) (entries (snd r) (fst r)) ->
            exists k, In (k, v) (entries h arg) /\ f k = k').
  { intros arg f h r k' v Er.
    destruct (replaceObjectKey_result _ _ _ _ Er) as [->|(o & -> & _)];
      cbn [fst snd].
    - intros Hin. exists k'. split; [exact Hin|].
      apply (replaceObjectKey_same _ _ _ Er).
      unfold keys. apply in_map_iff. now exists (k', v).
    - rewrite (entries_lookup _ _ _ (lookup_alloc _ _)).
      intros Hin. apply In_own_entries in Hin.
      exact (replaceObjectKey_new_entries _ _ _ _ Er _ _ Hin). }
  split; [exact H1|].
  intros s l h h1 r k' v Hs Hto Er.
  destruct (replaceObjectKey (VObject l) (prependEscapeChar options) h1)
    as [r0|] eqn:E0;
    [|unfold encode in Er; rewrite Hs, Hto, E0 in Er; discriminate].
  rewrite (encode_source options s (VObject l) h h1 r0 Hs Hto E0) in Er.
  injection Er as <-.
  cbn [fst snd]. rewrite (entries_lookup _ _ _ (lookup_alloc _ _)).
  unfold object_literal, own_entries. cbn [props is_array]. intros Hin.
  apply In_define_all in Hin as [[Hin|Hin]|[]]; [left; now symmetry|].
  right. apply (H1 _ _ _ _ _ _ E0).
  destruct (replaceObjectKey_result _ _ _ _ E0) as [->|(o & -> & _)];
    exact Hin.
Qed.

(** ** The assignment to the length of an array *)

Lemma replace_loop_app (h : heap) (f : string -> string)
    (a b : list (string * val)) (clone : obj) (c : bool) :
  replace_loop h f (a ++ b) clone c
  = match replace_loop h f a clone c with
    | Some (clone', c') => replace_loop h f b clone' c'
    | None => None
    end.
Proof.
  revert clone c; induction a as [|[k v] a IH]; intros clone c;
    [reflexivity|].
  cbn [app replace_loop].
  destruct (set_prop h clone (f k) v) as [clone1|]; [apply IH | reflexivity].
Qed.

Lemma lookup_filter_key (p : string -> bool) (k : string)
    (ps : list (string * val)) :
  lookup_prop k (List.filter (fun e => p (fst e)) ps)
  = if p k then lookup_prop k ps else None.
Proof.
  induction ps as [|[k0 v0] ps IH].
  - cbn [List.filter lookup_prop]. now destruct (p k).
  - cbn [List.filter lookup_prop fst].
    destruct (String.eqb_spec k0 k) as [->|Hne].
    + destruct (p k) eqn:Hp; [|exact IH].
      cbn [lookup_prop]. now rewrite String.eqb_refl.
    + destruct (p k0); [|exact IH].
      cbn [lookup_prop]. destruct (String.eqb_spec k0 k); [congruence|].
      exact IH.
Qed.

(** The properties of an array whose length is set to [n]: the elements
    from the index [n] on are gone, every other property is as it was. *)
Lemma lookup_set_length (o : obj) (n : N) (k : string) :
  (forall k' i, In k' (keys (props o)) -> array_index k' = Some i ->
                (i < array_length o)%N) ->
  lookup_prop k (props (set_length o n))
  = match array_index k with
    | Some i => if (i <? n)%N then lookup_prop k (props o) else None
    | None => lookup_prop k (props o)
    end.
Proof.
  intros Hwf. unfold set_length, truncate.
  destruct (N.leb_spec (array_length o) n) as [Hle|Hlt]; cbn [props].
  - destruct (array_index k) as [i|] eqn:Ei; [|reflexivity].
    destruct (N.ltb_spec i n) as [_|Hge]; [reflexivity|].
    apply lookup_prop_None. intros Hin.
    pose proof (Hwf k i Hin Ei). lia.
  - rewrite (lookup_filter_key
               (fun k => match array_index k with
                         | Some i => (i <? n)%N
                         | None => true
                         end)).
    destruct (array_index k) as [i|]; [|reflexivity].
    now destruct (i <? n)%N.
Qed.

Lemma grown_length_le (n : N) (es : list (string * val)) :
  (n <= grown_length n es)%N.
Proof.
  revert n; induction es as [|[k v] es IH]; intros n; [simpl; lia|].
  rewrite grown_length_cons.
  destruct (array_index k) as [i|];
    [etransitivity; [|apply IH]; lia | apply IH].
Qed.

Lemma grown_length_index (n : N) (es : list (string * val))
    (k : string) (i : N) :
  In k (keys es) -> array_index k = Some i -> (i < grown_length n es)%N.
Proof.
  revert n; induction es as [|[k0 v0] es IH]; intros n; [intros []|].
  rewrite grown_length_cons. intros [E|Hin] Hi.
  - cbn [fst] in E. subst k0. rewrite Hi.
    pose proof (grown_length_le (N.max n (i + 1)) es). lia.
  - now apply IH.
Qed.

Lemma grown_length_bound (ps : list (string * val)) (n m : N) :
  (n <= m)%N ->
  (forall k i, In k (keys ps) -> array_index k = Some i -> (i < m)%N) ->
  (grown_length n ps <= m)%N.
Proof.
  revert n; induction ps as [|[k v] ps IH]; intros n Hnm Hw; [exact Hnm|].
  rewrite grown_length_cons. apply IH.
  - destruct (array_index k) as [i|] eqn:Ei; [|exact Hnm].
    pose proof (Hw k i (or_introl eq_refl) Ei). lia.
  - intros k' i' Hin. apply Hw. now right.
Qed.

(** The length depends on the keys only. *)
Lemma dense_length_define_all (es : list (string * val)) :
  dense_length (define_all es []) = dense_length es.
Proof.
  unfold dense_length. apply N.le_antisymm.
  - apply grown_length_bound; [lia|]. intros k i Hin Hi.
    apply keys_define_all in Hin as [Hin|[]].
    now apply (grown_length_index 0 es k i).
  - apply grown_length_bound; [lia|]. intros k i Hin Hi.
    apply (grown_length_index 0 (define_all es []) k i); [|exact Hi].
    apply keys_define_all. now left.
Qed.

(** X17: when the last entry of an array is renamed to [length], and no
    other key to [length] or to [__proto__], [replaceObjectKey] assigns
    its value to the [length] of the clone, which holds the other
    entries under their renamed keys by then. When the value is an array
    length [n], it returns the clone cut to that length: the elements
    from the index [n] on are gone, the other entries are there, and
    nothing is stored under [length]. When the value is no array length,
    the assignment throws. *)
Theorem X17_array_length_assigned (f : string -> string) (h : heap)
    (l : loc) (o : obj) (es : list (string * val)) (k0 : string) (v : val) :
  h !! l = Some o ->
  is_array o = true ->
  own_entries o = es ++ [(k0, v)] ->
  f k0 = "length" ->
  (forall k, In k (keys es) -> f k <> "__proto__" /\ f k <> "length") ->
  let clone := array (define_all (renamed f es) []) in
  array_length clone = dense_length (renamed f es)
  /\ match to_array_length h v with
     | None => replaceObjectKey (VObject l) f h = None
     | Some n =>
         replaceObjectKey (VObject l) f h
         = Some (VObject (List.length h), h ++ [set_length clone n])
         /\ is_array (set_length clone n) = true
         /\ array_length (set_length clone n) = n
         /\ forall k,
              lookup_prop k (props (set_length clone n))
              = match array_index k with
                | Some i => if (i <? n)%N
                            then lookup_prop k (rev (renamed f es))
                            else None
                | None => if String.eqb k "length" then None
                          else lookup_prop k (rev (renamed f es))
                end
     end.
Proof.
  intros Hl Ha Hes Hk0 Hf clone.
  assert (Hp : forall k, In k (keys es) -> f k <> "__proto__")
    by (intros k Hk; now apply Hf).
  assert (Hlen : true && to_length f es = false).
  { apply to_length_false. intros k Hk. now apply Hf. }
  assert (Hne : String.eqb (f k0) k0 = false).
  { apply String.eqb_neq. rewrite Hk0. intros E.
    apply (own_entries_not_length o k0 Ha); [|now symmetry].
    rewrite Hes, keys_app. apply in_or_app. right. now left. }
  pose proof (dense_length_define_all (renamed f es)) as Hdl.
  split; [exact Hdl|].
  assert (Hloop : replace_loop h f (own_entries o)
                    (mkObj true PBuiltin [] 0) false
                  = match to_array_length h v with
                    | Some n => Some (set_length clone n, true)
                    | None => None
                    end).
  { rewrite Hes, replace_loop_app.
    rewrite (replace_loop_spec h f es (mkObj true PBuiltin [] 0) false Hlen).
    rewrite loop_clone_define by exact Hp.
    cbn [is_array prototype props array_length replace_loop].
    rewrite Hne. unfold set_prop. cbn [is_array andb negb]. rewrite Hk0.
    rewrite String.eqb_refl.
    fold (dense_length (renamed f es)). rewrite <- Hdl.
    fold (array (define_all (renamed f es) [])). fold clone.
    now destruct (to_array_length h v). }
  assert (Hrun : replaceObjectKey (VObject l) f h
                 = match to_array_length h v with
                   | Some n => Some (VObject (List.length h),
                                     h ++ [set_length clone n])
                   | None => None
                   end).
  { unfold replaceObjectKey. cbn [is_object negb].
    rewrite (entries_lookup _ _ _ Hl), (isArray_lookup _ _ _ Hl), Ha, Hloop.
    now destruct (to_array_length h v). }
  destruct (to_array_length h v) as [n|]; [|exact Hrun].
  split; [exact Hrun|].
  split; [now rewrite set_length_is_array|].
  split.
  { unfold set_length. now destruct (array_length clone <=? n)%N. }
  intros k. rewrite lookup_set_length.
  - subst clone. cbn [array props]. rewrite !lookup_define_all_rev.
    assert (Hnl : lookup_prop "length" (rev (renamed f es)) = None).
    { apply lookup_prop_None. unfold keys. rewrite map_rev, <- in_rev.
      fold (keys (renamed f es)). rewrite keys_renamed.
      intros Hin. apply in_map_iff in Hin as (k1 & E & Hin).
      now destruct (Hf k1 Hin). }
    destruct (array_index k) as [i|] eqn:Ei.
    + destruct (i <? n)%N; [|reflexivity].
      now destruct (lookup_prop k (rev (renamed f es))).
    + destruct (String.eqb_spec k "length") as [->|_].
      * now rewrite Hnl.
      * now destruct (lookup_prop k (rev (renamed f es))).
  - intros k' i Hin Hi. subst clone. cbn [array props array_length] in *.
    now apply (grown_length_index 0 (define_all (renamed f es) []) k' i).
Qed.

(** ** The length of an array, by example *)

(** Under the tag key [length], [decode] of the untagged array
    [[10, 20]] with a property [_length: 1] assigns [1] to the [length]
    of its clone: what it returns is the array [[10]]. *)
Example array_truncated :
  let tag := mkTypeTag "length" (TagString "Error") "_" in
  let h := [array [("0", VNumber (Int 10)); ("1", VNumber (Int 20));
                   ("_length", VNumber (Int 1))]] in
  is_tagged (plainOptions tag) h (VObject 0%nat) = false
  /\ decode (plainOptions tag) (VObject 0%nat) h
     = Some (VObject 1%nat, h ++ [array [("0", VNumber (Int 10))]]).
Proof. split; reflexivity. Qed.

(** With [_length: -1] the assignment throws. *)
Example array_length_invalid :
  let tag := mkTypeTag "length" (TagString "Error") "_" in
  let h := [array [("0", VNumber (Int 10)); ("1", VNumber (Int 20));
                   ("_length", VNumber (Int (-1)))]] in
  decode (plainOptions tag) (VObject 0%nat) h = None.
Proof. reflexivity. Qed.

(** Under the tag [{key: "length", value: 2}], the array [[10, 20]] is
    tagged by its length: [decode] hands [fromPlainObject] a copy of it
    that is not an array. *)
Example array_tagged_by_length :
  let tag := mkTypeTag "length" (TagNumber (Int 2)) "_" in
  let ps := [("0", VNumber (Int 10)); ("1", VNumber (Int 20))] in
  is_tagged (plainOptions tag) [array ps] (VObject 0%nat) = true
  /\ encode (plainOptions tag) (VObject 0%nat) [array ps]
     = Some (VObject 0%nat, [array ps])
  /\ decode (plainOptions tag) (VObject 0%nat) [array ps]
     = Some (VObject 1%nat, [array ps; plain ps]).
Proof. repeat split; reflexivity. Qed.

End Engine.

(** * Instances

    The statements refuted: each holds for no conversion of strings and
    objects to array lengths. *)

(** C8, as stated, fails: the untagged object [{ _$type: 1 }] is decoded
    to a new object [{ $type: 1 }], which does not even have the entries
    of the argument. *)
Lemma C8_counterexample :
  ~ (exists js : LengthConversion,
     forall (options : EncoderOptions) (x : val) (h : heap),
       is_tagged options h x = false ->
       forall d, decode options x h = Some d ->
                 entries (snd d) (fst d) = entries h x).
Proof.
  intros [js H].
  specialize (H (plainOptions demoTag) (VObject 0%nat)
                [plain [("_$type", VNumber (Int 1))]] eq_refl _ eq_refl).
  vm_compute in H. discriminate H.
Qed.

(** C9, as stated, fails for a [fromPlainObject] that returns an object
    it keeps: [decode] of the tagged object [{ $type: "Error" }] then
    returns that object, which is neither the argument nor allocated by
    the call. *)
Lemma C9_counterexample :
  ~ (exists js : LengthConversion,
     forall (options : EncoderOptions) (arg : val) (h : heap) (r : val * heap),
       decode options arg h = Some r ->
       fst r = arg \/ fresh_in h (snd r) (fst r)).
Proof.
  intros [js H].
  destruct (H (withFromPlainObject (plainOptions demoTag)
                 (fun _ h => (VObject 0%nat, h)))
              (VObject 1%nat)
              [plain []; plain [("$type", VString "Error")]]
              _ eq_refl) as [E|(l & E & Hl)].
  - vm_compute in E. discriminate E.
  - vm_compute in E. injection E as <-. vm_compute in Hl. lia.
Qed.

(** C6, as stated, fails: the object [{ w: 3 }] has no own entry [$type],
    but inherits [$type: "Error"] from its prototype, and [decode] passes
    it to [fromPlainObject]: the result changes with that function. *)
Lemma C6_counterexample :
  ~ (exists js : LengthConversion,
     forall (options : EncoderOptions) (v : val) (h : heap),
       is_object v = true ->
       own_tagged options h v = false ->
       forall f, decode (withFromPlainObject options f) v h
                 = decode options v h).
Proof.
  intros [js H].
  specialize (H boxOptions (VObject 1%nat) inheritedTagHeap eq_refl eq_refl
                (fun v h => (v, h))).
  vm_compute in H. discriminate H.
Qed.

(** C10, as stated, fails: with the tag key ["0"] and the plain form
    ["ab"], the object that [encode] returns is [{ 0: "a", 1: "b" }], in
    which the first character has taken the place of the tag. *)
Lemma C10_counterexample :
  ~ (exists js : LengthConversion,
     forall (options : EncoderOptions) (s p : val) (h h1 : heap),
       isSource options h s = true ->
       toPlainObject options s h = (p, h1) ->
       is_object p = false ->
       forall r, encode options s h = Some r ->
         lookup_prop (key (typeTag options)) (entries (snd r) (fst r))
         = Some (val_of_tag (value (typeTag options)))).
Proof.
  intros [js H].
  specialize (H (constOptions (mkTypeTag "0" (TagString "Error") "_")
                              (VString "ab"))
                VNull (VString "ab") [] [] eq_refl eq_refl eq_refl
                _ eq_refl).
  vm_compute in H. discriminate H.
Qed.

(** C1, as stated, fails: [toPlainObject] of a [Celsius] is the number of
    its field, and [fromPlainObject] is its inverse, but [encode] keeps
    nothing of the number, and [decode (encode s)] is a [Celsius] whose
    field is the empty object that [fromPlainObject] was given. *)
Lemma C1_counterexample :
  ~ (exists js : LengthConversion,
     forall (options : EncoderOptions) (s : val) (h : heap),
       isSource options h s = true ->
       (let p := toPlainObject options s h in
        let s' := fromPlainObject options (fst p) (snd p) in
        obs_eq h s (snd s') (fst s')) ->
       forall e d,
         encode options s h = Some e ->
         decode options (fst e) (snd e) = Some d ->
         obs_eq h s (snd d) (fst d)).
Proof.
  intros [js H].
  specialize (H celsiusOptions (VObject 1%nat) celsiusHeap eq_refl).
  assert (Hinv : let p := toPlainObject celsiusOptions (VObject 1%nat) celsiusHeap in
                 let s' := fromPlainObject celsiusOptions (fst p) (snd p) in
                 obs_eq celsiusHeap (VObject 1%nat) (snd s') (fst s')).
  { vm_compute. repeat split. }
  specialize (H Hinv _ _ eq_refl eq_refl). vm_compute in H.
  destruct H as (_ & _ & _ & Hf). specialize (Hf "deg"). vm_compute in Hf.
  discriminate Hf.
Qed.

(** C7, as stated, fails: when the plain form of a source value is the
    array [[10, 20]], [encode] returns an object that is not an array. *)
Lemma C7_counterexample :
  ~ (exists js : LengthConversion,
     forall (options : EncoderOptions) (s p : val) (h h1 : heap),
       isSource options h s = true ->
       toPlainObject options s h = (p, h1) ->
       isArray h1 p = true ->
       forall r, encode options s h = Some r ->
                 isArray (snd r) (fst r) = true).
Proof.
  intros [js H].
  specialize (H (constOptions demoTag (VObject 0%nat)) VNull (VObject 0%nat)
                [array [("0", VNumber (Int 10)); ("1", VNumber (Int 20))]]
                [array [("0", VNumber (Int 10)); ("1", VNumber (Int 20))]]
                eq_refl eq_refl eq_refl _ eq_refl).
  vm_compute in H. discriminate H.
Qed.

(** The statements at concrete inputs, none of which needs the conversion
    of a string or of an object to an array length. *)

#[local] Existing Instance no_length.

Lemma C5_pass_through_witness :
  let o := plainOptions demoTag in
  let h := [plain [("age", VNumber (Int 12)); ("name", VString "hello")]] in
  encode o (VObject 0%nat) h = Some (VObject 0%nat, h)
  /\ (is_tagged o h (VObject 0%nat) = false ->
      decode o (VObject 0%nat) h = Some (VObject 0%nat, h)).
Proof.
  apply (C5_pass_through (plainOptions demoTag)).
  - reflexivity.
  - simpl. intros k [<-|[<-|[]]]; reflexivity.
Defined.

Lemma C8_decode_identity_witness :
  let o := plainOptions demoTag in
  let h := [plain [("$type", VNumber (Int 1)); ("age", VNumber (Int 12))]] in
  decode o (VObject 0%nat) h = Some (VObject 0%nat, h).
Proof.
  apply (C8_decode_identity (plainOptions demoTag)).
  - reflexivity.
  - simpl. intros k [<-|[<-|[]]]; reflexivity.
Defined.

Lemma C9_no_mutation_witness :
  allocates_only (toPlainObject boxOptions)
  /\ allocates_only (fromPlainObject boxOptions)
  /\ (exists r, encode boxOptions (VObject 1%nat) boxHeap = Some r
                /\ extends boxHeap (snd r)
                /\ fresh_in boxHeap (snd r) (fst r))
  /\ (exists r, decode boxOptions (VObject 1%nat) boxHeap = Some r
                /\ extends boxHeap (snd r)).
Proof.
  split; [exact boxToPlain_allocates|].
  split; [exact boxFromPlain_allocates|].
  pose proof (C9_no_mutation boxOptions boxToPlain_allocates
                boxFromPlain_allocates (VObject 1%nat) boxHeap)
    as (He & Hd & _ & _).
  split.
  - eexists. split; [reflexivity|].
    destruct (He _ eq_refl) as [Hext [Hr|Hf]];
      [split; [exact Hext|] | now split].
    vm_compute in Hr. discriminate Hr.
  - eexists. split; [reflexivity|]. now destruct (Hd _ eq_refl).
Defined.

Lemma C2_collision_safety_witness :
  let original := plain [("$type", VNumber (Int 1)); ("age", VNumber (Int 12))] in
  let escaped := plain [("_$type", VNumber (Int 1)); ("age", VNumber (Int 12))] in
  let h := boxHeap ++ [original] in
  is_tagged boxOptions h (VObject 2%nat) = false
  /\ encode boxOptions (VObject 2%nat) h = Some (VObject 3%nat, h ++ [escaped])
  /\ is_tagged boxOptions (h ++ [escaped]) (VObject 3%nat) = false
  /\ decode boxOptions (VObject 3%nat) (h ++ [escaped])
     = Some (VObject 4%nat, (h ++ [escaped]) ++ [original]).
Proof.
  exact (C2_collision_safety boxOptions
           (boxHeap ++ [plain [("$type", VNumber (Int 1));
                               ("age", VNumber (Int 12))]])
           2%nat eq_refl eq_refl eq_refl).
Defined.

(** The object [{ w: 3 }] inherits [$type: "Error"] from its prototype:
    it is tagged, and [decode] passes its copy to [fromPlainObject]. *)
Lemma C6_tag_test_witness :
  is_tagged boxOptions inheritedTagHeap (VObject 1%nat) = true
  /\ decode boxOptions (VObject 1%nat) inheritedTagHeap
     = Some (VObject 3%nat,
             inheritedTagHeap
             ++ [plain [("w", VNumber (Int 3))];
                 mkObj false (PObj 0%nat)
                   [("w", VNumber (Int 3)); ("h", VUndefined)] 0]).
Proof.
  destruct (C6_tag_test boxOptions 1%nat inheritedTagHeap)
    as (_ & Hown & Hup & _ & _ & E & _).
  assert (Ht : is_tagged boxOptions inheritedTagHeap (VObject 1%nat) = true).
  { rewrite (Hup _ 0%nat eq_refl eq_refl eq_refl). reflexivity. }
  split; [exact Ht|].
  rewrite E, Ht. reflexivity.
Defined.

Lemma C10_primitive_payload_witness :
  let o := constOptions demoTag (VString "ab") in
  encode o VNull []
  = Some (VObject 0%nat,
          [plain [("0", VString "a"); ("1", VString "b");
                  ("$type", VString "Error")]]).
Proof.
  destruct (C10_primitive_payload (constOptions demoTag (VString "ab"))
              VNull (VString "ab") [] [] eq_refl eq_refl eq_refl) as [E _].
  exact E.
Defined.

Lemma C1_round_trip_witness :
  exists e r u h3 o',
    encode boxOptions (VObject 1%nat) boxHeap = Some e
    /\ decode boxOptions (fst e) (snd e) = Some r
    /\ r = fromPlainObject boxOptions (VObject u) h3
    /\ h3 !! u = Some o'
    /\ same_fields (props o')
         [("w", VNumber (Int 3)); ("h", VNumber (Int 4))].
Proof.
  assert (Hnd : List.NoDup (keys [("w", VNumber (Int 3)); ("h", VNumber (Int 4))])).
  { repeat constructor; simpl; intuition discriminate. }
  assert (Hk : forall k,
             In k (keys [("w", VNumber (Int 3)); ("h", VNumber (Int 4))]) ->
             k <> "__proto__" /\ prependEscapeChar boxOptions k <> "__proto__").
  { simpl. intros k [<-|[<-|[]]]; split; discriminate. }
  destruct (C1_round_trip boxOptions "_"%char
              ltac:(discriminate) eq_refl eq_refl
              (VObject 1%nat) boxHeap _ 2%nat _ eq_refl eq_refl eq_refl Hnd Hk
              ltac:(discriminate))
    as (e & r & Ee & Er & (u & h3 & o' & E & _ & _ & Hl & _ & _ & Hf) & _).
  exists e, r, u, h3, o'. repeat (split; [assumption|]). exact Hf.
Defined.

Lemma C7_arrays_witness :
  let ten := VNumber (Int 10) in
  let five := VNumber (Int 5) in
  let h := [array [("0", ten); ("1", ten); ("$type", five)]] in
  encode (plainOptions demoTag) (VObject 0%nat) h
  = Some (VObject 1%nat,
          h ++ [array [("0", ten); ("1", ten); ("_$type", five)]]).
Proof.
  intros ten five h.
  assert (Hnd : List.NoDup (keys [("0", ten); ("1", ten); ("$type", five)])).
  { repeat constructor; simpl; intuition discriminate. }
  assert (Hc : renames_cleanly (prependEscapeChar (plainOptions demoTag))
                 [("0", ten); ("1", ten); ("$type", five)]).
  { apply (prepend_renames_cleanly (plainOptions demoTag) "_"%char);
      [discriminate | reflexivity|].
    simpl. intros k [<-|[<-|[<-|[]]]]; discriminate. }
  destruct (C7_arrays (plainOptions demoTag) h 0%nat _ eq_refl eq_refl Hnd)
    as (_ & _ & E & _).
  exact (E eq_refl Hc eq_refl eq_refl).
Defined.

Lemma X1_escape_count_decomposition_witness :
  getEscapeCharCount (plainOptions demoTag) "___$type" = 3
  /\ "__$type"
     = String.append
         (escapes "_" (Z.to_nat (getEscapeCharCount (plainOptions demoTag)
                                   "__$type")))
         "$type".
Proof.
  destruct (X1_escape_count_decomposition (plainOptions demoTag) "_"%char
              ltac:(discriminate) eq_refl) as [H1 H2].
  split; [exact (H1 3%nat) | apply H2; vm_compute; discriminate].
Defined.

Lemma X2_unescape_undoes_escape_witness :
  removePrependedEscapeChar (plainOptions demoTag)
    (prependEscapeChar (plainOptions demoTag) "_$type") = "_$type".
Proof.
  destruct (X2_unescape_undoes_escape (plainOptions demoTag) "_"%char
              ltac:(discriminate) eq_refl) as [H _].
  exact (H "_$type").
Defined.

Lemma X3_escaping_depth_witness :
  Nat.iter 3 (removePrependedEscapeChar (plainOptions demoTag))
    (Nat.iter 3 (prependEscapeChar (plainOptions demoTag)) "$type") = "$type".
Proof.
  exact (proj1 (X3_escaping_depth (plainOptions demoTag) "_"%char
                  ltac:(discriminate) eq_refl 3 "$type")).
Defined.

Lemma X4_escape_after_unescape_witness :
  prependEscapeChar (plainOptions demoTag)
    (removePrependedEscapeChar (plainOptions demoTag) "$type") = "_$type".
Proof.
  exact (proj1 (proj2 (X4_escape_after_unescape (plainOptions demoTag)
                         "_"%char ltac:(discriminate) eq_refl))).
Defined.

Lemma X5_empty_key_witness :
  prependEscapeChar (plainOptions emptyKeyTag) "" = "_"
  /\ removePrependedEscapeChar (plainOptions emptyKeyTag) "_" = "_".
Proof.
  destruct (X5_empty_key (plainOptions emptyKeyTag) eq_refl) as (_ & H1 & H2).
  split; [exact (H1 "") | exact (H2 "_")].
Defined.

Lemma X6_escape_not_single_witness :
  let o := plainOptions (mkTypeTag "$type" (TagString "Error") "ab") in
  prependEscapeChar o "$type" = "ab$type"
  /\ removePrependedEscapeChar o "ab$type" = "ab$type".
Proof.
  destruct (X6_escape_not_single
              (plainOptions (mkTypeTag "$type" (TagString "Error") "ab"))
              ltac:(discriminate) eq_refl) as (_ & H1 & H2).
  split; [exact (H1 "$type") | exact (H2 "ab$type")].
Defined.

Lemma X8_last_entry_wins_witness :
  let one := VNumber (Int 1) in
  let two := VNumber (Int 2) in
  let h := [plain [("$type", one); ("_$type", two)]] in
  exists o',
    replaceObjectKey (VObject 0%nat)
      (removePrependedEscapeChar (plainOptions demoTag)) h
    = Some (VObject 1%nat, h ++ [o'])
    /\ lookup_prop "$type" (props o') = Some two
    /\ (List.length (props o') <= 2)%nat.
Proof.
  intros one two h.
  destruct (X8_last_entry_wins
              (removePrependedEscapeChar (plainOptions demoTag)) h 0%nat _
              eq_refl) as (o' & E & _ & _ & _ & Hf & Hlen).
  - simpl. intros k [<-|[<-|[]]]; discriminate.
  - discriminate.
  - reflexivity.
  - exists o'. split; [exact E|]. split; [|exact Hlen].
    rewrite (Hf "$type"). reflexivity.
Defined.

Lemma X9_proto_entry_dropped_witness :
  let one := VNumber (Int 1) in
  let h := [plain [("__proto__", VNull); ("$type", one)]] in
  exists o',
    replaceObjectKey (VObject 0%nat)
      (prependEscapeChar (plainOptions demoTag)) h
    = Some (VObject 1%nat, h ++ [o'])
    /\ props o' = [("_$type", one)]
    /\ prototype o' = PNull.
Proof.
  intros one h.
  destruct (X9_proto_entry_dropped
              (prependEscapeChar (plainOptions demoTag)) h 0%nat _
              [] [("$type", one)] "__proto__" VNull
              eq_refl eq_refl eq_refl)
    as (o' & E & _ & Hprops & _ & Hproto).
  - simpl. intros k [<-|[]]. discriminate.
  - discriminate.
  - reflexivity.
  - exists o'. split; [exact E|]. split; [exact Hprops | exact Hproto].
Defined.

Lemma X10_no_accidental_tag_witness :
  let h := [plain [("$type", VString "Error"); ("age", VNumber (Int 12))]] in
  exists r,
    encode (plainOptions demoTag) (VObject 0%nat) h = Some r
    /\ lookup_prop "$type" (entries (snd r) (fst r)) = None.
Proof.
  intros h. eexists. split; [reflexivity|].
  exact (proj1 (proj2 (X10_no_accidental_tag (plainOptions demoTag) "_"%char
                         ltac:(discriminate) eq_refl (VObject 0%nat)
                         [plain [("$type", VString "Error");
                                 ("age", VNumber (Int 12))]] eq_refl)
                  _ eq_refl)).
Defined.

Lemma X11_plain_round_trip_witness :
  let ps := [("0", VNumber (Int 10)); ("$type", VString "Error");
             ("_$type", VNull)] in
  exists e d,
    encode (plainOptions demoTag) (VObject 0%nat) [array ps] = Some e
    /\ decode (plainOptions demoTag) (fst e) (snd e) = Some d
    /\ isArray (snd d) (fst d) = true
    /\ same_fields (entries (snd d) (fst d)) ps.
Proof.
  intros ps.
  assert (Hnd : List.NoDup (keys ps)).
  { repeat constructor; simpl; intuition discriminate. }
  assert (Hk : forall k, In k (keys ps) ->
             k <> "__proto__"
             /\ prependEscapeChar (plainOptions demoTag) k <> "__proto__").
  { simpl. intros k [<-|[<-|[<-|[]]]]; split; discriminate. }
  assert (Hlen : is_array (array ps) = true ->
             "$type" <> "length"
             /\ forall k, In k (keys ps) ->
                  prependEscapeChar (plainOptions demoTag) k <> "length").
  { intros _. split; [discriminate|].
    simpl. intros k [<-|[<-|[<-|[]]]]; discriminate. }
  destruct (X11_plain_round_trip (plainOptions demoTag) "_"%char
              ltac:(discriminate) eq_refl [array ps] 0%nat (array ps)
              eq_refl eq_refl Hnd eq_refl Hk Hlen)
    as (e & d & Ee & Ed & _ & _ & Harr & Hf & _).
  exists e, d. split; [exact Ee|]. split; [exact Ed|].
  split; [exact Harr | exact Hf].
Defined.

Lemma X12_source_is_tagged_witness :
  exists h2 t,
    encode boxOptions (VObject 1%nat) boxHeap
    = Some (VObject (List.length h2), h2 ++ [t])
    /\ lookup_prop "$type" (props t) = Some (VString "Error").
Proof.
  destruct (X12_source_is_tagged boxOptions "_"%char ltac:(discriminate)
              eq_refl (VObject 1%nat) _ boxHeap _ eq_refl eq_refl)
    as (h2 & t & E & _ & _ & _ & Hl & _).
  - intros str. discriminate.
  - discriminate.
  - exists h2, t. split; [exact E | exact Hl].
Defined.

Lemma X13_NaN_tag_witness :
  let o := constOptions (mkTypeTag "$type" (TagNumber NaN) "_") VNull in
  let h := [plain [("$type", VNumber NaN); ("_$type", VNull)]] in
  is_tagged o h (VObject 0%nat) = false.
Proof.
  exact (proj1 (X13_NaN_tag
                  (constOptions (mkTypeTag "$type" (TagNumber NaN) "_") VNull)
                  (VObject 0%nat)
                  [plain [("$type", VNumber NaN); ("_$type", VNull)]]
                  eq_refl)).
Defined.

Lemma X14_decode_tagged_keeps_entries_witness :
  let t := plain [("$type", VString "Error"); ("_$type", VNumber (Int 1));
                  ("w", VNumber (Int 3))] in
  exists u h2 o',
    decode boxOptions (VObject 2%nat) (boxHeap ++ [t])
    = Some (fromPlainObject boxOptions (VObject u) h2)
    /\ h2 !! u = Some o'
    /\ lookup_prop "$type" (props o') = Some (VNumber (Int 1))
    /\ lookup_prop "w" (props o') = Some (VNumber (Int 3)).
Proof.
  intros t.
  assert (Hnd : List.NoDup (keys (props t))).
  { repeat constructor; simpl; intuition discriminate. }
  destruct (X14_decode_tagged_keeps_entries boxOptions "_"%char
              ltac:(discriminate) eq_refl (boxHeap ++ [t]) 2%nat t
              eq_refl Hnd eq_refl)
    as (u & h2 & o' & E & _ & _ & Hl & _ & _ & _ & Hk).
  - simpl. intros k [<-|[<-|[<-|[]]]] _; discriminate.
  - exists u, h2, o'. split; [exact E|]. split; [exact Hl|]. split.
    + exact (Hk "_$type" _ ltac:(discriminate) eq_refl).
    + exact (Hk "w" _ ltac:(discriminate) eq_refl).
Defined.

Lemma X15_empty_escape_witness :
  let o := constOptions (mkTypeTag "$type" (TagString "Error") "")
                        (VObject 0%nat) in
  let h := [plain [("$type", VNumber (Int 1))]] in
  exists t,
    encode o VNull h = Some (VObject 1%nat, h ++ [t])
    /\ lookup_prop "$type" (props t) = Some (VNumber (Int 1)).
Proof.
  intros o h.
  destruct (X15_empty_escape o eq_refl) as (_ & _ & _ & H).
  refine (H VNull h h 0%nat _ (VNumber (Int 1)) eq_refl eq_refl eq_refl _ eq_refl).
  repeat constructor. simpl. tauto.
Defined.

Lemma X7_identity_preserved_witness :
  let h := [plain [("age", VNumber (Int 12)); ("name", VString "hello")]] in
  replaceObjectKey (VObject 0%nat)
    (prependEscapeChar (plainOptions demoTag)) h
  = Some (VObject 0%nat, h).
Proof.
  intros h.
  apply (proj1 (proj2 (X7_identity_preserved (VObject 0%nat)
                         (prependEscapeChar (plainOptions demoTag)) h))).
  right. simpl. intros k [<-|[<-|[]]]; reflexivity.
Defined.

Lemma X16_one_level_only_witness :
  let nested := VObject 0%nat in
  let h := [plain [("$type", VString "Error")]; plain [("$type", nested)]] in
  exists k, In (k, nested) (entries h (VObject 1%nat))
            /\ prependEscapeChar (plainOptions demoTag) k = "_$type".
Proof.
  intros nested h.
  apply (proj1 (X16_one_level_only (plainOptions demoTag))
           (VObject 1%nat) (prependEscapeChar (plainOptions demoTag)) h
           _ "_$type" nested eq_refl).
  simpl. now left.
Defined.

Lemma X17_array_length_assigned_witness :
  let tag := mkTypeTag "length" (TagString "Error") "_" in
  let h := [array [("0", VNumber (Int 10)); ("1", VNumber (Int 20));
                   ("_length", VNumber (Int 1))]] in
  replaceObjectKey (VObject 0%nat)
    (removePrependedEscapeChar (plainOptions tag)) h
  = Some (VObject 1%nat, h ++ [array [("0", VNumber (Int 10))]]).
Proof.
  intros tag h.
  destruct (X17_array_length_assigned
              (removePrependedEscapeChar (plainOptions tag)) h 0%nat _
              [("0", VNumber (Int 10)); ("1", VNumber (Int 20))]
              "_length" (VNumber (Int 1))
              eq_refl eq_refl eq_refl eq_refl) as [_ [E _]].
  - simpl. intros k [<-|[<-|[]]]; split; discriminate.
  - rewrite E. reflexivity.
Defined.
